(** * Secure storage of flyfront: crypto.service.ts and secure-storage.service.ts

    A shallow embedding of the two services of [libs/core/src/lib/services]
    and the properties of the encrypted client-side storage they implement.

    The platform the services run on is split in two:
    - [JSON.stringify]/[JSON.parse] and [btoa]/[atob] are deterministic
      text codecs; they are modelled by executable functions (module [JSON]
      and module [Base64]) and their round-trip laws are proved;
    - the Web Crypto primitives (AES-GCM, PBKDF2), [TextEncoder]/[TextDecoder],
      the [Uint8Array] constructor, [crypto.getRandomValues] and [Date.now]
      are the fields of a [Platform] record; what a theorem needs of them is
      a hypothesis of that theorem.

    What the embedding leaves out:
    - JSON values are those with integer numbers and 8-bit characters; a
      text with a fraction, an exponent or a [\uXXXX] escape above 00ff is
      JSON ([JSON.well_formed]) without a value in the model, and integers
      are exact where JS rounds them to doubles;
    - a storage that is there takes every [setItem] (no quota), and
      AES-GCM takes every key it is given;
    - a [CryptoKey] is its raw bytes; [exportKey] and [importKey], which
      depend on the extractable flag and on the length of a raw key, are
      not modelled. *)

From Stdlib Require Import ZArith NArith Ascii String List Lia Bool Decimal DecimalPos.
From Stdlib.Strings Require Import Byte.
From stdpp Require Import base option strings gmap.

Local Open Scope string_scope.
Local Open Scope Z_scope.

(** ** JS values that survive JSON: the integer fragment of JSON *)

#[warnings="-register-all"]
Inductive json : Type :=
| JNull
| JBool (b : bool)
| JNum (n : Z)
| JStr (s : string)
| JArr (elems : list json)
| JObj (members : list (string * json)).

(** The double quote, character 34. *)
Definition dquote : ascii := Ascii false true false false false true false false.

Module JSON.

(** *** JSON.stringify *)

Definition hex_digit (n : N) : ascii :=
  match n with
  | 0%N => "0" | 1%N => "1" | 2%N => "2" | 3%N => "3" | 4%N => "4"
  | 5%N => "5" | 6%N => "6" | 7%N => "7" | 8%N => "8" | 9%N => "9"
  | 10%N => "a" | 11%N => "b" | 12%N => "c" | 13%N => "d" | 14%N => "e"
  | _ => "f"
  end%char.

(** One character of a string literal: the two-character escapes of
    ECMA-404, [\u00XX] for the other control characters, the character
    itself otherwise. *)
Definition escape_char (c : ascii) : string :=
  let n := N_of_ascii c in
  if (n =? 34)%N then String "\" (String dquote "")
  else if (n =? 92)%N then "\\"
  else if (n =? 8)%N then "\b"
  else if (n =? 12)%N then "\f"
  else if (n =? 10)%N then "\n"
  else if (n =? 13)%N then "\r"
  else if (n =? 9)%N then "\t"
  else if (n <? 32)%N then
    String "\" (String "u" (String "0" (String "0"
      (String (hex_digit (n / 16)) (String (hex_digit (n mod 16)) "")))))
  else String c "".

Fixpoint escape (s : string) : string :=
  match s with
  | EmptyString => ""
  | String c r => escape_char c ++ escape r
  end.

Definition quote (s : string) : string := String dquote (escape s ++ String dquote "").

Definition digit_char (d : N) : ascii := ascii_of_N (48 + d).

Fixpoint uint_string (d : Decimal.uint) : string :=
  match d with
  | Nil => ""
  | D0 r => String "0" (uint_string r)
  | D1 r => String "1" (uint_string r)
  | D2 r => String "2" (uint_string r)
  | D3 r => String "3" (uint_string r)
  | D4 r => String "4" (uint_string r)
  | D5 r => String "5" (uint_string r)
  | D6 r => String "6" (uint_string r)
  | D7 r => String "7" (uint_string r)
  | D8 r => String "8" (uint_string r)
  | D9 r => String "9" (uint_string r)
  end.

Definition number_string (n : Z) : string :=
  match n with
  | Z0 => "0"
  | Zpos p => uint_string (Pos.to_uint p)
  | Zneg p => String "-" (uint_string (Pos.to_uint p))
  end.

Fixpoint stringify (j : json) : string :=
  match j with
  | JNull => "null"
  | JBool true => "true"
  | JBool false => "false"
  | JNum n => number_string n
  | JStr s => quote s
  | JArr l =>
      let fix elements (l : list json) : string :=
        match l with
        | [] => ""
        | [v] => stringify v
        | v :: vs => stringify v ++ String "," (elements vs)
        end in
      String "[" (elements l ++ "]")
  | JObj l =>
      let fix members (l : list (string * json)) : string :=
        match l with
        | [] => ""
        | [(k, v)] => quote k ++ String ":" (stringify v)
        | (k, v) :: kvs => quote k ++ String ":" (stringify v) ++ String "," (members kvs)
        end in
      String "{" (members l ++ "}")
  end.

(** *** JSON.parse *)

Definition is_ws (c : ascii) : bool :=
  let n := N_of_ascii c in
  ((n =? 32) || (n =? 9) || (n =? 10) || (n =? 13))%N.

Fixpoint skip_ws (s : string) : string :=
  match s with
  | String c r => if is_ws c then skip_ws r else s
  | EmptyString => ""
  end.

Fixpoint strip (p s : string) : option string :=
  match p, s with
  | EmptyString, _ => Some s
  | String a p', String b s' => if Ascii.eqb a b then strip p' s' else None
  | String _ _, EmptyString => None
  end.

Definition hex_value (c : ascii) : option N :=
  let n := N_of_ascii c in
  if ((48 <=? n) && (n <=? 57))%N then Some (n - 48)%N
  else if ((97 <=? n) && (n <=? 102))%N then Some (n - 87)%N
  else if ((65 <=? n) && (n <=? 70))%N then Some (n - 55)%N
  else None.

(** [\uXXXX]: only code units below 256 are characters of the model. *)
Definition hex4 (h1 h2 h3 h4 : ascii) : option ascii :=
  match hex_value h1, hex_value h2, hex_value h3, hex_value h4 with
  | Some 0%N, Some 0%N, Some a, Some b => Some (ascii_of_N (16 * a + b))
  | _, _, _, _ => None
  end.

Definition unescape (e : ascii) : option ascii :=
  let n := N_of_ascii e in
  if (n =? 34)%N then Some dquote
  else if (n =? 92)%N then Some "\"%char
  else if (n =? 47)%N then Some "/"%char
  else if (n =? 98)%N then Some (ascii_of_N 8)
  else if (n =? 102)%N then Some (ascii_of_N 12)
  else if (n =? 110)%N then Some (ascii_of_N 10)
  else if (n =? 114)%N then Some (ascii_of_N 13)
  else if (n =? 116)%N then Some (ascii_of_N 9)
  else None.

Definition cons_char (c : ascii) (r : option (string * string)) : option (string * string) :=
  match r with
  | Some (s, rest) => Some (String c s, rest)
  | None => None
  end.

(** The characters of a string literal after its opening quote, and what
    follows the closing quote. *)
Fixpoint string_body (s : string) : option (string * string) :=
  match s with
  | EmptyString => None
  | String c r =>
      if (N_of_ascii c =? 34)%N then Some ("", r)
      else if (N_of_ascii c =? 92)%N then
        match r with
        | EmptyString => None
        | String e r1 =>
            match unescape e with
            | Some d => cons_char d (string_body r1)
            | None =>
                if (N_of_ascii e =? 117)%N then
                  match r1 with
                  | String h1 (String h2 (String h3 (String h4 r2))) =>
                      match hex4 h1 h2 h3 h4 with
                      | Some d => cons_char d (string_body r2)
                      | None => None
                      end
                  | _ => None
                  end
                else None
            end
        end
      else if (N_of_ascii c <? 32)%N then None
      else cons_char c (string_body r)
  end.

Definition digit_of (c : ascii) : option (Decimal.uint -> Decimal.uint) :=
  match N_of_ascii c with
  | 48%N => Some D0 | 49%N => Some D1 | 50%N => Some D2 | 51%N => Some D3
  | 52%N => Some D4 | 53%N => Some D5 | 54%N => Some D6 | 55%N => Some D7
  | 56%N => Some D8 | 57%N => Some D9
  | _ => None
  end.

Fixpoint digits (s : string) : Decimal.uint * string :=
  match s with
  | EmptyString => (Nil, "")
  | String c r =>
      match digit_of c with
      | Some d => let '(ds, rest) := digits r in (d ds, rest)
      | None => (Nil, s)
      end
  end.

(** An integer literal: an optional minus sign and digits without a
    leading zero. Fractions and exponents are outside the model. *)
Definition number (s : string) : option (Z * string) :=
  let '(neg, r) := match strip "-" s with Some r => (true, r) | None => (false, s) end in
  let '(d, rest) := digits r in
  if Decimal.uint_eq_dec (Decimal.unorm d) d
  then Some (if neg : bool then Z.opp (Z.of_uint d) else Z.of_uint d, rest)
  else None.

Definition literal (s : string) : option (json * string) :=
  match strip "null" s with
  | Some r => Some (JNull, r)
  | None =>
  match strip "true" s with
  | Some r => Some (JBool true, r)
  | None =>
  match strip "false" s with
  | Some r => Some (JBool false, r)
  | None =>
  match number s with
  | Some (n, r) => Some (JNum n, r)
  | None => None
  end end end end.

Fixpoint value (fuel : nat) (s : string) : option (json * string) :=
  match fuel with
  | O => None
  | S fuel' =>
      match skip_ws s with
      | EmptyString => None
      | String c r =>
          if (N_of_ascii c =? 34)%N then
            match string_body r with
            | Some (str, rest) => Some (JStr str, rest)
            | None => None
            end
          else if (N_of_ascii c =? 91)%N then
            match strip "]" (skip_ws r) with
            | Some rest => Some (JArr [], rest)
            | None =>
                match elements fuel' r with
                | Some (vs, rest) => Some (JArr vs, rest)
                | None => None
                end
            end
          else if (N_of_ascii c =? 123)%N then
            match strip "}" (skip_ws r) with
            | Some rest => Some (JObj [], rest)
            | None =>
                match members fuel' r with
                | Some (kvs, rest) => Some (JObj kvs, rest)
                | None => None
                end
            end
          else literal (String c r)
      end
  end
with elements (fuel : nat) (s : string) : option (list json * string) :=
  match fuel with
  | O => None
  | S fuel' =>
      match value fuel' s with
      | None => None
      | Some (v, r) =>
          match strip "," (skip_ws r) with
          | Some r' =>
              match elements fuel' r' with
              | Some (vs, rest) => Some (v :: vs, rest)
              | None => None
              end
          | None =>
              match strip "]" (skip_ws r) with
              | Some rest => Some ([v], rest)
              | None => None
              end
          end
      end
  end
with members (fuel : nat) (s : string) : option (list (string * json) * string) :=
  match fuel with
  | O => None
  | S fuel' =>
      match strip (String dquote "") (skip_ws s) with
      | None => None
      | Some r0 =>
      match string_body r0 with
      | None => None
      | Some (k, r1) =>
      match strip ":" (skip_ws r1) with
      | None => None
      | Some r2 =>
      match value fuel' r2 with
      | None => None
      | Some (v, r) =>
          match strip "," (skip_ws r) with
          | Some r' =>
              match members fuel' r' with
              | Some (kvs, rest) => Some ((k, v) :: kvs, rest)
              | None => None
              end
          | None =>
              match strip "}" (skip_ws r) with
              | Some rest => Some ([(k, v)], rest)
              | None => None
              end
          end
      end end end end
  end.

(** [JSON.parse] on the texts of the model: [None] is the SyntaxError.
    A text with a fraction, an exponent or a [\uXXXX] escape above 00ff is
    JSON that the model has no value for; [well_formed] below tells such a
    text from one that is not JSON. *)
Definition parse (s : string) : option json :=
  match value (S (String.length s)) s with
  | Some (j, rest) => match skip_ws rest with EmptyString => Some j | _ => None end
  | None => None
  end.

(** *** The grammar of JSON texts

    A recogniser of the whole grammar that [JSON.parse] accepts
    (ECMA-404): the same descent as [value], with the number literals that
    have a fraction or an exponent, and the [\uXXXX] escapes of every code
    unit. Each function returns what follows the part it has read. *)

Definition is_hex (c : ascii) : bool :=
  match hex_value c with Some _ => true | None => false end.

Fixpoint string_rest (s : string) : option string :=
  match s with
  | EmptyString => None
  | String c r =>
      if (N_of_ascii c =? 34)%N then Some r
      else if (N_of_ascii c =? 92)%N then
        match r with
        | EmptyString => None
        | String e r1 =>
            match unescape e with
            | Some _ => string_rest r1
            | None =>
                if (N_of_ascii e =? 117)%N then
                  match r1 with
                  | String h1 (String h2 (String h3 (String h4 r2))) =>
                      if is_hex h1 && is_hex h2 && is_hex h3 && is_hex h4
                      then string_rest r2 else None
                  | _ => None
                  end
                else None
            end
        end
      else if (N_of_ascii c <? 32)%N then None
      else string_rest r
  end.

(** One digit at least, and what follows the digits. *)
Definition digits1 (s : string) : option string :=
  match digits s with
  | (Nil, _) => None
  | (_, rest) => Some rest
  end.

(** [. digits], when there is a point. *)
Definition fraction_rest (s : string) : option string :=
  match s with
  | String c r => if (N_of_ascii c =? 46)%N then digits1 r else Some s
  | EmptyString => Some s
  end.

(** [e] or [E], an optional sign and digits, when there is an [e]. *)
Definition exponent_rest (s : string) : option string :=
  match s with
  | String c r =>
      if ((N_of_ascii c =? 101) || (N_of_ascii c =? 69))%N then
        match r with
        | String g r' =>
            if ((N_of_ascii g =? 43) || (N_of_ascii g =? 45))%N then digits1 r'
            else digits1 r
        | EmptyString => None
        end
      else Some s
  | EmptyString => Some s
  end.

Definition number_rest (s : string) : option string :=
  let r := match strip "-" s with Some r => r | None => s end in
  let '(d, r1) := digits r in
  if Decimal.uint_eq_dec (Decimal.unorm d) d
  then match fraction_rest r1 with
       | Some r2 => exponent_rest r2
       | None => None
       end
  else None.

Definition literal_rest (s : string) : option string :=
  match strip "null" s with
  | Some r => Some r
  | None =>
  match strip "true" s with
  | Some r => Some r
  | None =>
  match strip "false" s with
  | Some r => Some r
  | None => number_rest s
  end end end.

Fixpoint value_rest (fuel : nat) (s : string) : option string :=
  match fuel with
  | O => None
  | S fuel' =>
      match skip_ws s with
      | EmptyString => None
      | String c r =>
          if (N_of_ascii c =? 34)%N then string_rest r
          else if (N_of_ascii c =? 91)%N then
            match strip "]" (skip_ws r) with
            | Some rest => Some rest
            | None => elements_rest fuel' r
            end
          else if (N_of_ascii c =? 123)%N then
            match strip "}" (skip_ws r) with
            | Some rest => Some rest
            | None => members_rest fuel' r
            end
          else literal_rest (String c r)
      end
  end
with elements_rest (fuel : nat) (s : string) : option string :=
  match fuel with
  | O => None
  | S fuel' =>
      match value_rest fuel' s with
      | None => None
      | Some r =>
          match strip "," (skip_ws r) with
          | Some r' => elements_rest fuel' r'
          | None => strip "]" (skip_ws r)
          end
      end
  end
with members_rest (fuel : nat) (s : string) : option string :=
  match fuel with
  | O => None
  | S fuel' =>
      match strip (String dquote "") (skip_ws s) with
      | None => None
      | Some r0 =>
      match string_rest r0 with
      | None => None
      | Some r1 =>
      match strip ":" (skip_ws r1) with
      | None => None
      | Some r2 =>
      match value_rest fuel' r2 with
      | None => None
      | Some r =>
          match strip "," (skip_ws r) with
          | Some r' => members_rest fuel' r'
          | None => strip "}" (skip_ws r)
          end
      end end end end
  end.

(** The text is JSON: [JSON.parse] does not throw on it. *)
Definition well_formed (s : string) : bool :=
  match value_rest (S (String.length s)) s with
  | Some rest => match skip_ws rest with EmptyString => true | _ => false end
  | None => false
  end.

(** *** The text [stringify] writes *)

Fixpoint elements_string (l : list json) : string :=
  match l with
  | [] => ""
  | [v] => stringify v
  | v :: vs => stringify v ++ String "," (elements_string vs)
  end.

Fixpoint members_string (l : list (string * json)) : string :=
  match l with
  | [] => ""
  | [(k, v)] => quote k ++ String ":" (stringify v)
  | (k, v) :: kvs => quote k ++ String ":" (stringify v) ++ String "," (members_string kvs)
  end.

(** What may follow a number: anything but a digit. *)
Definition no_digit (r : string) : Prop :=
  match r with
  | EmptyString => True
  | String c _ => digit_of c = None
  end.

(** The characters a number starts with. *)
Definition numeric (c : ascii) : Prop :=
  In c (list_ascii_of_string "-0123456789").

(** The first character of a value is neither white space nor a closing
    bracket. *)
Definition opens_value (s : string) : Prop :=
  match s with
  | EmptyString => False
  | String c _ => is_ws c = false /\ Ascii.eqb "]" c = false
  end.

(** The round trip of one value, with what follows it in the text. *)
Definition reads_back (j : json) : Prop :=
  forall fuel r, (String.length (stringify j) <= fuel)%nat -> no_digit r ->
    value fuel (stringify j ++ r) = Some (j, r).

End JSON.

(** ** btoa and atob *)

Module Base64.

Definition b64_char (n : N) : ascii :=
  if (n <? 26)%N then ascii_of_N (65 + n)
  else if (n <? 52)%N then ascii_of_N (71 + n)
  else if (n <? 62)%N then ascii_of_N (n - 4)
  else if (n =? 62)%N then "+"%char
  else "/"%char.

Definition b64_value (c : ascii) : option N :=
  let n := N_of_ascii c in
  if ((65 <=? n) && (n <=? 90))%N then Some (n - 65)%N
  else if ((97 <=? n) && (n <=? 122))%N then Some (n - 71)%N
  else if ((48 <=? n) && (n <=? 57))%N then Some (n + 4)%N
  else if (n =? 43)%N then Some 62%N
  else if (n =? 47)%N then Some 63%N
  else None.

(** Three bytes make four 6-bit groups; a last group of one or two bytes
    makes two or three, its unused low bits zero. *)
Fixpoint sextets (l : list N) : list N :=
  match l with
  | [] => []
  | [a] => [a / 4; (a mod 4) * 16]%N
  | [a; b] => [a / 4; (a mod 4) * 16 + b / 16; (b mod 16) * 4]%N
  | a :: b :: c :: r =>
      (a / 4 :: (a mod 4) * 16 + b / 16 :: (b mod 16) * 4 + c / 64 :: c mod 64 :: sextets r)%N
  end.

Definition padding (len : nat) : list ascii :=
  match (len mod 3)%nat with
  | 1%nat => ["="; "="]%char
  | 2%nat => ["="]%char
  | _ => []
  end.

Definition btoa (binary : string) : string :=
  let bytes := map N_of_ascii (list_ascii_of_string binary) in
  string_of_list_ascii (map b64_char (sextets bytes) ++ padding (length bytes)).

(** Four 6-bit groups make three bytes; of a last group of two or three,
    the bits that do not fill a byte are dropped without being looked at. *)
Fixpoint octets (l : list N) : list N :=
  match l with
  | a :: b :: c :: d :: r =>
      (a * 4 + b / 16 :: (b mod 16) * 16 + c / 4 :: (c mod 4) * 64 + d :: octets r)%N
  | [a; b; c] => [a * 4 + b / 16; (b mod 16) * 16 + c / 4]%N
  | [a; b] => [a * 4 + b / 16]%N
  | _ => []
  end.

Definition is_ascii_whitespace (c : ascii) : bool :=
  let n := N_of_ascii c in
  ((n =? 9) || (n =? 10) || (n =? 12) || (n =? 13) || (n =? 32))%N.

Definition is_pad (c : ascii) : bool := (N_of_ascii c =? 61)%N.

(** With a length that is a multiple of four, one or two trailing [=]
    are removed. *)
Definition remove_padding (l : list ascii) : list ascii :=
  if (length l mod 4 =? 0)%nat then
    match rev l with
    | p :: q :: r =>
        if is_pad p then (if is_pad q then rev r else rev (q :: r)) else l
    | _ => l
    end
  else l.

Fixpoint values (l : list ascii) : option (list N) :=
  match l with
  | [] => Some []
  | c :: r =>
      match b64_value c, values r with
      | Some v, Some vs => Some (v :: vs)
      | _, _ => None
      end
  end.

(** [atob], the forgiving-base64 decode of the HTML standard; [None] is
    the InvalidCharacterError. *)
Definition atob (data : string) : option string :=
  let l := List.filter (fun c => negb (is_ascii_whitespace c)) (list_ascii_of_string data) in
  let l := remove_padding l in
  if (length l mod 4 =? 1)%nat then None
  else
    match values l with
    | Some vs => Some (string_of_list_ascii (map ascii_of_N (octets vs)))
    | None => None
    end.

(** Byte values and 6-bit values. *)
Definition octet (n : N) : Prop := (n < 256)%N.
Definition sextet (n : N) : Prop := (n < 64)%N.

(** The padding [btoa] may append. *)
Definition pads (l : list ascii) : Prop := l = [] \/ l = ["="%char] \/ l = ["="; "="]%char.

End Base64.

(** ** The JS operators the services apply to parsed values

    A value read back by [JSON.parse] is untyped: the services access its
    properties, test it for truthiness and compare it. [None] stands for
    [undefined]. *)

Module JS.

Definition value := option json.

(** The last member of that name, as [JSON.parse] keeps the last of
    duplicate names. *)
Fixpoint member (name : string) (l : list (string * json)) : value :=
  match l with
  | [] => None
  | (k, v) :: r =>
      match member name r with
      | Some x => Some x
      | None => if String.eqb k name then Some v else None
      end
  end.

Inductive access := Nullish | Reads (v : value).

(** [o.name], for the names the services read (none of which is a
    property of a string, number, boolean or array). *)
Definition prop (o : value) (name : string) : access :=
  match o with
  | None | Some JNull => Nullish
  | Some (JObj l) => Reads (member name l)
  | Some _ => Reads None
  end.

Definition truthy (v : value) : bool :=
  match v with
  | None | Some JNull => false
  | Some (JBool b) => b
  | Some (JNum n) => negb (n =? 0)
  | Some (JStr s) => negb (String.eqb s "")
  | Some (JArr _) | Some (JObj _) => true
  end.

(** ToString *)
Fixpoint to_string_json (j : json) : string :=
  match j with
  | JNull => "null"
  | JBool true => "true"
  | JBool false => "false"
  | JNum n => JSON.number_string n
  | JStr s => s
  | JArr l =>
      let fix join (l : list json) : string :=
        match l with
        | [] => ""
        | v :: r =>
            let e := match v with JNull => "" | _ => to_string_json v end in
            match r with [] => e | _ => e ++ String "," (join r) end
        end in
      join l
  | JObj _ => "[object Object]"
  end.

Definition to_string (v : value) : string :=
  match v with
  | None => "undefined"
  | Some j => to_string_json j
  end.

(** ToNumber, on the integers; [None] is NaN, and also every numeric
    string that is not a decimal integer. *)
Definition string_to_number (s : string) : option Z :=
  match JSON.skip_ws s with
  | EmptyString => Some 0
  | String c r =>
      let '(neg, t) :=
        if (N_of_ascii c =? 45)%N then (true, r)
        else if (N_of_ascii c =? 43)%N then (false, r)
        else (false, String c r) in
      match JSON.digits t with
      | (Nil, _) => None
      | (d, rest) =>
          match JSON.skip_ws rest with
          | EmptyString => Some (if neg : bool then - Z.of_uint d else Z.of_uint d)
          | _ => None
          end
      end
  end.

Definition to_number (v : value) : option Z :=
  match v with
  | None => None
  | Some JNull => Some 0
  | Some (JBool b) => Some (if b then 1 else 0)
  | Some (JNum n) => Some n
  | Some j => string_to_number (to_string_json j)
  end.

(** [n > v] *)
Definition gt (n : Z) (v : value) : bool :=
  match to_number v with
  | Some m => m <? n
  | None => false
  end.

(** [v !== n] for a number [n] *)
Definition strict_neq (v : value) (n : Z) : bool :=
  match v with
  | Some (JNum m) => negb (m =? n)
  | _ => true
  end.

End JS.

(** ** The platform and the state of the two services *)

#[global] Instance byte_eq_decision : EqDecision byte := Byte.byte_eq_dec.

Definition bytes := list byte.
Definition CryptoKey := bytes.

Record Platform := {
  (** [subtle.encrypt({name: 'AES-GCM', iv}, key, plaintext)] *)
  subtle_encrypt : CryptoKey -> bytes -> bytes -> bytes;
  (** [subtle.decrypt]; [None] is the rejection with an OperationError *)
  subtle_decrypt : CryptoKey -> bytes -> bytes -> option bytes;
  (** [subtle.importKey] of the encoded password followed by
      [subtle.deriveKey] with PBKDF2, salt, iterations and SHA-256 *)
  subtle_deriveKey : bytes -> bytes -> Z -> CryptoKey;
  (** [new TextEncoder().encode] and [new TextDecoder().decode] *)
  text_encode : string -> bytes;
  text_decode : bytes -> string;
  (** [new Uint8Array(x)] for a parsed [x]; [None] when it throws *)
  Uint8Array_from : json -> option bytes;
  (** the bytes [crypto.getRandomValues] and [subtle.generateKey] hand out,
      in the order they are drawn *)
  random_byte : nat -> byte;
  (** the successive readings of [Date.now()] *)
  clock : nat -> Z;
  (** whether the runtime has a global [crypto] object where the service
      found no [crypto.subtle] (an insecure context has one, an old runtime
      has none) *)
  crypto_present : bool
}.

Inductive error :=
| CryptoUnavailable      (* Error: Web Crypto API is not available... *)
| OperationError         (* DOMException of subtle.decrypt *)
| InvalidCharacterError  (* DOMException of atob *)
| SyntaxError            (* JSON.parse *)
| TypeError              (* property access on undefined or null *)
| PasswordRequired       (* Error: Password is required for password-based key derivation *)
| KeyRequired            (* Error: Key is required when using provided key mode *)
| CannotRotate           (* Error: Cannot rotate key - encryption not available *)
| QuotaExceededError     (* DOMException of crypto.getRandomValues above 65536 bytes *)
| ReferenceError.        (* crypto is not defined *)

Inductive result (A : Type) :=
| Ok (a : A)
| Throw (e : error).
Arguments Ok {A} a.
Arguments Throw {A} e.

Record State := {
  subtle : bool;                                (* CryptoService.subtle !== null *)
  encryptionKey : option CryptoKey;
  keySalt : option bytes;
  initialized : bool;
  memoryStorage : gmap string string;
  localStorage : option (gmap string string);   (* None: window.localStorage throws *)
  sessionStorage : option (gmap string string);
  drawn : nat;                                  (* random bytes handed out so far *)
  clock_reads : nat                             (* Date.now() calls so far *)
}.

Definition set_encryptionKey (k : option CryptoKey) (st : State) : State :=
  {| subtle := subtle st; encryptionKey := k; keySalt := keySalt st;
     initialized := initialized st; memoryStorage := memoryStorage st;
     localStorage := localStorage st; sessionStorage := sessionStorage st;
     drawn := drawn st; clock_reads := clock_reads st |}.
Definition set_keySalt (s : option bytes) (st : State) : State :=
  {| subtle := subtle st; encryptionKey := encryptionKey st; keySalt := s;
     initialized := initialized st; memoryStorage := memoryStorage st;
     localStorage := localStorage st; sessionStorage := sessionStorage st;
     drawn := drawn st; clock_reads := clock_reads st |}.
Definition set_initialized (b : bool) (st : State) : State :=
  {| subtle := subtle st; encryptionKey := encryptionKey st; keySalt := keySalt st;
     initialized := b; memoryStorage := memoryStorage st;
     localStorage := localStorage st; sessionStorage := sessionStorage st;
     drawn := drawn st; clock_reads := clock_reads st |}.
Definition set_memoryStorage (m : gmap string string) (st : State) : State :=
  {| subtle := subtle st; encryptionKey := encryptionKey st; keySalt := keySalt st;
     initialized := initialized st; memoryStorage := m;
     localStorage := localStorage st; sessionStorage := sessionStorage st;
     drawn := drawn st; clock_reads := clock_reads st |}.
Definition set_localStorage (m : option (gmap string string)) (st : State) : State :=
  {| subtle := subtle st; encryptionKey := encryptionKey st; keySalt := keySalt st;
     initialized := initialized st; memoryStorage := memoryStorage st;
     localStorage := m; sessionStorage := sessionStorage st;
     drawn := drawn st; clock_reads := clock_reads st |}.
Definition set_sessionStorage (m : option (gmap string string)) (st : State) : State :=
  {| subtle := subtle st; encryptionKey := encryptionKey st; keySalt := keySalt st;
     initialized := initialized st; memoryStorage := memoryStorage st;
     localStorage := localStorage st; sessionStorage := m;
     drawn := drawn st; clock_reads := clock_reads st |}.
Definition set_drawn (n : nat) (st : State) : State :=
  {| subtle := subtle st; encryptionKey := encryptionKey st; keySalt := keySalt st;
     initialized := initialized st; memoryStorage := memoryStorage st;
     localStorage := localStorage st; sessionStorage := sessionStorage st;
     drawn := n; clock_reads := clock_reads st |}.
Definition set_clock_reads (n : nat) (st : State) : State :=
  {| subtle := subtle st; encryptionKey := encryptionKey st; keySalt := keySalt st;
     initialized := initialized st; memoryStorage := memoryStorage st;
     localStorage := localStorage st; sessionStorage := sessionStorage st;
     drawn := drawn st; clock_reads := n |}.

(** A method of a service: it runs in a state and returns or throws,
    keeping the changes it made before it threw. *)
Definition M (A : Type) : Type := State -> result A * State.

#[global] Instance M_ret : MRet M := fun A a st => (Ok a, st).
#[global] Instance M_bind : MBind M := fun A B f m st =>
  match m st with
  | (Ok a, st') => f a st'
  | (Throw e, st') => (Throw e, st')
  end.

Definition throw {A} (e : error) : M A := fun st => (Throw e, st).
Definition try_catch {A} (body : M A) (handler : error -> M A) : M A := fun st =>
  match body st with
  | (Ok a, st') => (Ok a, st')
  | (Throw e, st') => handler e st'
  end.
Definition read {A} (f : State -> A) : M A := fun st => (Ok (f st), st).
Definition modify (f : State -> State) : M unit := fun st => (Ok tt, f st).
Definition lift_option {A} (e : error) (o : option A) : M A :=
  match o with Some a => mret a | None => throw e end.

(** ** crypto.service.ts *)

(** A [Uint8Array]: a view of [length] bytes at [byteOffset] in an
    ArrayBuffer. [salt.buffer] is the whole buffer, whatever the view. *)
Record Uint8Array := {
  buffer : bytes;
  byteOffset : nat;
  byteLength : nat
}.

(** The elements of the view, as [Array.from] lists them. *)
Definition elements (a : Uint8Array) : bytes :=
  firstn (byteLength a) (skipn (byteOffset a) (buffer a)).

(** [new Uint8Array(n)] once filled, [new Uint8Array(array)]: a view of
    the whole of its own buffer. *)
Definition whole (b : bytes) : Uint8Array :=
  {| buffer := b; byteOffset := 0; byteLength := length b |}.

Record EncryptedPayload := {
  ciphertext : string;
  iv : string;
  salt : option string;
  algorithm : string
}.

Module CryptoService.
Section WithPlatform.
Context (P : Platform).

Definition ALGORITHM := "AES-GCM".
Definition KEY_LENGTH := 256.
Definition IV_LENGTH := 12%nat.
Definition SALT_LENGTH := 16%nat.
Definition PBKDF2_ITERATIONS := 100000.

Definition isAvailable : M bool := read subtle.

Definition ensureAvailable : M unit :=
  s ← read subtle;
  if s : bool then mret tt else throw CryptoUnavailable.

(** The next [length] bytes of the platform's random source. *)
Definition draw (length : nat) : M bytes := fun st =>
  (Ok (map (random_byte P) (seq (drawn st) length)), set_drawn (drawn st + length) st).

(** [crypto.getRandomValues(new Uint8Array(length))]: [crypto] is there
    when the service found [crypto.subtle] on it, or when the runtime has
    one without [subtle]; more than 65536 bytes are refused. *)
Definition getRandomValues (length : nat) : M bytes := fun st =>
  if negb (subtle st || crypto_present P) then (Throw ReferenceError, st)
  else if (65536 <? N.of_nat length)%N then (Throw QuotaExceededError, st)
  else draw length st.

(** The next [length] bytes the random source hands out in a state. *)
Definition fresh_bytes (length : nat) (st : State) : bytes :=
  map (random_byte P) (seq (drawn st) length).

(** [subtle.generateKey]: the key is drawn from the same source. *)
Definition generateKey : M CryptoKey :=
  ensureAvailable;;
  draw (Z.to_nat (KEY_LENGTH / 8)).

Definition generateSalt (length : nat) : M bytes := getRandomValues length.
Definition generateIV : M bytes := getRandomValues IV_LENGTH.

(** PBKDF2 takes [usedSalt.buffer]; [iterations] is an unsigned long
    (a TypeError outside its range) and PBKDF2 refuses 0. *)
Definition deriveKey (password : string) (salt : option Uint8Array) (iterations : Z)
  : M (CryptoKey * Uint8Array) :=
  ensureAvailable;;
  usedSalt ← match salt with
             | Some s => mret s
             | None => s ← generateSalt SALT_LENGTH; mret (whole s)
             end;
  let passwordBuffer := text_encode P password in
  if (iterations <? 0) || (4294967295 <? iterations) then throw TypeError
  else if iterations =? 0 then throw OperationError
  else
    let key := subtle_deriveKey P passwordBuffer (buffer usedSalt) iterations in
    mret (key, usedSalt).

Definition arrayBufferToBase64 (buffer : bytes) : string :=
  Base64.btoa (string_of_list_byte buffer).

Definition base64ToArrayBuffer (base64 : string) : M bytes :=
  binary ← lift_option InvalidCharacterError (Base64.atob base64);
  mret (list_byte_of_string binary).

Definition encrypt (data : json) (key : CryptoKey) (salt : option Uint8Array)
  : M EncryptedPayload :=
  ensureAvailable;;
  iv ← generateIV;
  let plaintext := text_encode P (JSON.stringify data) in
  let ciphertext := subtle_encrypt P key iv plaintext in
  mret {| ciphertext := arrayBufferToBase64 ciphertext;
          iv := arrayBufferToBase64 iv;
          salt := match salt with
                  | Some s => Some (arrayBufferToBase64 (buffer s))
                  | None => None
                  end;
          algorithm := ALGORITHM ++ "-" ++ JSON.number_string KEY_LENGTH |}.

(** The payload as the JS object it is; [JSON.stringify] leaves out an
    undefined [salt]. *)
Definition payload_object (p : EncryptedPayload) : json :=
  JObj ([("ciphertext", JStr (ciphertext p)); ("iv", JStr (iv p))]
        ++ match salt p with Some s => [("salt", JStr s)] | None => [] end
        ++ [("algorithm", JStr (algorithm p))]).

Definition property (o : JS.value) (name : string) : M JS.value :=
  match JS.prop o name with
  | JS.Nullish => throw TypeError
  | JS.Reads v => mret v
  end.

Definition decrypt (payload : JS.value) (key : CryptoKey) : M json :=
  ensureAvailable;;
  c ← property payload "ciphertext";
  ciphertext ← base64ToArrayBuffer (JS.to_string c);
  i ← property payload "iv";
  iv ← base64ToArrayBuffer (JS.to_string i);
  plaintext ← lift_option OperationError (subtle_decrypt P key iv ciphertext);
  let json := text_decode P plaintext in
  lift_option SyntaxError (JSON.parse json).

(** *** The two methods as functions of their inputs *)

(** The payload [encrypt] builds from the bytes [iv]. *)
Definition sealed (data : json) (key : CryptoKey) (salt : option Uint8Array) (nonce : bytes)
  : EncryptedPayload :=
  {| ciphertext :=
       arrayBufferToBase64 (subtle_encrypt P key nonce (text_encode P (JSON.stringify data)));
     iv := arrayBufferToBase64 nonce;
     salt := match salt with
             | Some s => Some (arrayBufferToBase64 (buffer s))
             | None => None
             end;
     algorithm := "AES-GCM-256" |}.

(** What [decrypt] does with a payload whose two fields are the texts
    [c] and [i]. *)
Definition opened (c i : string) (key : CryptoKey) : result json :=
  match Base64.atob c with
  | None => Throw InvalidCharacterError
  | Some cb =>
      match Base64.atob i with
      | None => Throw InvalidCharacterError
      | Some ib =>
          match subtle_decrypt P key (list_byte_of_string ib) (list_byte_of_string cb) with
          | None => Throw OperationError
          | Some plaintext =>
              match JSON.parse (text_decode P plaintext) with
              | None => Throw SyntaxError
              | Some j => Ok j
              end
          end
      end
  end.

(** What [decrypt] returns or throws for any payload, where the Web
    Crypto API is present. *)
Definition decrypted (payload : JS.value) (key : CryptoKey) : result json :=
  match JS.prop payload "ciphertext", JS.prop payload "iv" with
  | JS.Reads c, JS.Reads i => opened (JS.to_string c) (JS.to_string i) key
  | _, _ => Throw TypeError
  end.

End WithPlatform.
End CryptoService.

(** ** secure-storage.service.ts *)

Inductive StorageType := Local | Session | Memory.
Inductive KeyMode := KeySession | KeyPassword | KeyProvided.

Record SecureStorageConfig := {
  keyMode : KeyMode;
  password : option string;
  key : option CryptoKey
}.

Record SecureStorageOptions := {
  ttl : option Z;
  storage : option StorageType;
  version : option Z;
  encrypt : option bool
}.

(** [{keyMode: 'password', password: pw}] *)
Definition password_mode (pw : string) : SecureStorageConfig :=
  {| keyMode := KeyPassword; password := Some pw; key := None |}.

Definition no_options : SecureStorageOptions :=
  {| ttl := None; storage := None; version := None; encrypt := None |}.
(** [{encrypt: false}] *)
Definition unencrypted : SecureStorageOptions :=
  {| ttl := None; storage := None; version := None; encrypt := Some false |}.
Definition storage_only (t : StorageType) : SecureStorageOptions :=
  {| ttl := None; storage := Some t; version := None; encrypt := None |}.
(** [{ttl: 60000, storage: 'session', version: 2}], [{version: 1}] and
    [{version: 3}] *)
Definition one_minute : SecureStorageOptions :=
  {| ttl := Some 60000; storage := Some Session; version := Some 2; encrypt := None |}.
Definition version_1 : SecureStorageOptions :=
  {| ttl := None; storage := None; version := Some 1; encrypt := None |}.
Definition version_3 : SecureStorageOptions :=
  {| ttl := None; storage := None; version := Some 3; encrypt := None |}.

(** What [getStorage] returns: one of the two browser storages or the
    wrapper around [memoryStorage]. *)
Inductive StorageInterface := LocalStorage | SessionStorage | MemoryWrapper.

#[global] Instance StorageInterface_eq_decision : EqDecision StorageInterface.
Proof. solve_decision. Defined.

Fixpoint string_drop (n : nat) (s : string) : string :=
  match n, s with
  | O, _ => s
  | S n', String _ r => string_drop n' r
  | S _, EmptyString => ""
  end.

Definition startsWith (s p : string) : bool :=
  match JSON.strip p s with Some _ => true | None => false end.

Module SecureStorageService.
Section WithPlatform.
Context (P : Platform).

Definition prefix := "fly_secure_".
Definition testKey := "__storage_test__".

Definition Date_now : M Z := fun st =>
  (Ok (clock P (clock_reads st)), set_clock_reads (S (clock_reads st)) st).

Definition getPrefixedKey (key : string) : string := prefix ++ key.

(** The probe writes and removes [testKey]. *)
Definition isStorageAvailable (type : StorageInterface) : M bool := fun st =>
  match type with
  | LocalStorage =>
      match localStorage st with
      | Some m => (Ok true, set_localStorage (Some (delete testKey (<[testKey := testKey]> m))) st)
      | None => (Ok false, st)
      end
  | SessionStorage =>
      match sessionStorage st with
      | Some m => (Ok true, set_sessionStorage (Some (delete testKey (<[testKey := testKey]> m))) st)
      | None => (Ok false, st)
      end
  | MemoryWrapper => (Ok false, st)
  end.

Definition getStorage (type : StorageType) : M StorageInterface :=
  match type with
  | Session =>
      ok ← isStorageAvailable SessionStorage;
      mret (if ok : bool then SessionStorage else MemoryWrapper)
  | Memory => mret MemoryWrapper
  | Local =>
      ok ← isStorageAvailable LocalStorage;
      mret (if ok : bool then LocalStorage else MemoryWrapper)
  end.

Definition contents (h : StorageInterface) (st : State) : gmap string string :=
  match h with
  | LocalStorage => default ∅ (localStorage st)
  | SessionStorage => default ∅ (sessionStorage st)
  | MemoryWrapper => memoryStorage st
  end.

Definition update (h : StorageInterface) (f : gmap string string -> gmap string string)
  : M unit :=
  modify (fun st =>
    match h with
    | LocalStorage => set_localStorage (f <$> localStorage st) st
    | SessionStorage => set_sessionStorage (f <$> sessionStorage st) st
    | MemoryWrapper => set_memoryStorage (f (memoryStorage st)) st
    end).

Definition getItem (h : StorageInterface) (key : string) : M (option string) :=
  read (fun st => contents h st !! key).
Definition setItem (h : StorageInterface) (key value : string) : M unit :=
  update h (<[key := value]>).
Definition removeItem (h : StorageInterface) (key : string) : M unit :=
  update h (delete key).

(** [!s] for a string or null *)
Definition absent (s : option string) : bool :=
  match s with
  | None => true
  | Some s => String.eqb s ""
  end.

(** The salt is returned as the bytes of [new Uint8Array(saltArray)], an
    array that is the whole of its buffer. *)
Definition loadSalt : M (option bytes) :=
  read (fun st =>
    match localStorage st with
    | None => None
    | Some m =>
        let saltStr := m !! (prefix ++ "_salt") in
        if absent saltStr then None
        else
          match JSON.parse (default "" saltStr) with
          | None => None
          | Some saltArray => Uint8Array_from P saltArray
          end
    end).

Definition byte_number (b : byte) : json := JNum (Z.of_N (Byte.to_N b)).

Definition saveSalt (salt : bytes) : M unit :=
  let saltArray := JArr (map byte_number salt) in
  modify (fun st =>
    match localStorage st with
    | None => st
    | Some m => set_localStorage (Some (<[prefix ++ "_salt" := JSON.stringify saltArray]> m)) st
    end).

Definition initialize (config : SecureStorageConfig) : M unit :=
  available ← CryptoService.isAvailable;
  if negb available then modify (set_initialized true)
  else
    match keyMode config with
    | KeySession =>
        k ← CryptoService.generateKey P;
        modify (set_encryptionKey (Some k))
    | KeyPassword =>
        match password config with
        | None => throw PasswordRequired
        | Some pw =>
            if String.eqb pw "" then throw PasswordRequired
            else
              existingSalt ← loadSalt;
              '(key, salt) ← CryptoService.deriveKey P pw (whole <$> existingSalt)
                               CryptoService.PBKDF2_ITERATIONS;
              modify (set_encryptionKey (Some key));;
              modify (set_keySalt (Some (elements salt)));;
              match existingSalt with
              | None => saveSalt (elements salt)
              | Some _ => mret tt
              end
        end
    | KeyProvided =>
        match key config with
        | None => throw KeyRequired
        | Some k => modify (set_encryptionKey (Some k))
        end
    end;;
    modify (set_initialized true).

Definition isInitialized : M bool := read initialized.

Definition isEncryptionAvailable : M bool :=
  read (fun st => subtle st && bool_decide (encryptionKey st ≠ None)).

(** [this.encryptionKey!] handed to the primitive *)
Definition theKey : M CryptoKey :=
  k ← read encryptionKey;
  lift_option TypeError k.

Definition optional (name : string) (v : option Z) : list (string * json) :=
  match v with
  | Some n => [(name, JNum n)]
  | None => []
  end.

(** [ttl ? Date.now() + ttl : undefined] *)
Definition expiry (ttl : option Z) : M (option Z) :=
  match ttl with
  | None => mret None
  | Some t =>
      if t =? 0 then mret None
      else (now ← Date_now; mret (Some (now + t)))
  end.

Definition set (key : string) (value : json) (options : SecureStorageOptions) : M unit :=
  let storage := default Local (storage options) in
  let encrypt := default true (encrypt options) in
  let prefixedKey := getPrefixedKey key in
  available ← isEncryptionAvailable;
  let shouldEncrypt := encrypt && available in
  item ←
    (if shouldEncrypt then
       k ← theKey;
       payload ← CryptoService.encrypt P value k None;
       createdAt ← Date_now;
       expiresAt ← expiry (ttl options);
       mret (JObj ([("encrypted", JBool true);
                    ("payload", CryptoService.payload_object payload);
                    ("createdAt", JNum createdAt)]
                   ++ optional "expiresAt" expiresAt
                   ++ optional "version" (version options)))
     else
       createdAt ← Date_now;
       expiresAt ← expiry (ttl options);
       mret (JObj ([("encrypted", JBool false);
                    ("value", value);
                    ("createdAt", JNum createdAt)]
                   ++ optional "expiresAt" expiresAt
                   ++ optional "version" (version options))));
  let serialized := JSON.stringify item in
  h ← getStorage storage;
  setItem h prefixedKey serialized.

Definition remove (key : string) (options : SecureStorageOptions) : M unit :=
  let storage := default Local (storage options) in
  let prefixedKey := getPrefixedKey key in
  h ← getStorage storage;
  removeItem h prefixedKey.

(** The body of the [try] block of [get], for the text read from the
    storage. *)
Definition retrieve (key : string) (storage : StorageType) (version : option Z)
    (serialized : string) : M JS.value :=
  parsed ← lift_option SyntaxError (JSON.parse serialized);
  let item := Some parsed in
  expiresAt ← CryptoService.property item "expiresAt";
  expired ← (if JS.truthy expiresAt
             then (now ← Date_now; mret (JS.gt now expiresAt))
             else mret false);
  if expired : bool then remove key (storage_only storage);; mret None
  else
    mismatch ← match version with
               | None => mret false
               | Some v =>
                   iv ← CryptoService.property item "version";
                   mret (JS.strict_neq iv v)
               end;
    if mismatch : bool then remove key (storage_only storage);; mret None
    else
      encrypted ← CryptoService.property item "encrypted";
      if JS.truthy encrypted then
        available ← isEncryptionAvailable;
        if negb available then mret None
        else
          payload ← CryptoService.property item "payload";
          k ← theKey;
          v ← CryptoService.decrypt P payload k;
          mret (Some v)
      else
        CryptoService.property item "value".

(** [None] is [undefined]. *)
Definition get (key : string) (options : SecureStorageOptions) : M JS.value :=
  let storage := default Local (storage options) in
  let prefixedKey := getPrefixedKey key in
  h ← getStorage storage;
  serialized ← getItem h prefixedKey;
  if absent serialized then mret None
  else
    try_catch
      (retrieve key storage (version options) (default "" serialized))
      (fun _ => remove key (storage_only storage);; mret None).

Definition has (key : string) (options : SecureStorageOptions) : M bool :=
  v ← get key options;
  mret (bool_decide (v ≠ None)).

(** The names a [for] loop over the storage visits: every key of the
    Map, or of a browser Storage; none when the memory wrapper stands in
    for a browser storage, as it has no [length]. *)
Definition enumerate (storage : StorageType) (h : StorageInterface) : M (list string) :=
  read (fun st =>
    match storage, h with
    | Memory, _ => (map_to_list (memoryStorage st)).*1
    | _, MemoryWrapper => []
    | _, _ => (map_to_list (contents h st)).*1
    end).

Fixpoint forEach {A} (l : list A) (f : A -> M unit) : M unit :=
  match l with
  | [] => mret tt
  | x :: r => f x;; forEach r f
  end.

Definition clear (options : SecureStorageOptions) : M unit :=
  let storage := default Local (storage options) in
  storageInstance ← getStorage storage;
  all ← enumerate storage storageInstance;
  let keysToRemove := List.filter (fun key => startsWith key prefix) all in
  forEach keysToRemove (removeItem storageInstance).

Definition keys (options : SecureStorageOptions) : M (list string) :=
  let storage := default Local (storage options) in
  storageInstance ← getStorage storage;
  all ← enumerate storage storageInstance;
  mret (map (string_drop (String.length prefix))
            (List.filter (fun key => startsWith key prefix) all)).

Fixpoint collect (storageType : StorageType) (currentKeys : list string)
  : M (list (string * json)) :=
  match currentKeys with
  | [] => mret []
  | key :: r =>
      value ← get key (storage_only storageType);
      items ← collect storageType r;
      mret (match value with Some v => (key, v) :: items | None => items end)
  end.

Definition rotateKey (newConfig : SecureStorageConfig) (storageType : StorageType) : M unit :=
  available ← isEncryptionAvailable;
  if negb available then throw CannotRotate
  else
    currentKeys ← keys (storage_only storageType);
    items ← collect storageType currentKeys;
    initialize newConfig;;
    forEach items (fun '(key, value) => set key value (storage_only storageType)).

Definition destroy : M unit :=
  modify (set_encryptionKey None);;
  modify (set_keySalt None);;
  modify (set_initialized false).

(** *** What a test observes of a storage *)

(** The map after the availability probe. *)
Definition probe (m : gmap string string) : gmap string string :=
  delete testKey (<[testKey := testKey]> m).

(** The storage [getStorage] selects in a state. *)
Definition backend (type : StorageType) (st : State) : StorageInterface :=
  match type with
  | Local => match localStorage st with Some _ => LocalStorage | None => MemoryWrapper end
  | Session => match sessionStorage st with Some _ => SessionStorage | None => MemoryWrapper end
  | Memory => MemoryWrapper
  end.

(** The raw text under a caller's key, as [getItem] of the prefixed key
    would return it. *)
Definition stored (type : StorageType) (key : string) (st : State) : option string :=
  contents (backend type st) st !! getPrefixedKey key.

(** The state [getStorage] leaves. *)
Definition probed (type : StorageType) (st : State) : State :=
  match type with
  | Local =>
      match localStorage st with
      | Some m => set_localStorage (Some (probe m)) st
      | None => st
      end
  | Session =>
      match sessionStorage st with
      | Some m => set_sessionStorage (Some (probe m)) st
      | None => st
      end
  | Memory => st
  end.

(** The prefixed names in a map. *)
Definition prefixed_names (m : gmap string string) : list string :=
  List.filter (fun key => startsWith key prefix) (map_to_list m).*1.

(** The map without the entries of the given names. *)
Definition delete_all (l : list string) (m : gmap string string) : gmap string string :=
  fold_left (fun m k => delete k m) l m.

(** What [isEncryptionAvailable] returns in a state. *)
Definition mayEncrypt (st : State) : bool :=
  subtle st && bool_decide (encryptionKey st ≠ None).

(** The state after [setItem], and after [removeItem], on the storage
    [getStorage] selects. *)
Definition written (type : StorageType) (key raw : string) (st : State) : State :=
  (setItem (backend type st) (getPrefixedKey key) raw (probed type st)).2.
Definition removed (type : StorageType) (key : string) (st : State) : State :=
  (removeItem (backend type st) (getPrefixedKey key) (probed type st)).2.

(** The [expiresAt] that [set] computes in a state, and the number of
    clock readings it makes. *)
Definition expiresAt_of (options : SecureStorageOptions) (st : State) : option Z :=
  match ttl options with
  | None => None
  | Some t => if t =? 0 then None else Some (clock P (S (clock_reads st)) + t)
  end.
Definition readings (options : SecureStorageOptions) : nat :=
  match ttl options with
  | None => 1
  | Some t => if t =? 0 then 1 else 2
  end.

(** The item [set] serializes in a state. *)
Definition item_of (value : json) (options : SecureStorageOptions) (st : State) : json :=
  JObj ((if default true (encrypt options) && mayEncrypt st
         then [("encrypted", JBool true);
               ("payload",
                CryptoService.payload_object
                  (CryptoService.sealed P value (default [] (encryptionKey st)) None
                     (CryptoService.fresh_bytes P CryptoService.IV_LENGTH st)))]
         else [("encrypted", JBool false); ("value", value)])
        ++ [("createdAt", JNum (clock P (clock_reads st)))]
        ++ optional "expiresAt" (expiresAt_of options st)
        ++ optional "version" (version options)).

(** The state [set] leaves, but for the storage. *)
Definition consumed (options : SecureStorageOptions) (st : State) : State :=
  set_clock_reads (readings options + clock_reads st)
    (if default true (encrypt options) && mayEncrypt st
     then set_drawn (drawn st + CryptoService.IV_LENGTH) st
     else st).

(** The text under the salt's key in localStorage, and the salt
    [loadSalt] makes of it. *)
Definition salt_text (st : State) : option string :=
  m ← localStorage st; m !! (prefix ++ "_salt").
Definition persisted_salt (st : State) : option bytes :=
  match (loadSalt st).1 with
  | Ok s => s
  | Throw _ => None
  end.

(** The key [initialize] derives from a password and a salt, and the
    state it leaves once the key is derived. *)
Definition derived (pw : string) (s : bytes) : CryptoKey :=
  subtle_deriveKey P (text_encode P pw) s CryptoService.PBKDF2_ITERATIONS.
Definition keyed (pw : string) (s : bytes) (st : State) : State :=
  set_keySalt (Some s) (set_encryptionKey (Some (derived pw s)) st).

(** A property of a parsed item that is not [null]. *)
Definition field (item : json) (name : string) : JS.value :=
  match JS.prop (Some item) name with
  | JS.Reads v => v
  | JS.Nullish => None
  end.

(** The state after one reading of the clock. *)
Definition tick (st : State) : State := set_clock_reads (S (clock_reads st)) st.

(** What [written], [removed] and [probed] leave alone. *)
Definition same_service (st st' : State) : Prop :=
  subtle st' = subtle st /\ encryptionKey st' = encryptionKey st /\
  keySalt st' = keySalt st /\ initialized st' = initialized st /\
  drawn st' = drawn st /\ clock_reads st' = clock_reads st /\
  (forall type, backend type st' = backend type st).

(** From [st] to [st']: the same key material, the same storages in use,
    and under [type] no entry changed but that of [key]. *)
Definition frames (type : StorageType) (key : string) (st st' : State) : Prop :=
  subtle st' = subtle st /\ encryptionKey st' = encryptionKey st /\
  (forall type', backend type' st' = backend type' st) /\
  (forall key', key' ≠ key -> stored type key' st' = stored type key' st).

(** From [st] to [st']: what a read of [key] under [type] may do. The
    service fields but the clock are the same, nothing is drawn from the
    random source, every entry of another key is as it was in every
    storage, and the entry of [key] is as it was or gone. *)
Definition touches (type : StorageType) (key : string) (st st' : State) : Prop :=
  subtle st' = subtle st /\ encryptionKey st' = encryptionKey st /\
  keySalt st' = keySalt st /\ initialized st' = initialized st /\
  drawn st' = drawn st /\
  (forall type', backend type' st' = backend type' st) /\
  (forall type' key', key' ≠ key -> stored type' key' st' = stored type' key' st) /\
  (stored type key st' = stored type key st \/ stored type key st' = None).

(** The storage [type] can be enumerated by [keys]: it is the memory
    map or a browser storage that is there. *)
Definition enumerable (type : StorageType) (st : State) : Prop :=
  match type with
  | Memory => True
  | Local => is_Some (localStorage st)
  | Session => is_Some (sessionStorage st)
  end.

(** An entry without expiry that the key of [st] reads as [v]. *)
Definition reads (st : State) (raw : string) (v : json) : Prop :=
  exists item e,
    JSON.parse raw = Some item /\
    JS.prop (Some item) "expiresAt" = JS.Reads e /\ JS.truthy e = false /\
    if JS.truthy (field item "encrypted")
    then CryptoService.decrypted P (field item "payload") (default [] (encryptionKey st))
         = Ok v
    else field item "value" = Some v.

(** Same service, same storages, another moment: only the number of
    clock readings differs. *)
Definition later (n : nat) (st : State) : State := set_clock_reads n st.

End WithPlatform.
End SecureStorageService.

(** ** An executable platform

    A small platform on which the services run by evaluation. Its cipher
    is not AES-GCM and its key derivation is not PBKDF2: the body of a
    ciphertext is the reversed plaintext, followed by a 16-byte tag that
    weighs every byte of key, IV and plaintext; a derived key is salt and
    password side by side. *)

Module Toy.

Definition byte_of_N (n : N) : byte := default x00 (Byte.of_N (n mod 256)).

Fixpoint weigh (i : N) (l : bytes) : N :=
  match l with
  | [] => 0
  | b :: r => (i * Byte.to_N b + weigh (i + 1) r)%N
  end.

Definition tag (key iv plaintext : bytes) : bytes :=
  let h := weigh 1 (key ++ x00 :: iv ++ x00 :: plaintext)%list in
  map (fun i => byte_of_N (h / N.of_nat (S i))) (seq 0 16).

Definition encrypt (key iv plaintext : bytes) : bytes :=
  (rev plaintext ++ tag key iv plaintext)%list.

Definition decrypt (key iv ciphertext : bytes) : option bytes :=
  let n := (length ciphertext - 16)%nat in
  let plaintext := rev (firstn n ciphertext) in
  if bool_decide (ciphertext = encrypt key iv plaintext) then Some plaintext else None.

Definition deriveKey (password salt : bytes) (iterations : Z) : CryptoKey :=
  (salt ++ password)%list.

Definition zeros (n : Z) : bytes := repeat x00 (Z.to_nat n).

Definition element (j : json) : byte :=
  match JS.to_number (Some j) with
  | Some n => byte_of_N (Z.to_N (n mod 256))
  | None => x00
  end.

Definition typed_array (x : json) : option bytes :=
  match x with
  | JArr l => Some (map element l)
  | JObj l => Some (zeros (default 0 (JS.to_number (JS.member "length" l))))
  | _ =>
      match JS.to_number (Some x) with
      | Some n => if n <? 0 then None else Some (zeros n)
      | None => Some []
      end
  end.

Definition platform : Platform :=
  {| subtle_encrypt := encrypt;
     subtle_decrypt := decrypt;
     subtle_deriveKey := deriveKey;
     text_encode := list_byte_of_string;
     text_decode := string_of_list_byte;
     Uint8Array_from := typed_array;
     random_byte := fun i => byte_of_N (N.of_nat (i * 97 + 13));
     clock := fun i => 1700000000000 + 5 * Z.of_nat i;
     crypto_present := true |}.

(** The same platform with a random source that returns zeros. *)
Definition stuck : Platform :=
  {| subtle_encrypt := encrypt;
     subtle_decrypt := decrypt;
     subtle_deriveKey := deriveKey;
     text_encode := list_byte_of_string;
     text_decode := string_of_list_byte;
     Uint8Array_from := typed_array;
     random_byte := fun _ => x00;
     clock := fun i => 1700000000000 + 5 * Z.of_nat i;
     crypto_present := true |}.

(** A fresh service in a browser: both storages empty, nothing drawn. *)
Definition fresh : State :=
  {| subtle := true; encryptionKey := None; keySalt := None; initialized := false;
     memoryStorage := ∅; localStorage := Some ∅; sessionStorage := Some ∅;
     drawn := 0; clock_reads := 0 |}.

(** The same where the Web Crypto API is missing. *)
Definition degraded : State :=
  {| subtle := false; encryptionKey := None; keySalt := None; initialized := false;
     memoryStorage := ∅; localStorage := Some ∅; sessionStorage := Some ∅;
     drawn := 0; clock_reads := 0 |}.

(** The same where the browser storages cannot be used. *)
Definition storageless : State :=
  {| subtle := true; encryptionKey := None; keySalt := None; initialized := false;
     memoryStorage := ∅; localStorage := None; sessionStorage := None;
     drawn := 0; clock_reads := 0 |}.

(** A fresh service whose localStorage holds one entry, the text [raw]
    under the caller's key [k]. *)
Definition holding (raw : string) : State :=
  {| subtle := true; encryptionKey := None; keySalt := None; initialized := false;
     memoryStorage := ∅; localStorage := Some {[ "fly_secure_k" := raw ]};
     sessionStorage := Some ∅; drawn := 0; clock_reads := 0 |}.

(** A service with a session key that has stored 123 under [k]. *)
Definition stored_123 : State :=
  ((SecureStorageService.initialize platform
      {| keyMode := KeySession; password := None; key := None |};;
    SecureStorageService.set platform "k" (JNum 123) no_options) fresh).2.

Definition session_key : SecureStorageConfig :=
  {| keyMode := KeySession; password := None; key := None |}.

(** A service with a session key and two entries in localStorage, one
    encrypted and one plain. *)
Definition two_entries : State :=
  ((SecureStorageService.initialize platform session_key;;
    SecureStorageService.set platform "a" (JNum 1) no_options;;
    SecureStorageService.set platform "b" (JStr "two") unencrypted)
     fresh).2.

Definition without_password : SecureStorageConfig :=
  {| keyMode := KeyPassword; password := None; key := None |}.

(** [{keyMode: 'provided'}] without a key, and with the key [k]. *)
Definition without_key : SecureStorageConfig :=
  {| keyMode := KeyProvided; password := None; key := None |}.
Definition provided (k : CryptoKey) : SecureStorageConfig :=
  {| keyMode := KeyProvided; password := None; key := Some k |}.

(** A service with a session key and one entry, where the browser
    storages cannot be used. *)
Definition in_memory : State :=
  ((SecureStorageService.initialize platform session_key;;
    SecureStorageService.set platform "a" (JNum 1) (storage_only Local)) storageless).2.

(** A service with a password-derived key and its salt persisted, and
    the same after [destroy]. *)
Definition with_password : State :=
  (SecureStorageService.initialize platform (password_mode "pw") fresh).2.
Definition destroyed : State := (SecureStorageService.destroy with_password).2.
End Toy.

(** ** Flipping one bit of a stored text *)

Module Tamper.

Definition flip_bit (i : nat) (c : ascii) : ascii :=
  let '(Ascii b0 b1 b2 b3 b4 b5 b6 b7) := c in
  match i with
  | 0%nat => Ascii (negb b0) b1 b2 b3 b4 b5 b6 b7
  | 1%nat => Ascii b0 (negb b1) b2 b3 b4 b5 b6 b7
  | 2%nat => Ascii b0 b1 (negb b2) b3 b4 b5 b6 b7
  | 3%nat => Ascii b0 b1 b2 (negb b3) b4 b5 b6 b7
  | 4%nat => Ascii b0 b1 b2 b3 (negb b4) b5 b6 b7
  | 5%nat => Ascii b0 b1 b2 b3 b4 (negb b5) b6 b7
  | 6%nat => Ascii b0 b1 b2 b3 b4 b5 (negb b6) b7
  | _ => Ascii b0 b1 b2 b3 b4 b5 b6 (negb b7)
  end.

(** The text with bit [i] of its character at [pos] flipped. *)
Fixpoint flip_at (pos i : nat) (s : string) : string :=
  match s, pos with
  | EmptyString, _ => EmptyString
  | String c r, O => String (flip_bit i c) r
  | String c r, S pos' => String c (flip_at pos' i r)
  end.

(** [s'] is [s] with one bit of one character flipped. *)
Definition flipped (s s' : string) : Prop := exists pos i, s' = flip_at pos i s.

(** The texts [c'] and [i'] are the [ciphertext] and [iv] texts [c] and
    [i] after a single-bit modification of one of them. *)
Definition tampered (c i c' i' : string) : Prop :=
  (flipped c c' /\ i' = i) \/ (c' = c /\ flipped i i').

End Tamper.

(** ** An executable platform with an authenticated cipher

    The cipher of the platform above has a 16-byte tag that some changes
    of a long message leave valid. The cipher of this platform is as
    wasteful as it takes to reject every change: a ciphertext is key, IV
    and plaintext spelled out bit by bit, each bit as the letter [A] or [B]
    of the base64 text of the ciphertext, with [DD] between the three; a
    ciphertext is accepted when it is the encryption of what it spells
    after key and IV. *)

Module Sturdy.

Definition bit_char (b : bool) : ascii := if b then "B"%char else "A"%char.
Definition char_bit (c : ascii) : bool := Ascii.eqb c "B".

Definition byte_chars (b : byte) : list ascii :=
  let '(b0, (b1, (b2, (b3, (b4, (b5, (b6, b7))))))) := Byte.to_bits b in
  map bit_char [b0; b1; b2; b3; b4; b5; b6; b7].

Definition spell (l : bytes) : list ascii := flat_map byte_chars l.

Fixpoint unspell (l : list ascii) : bytes :=
  match l with
  | c0 :: c1 :: c2 :: c3 :: c4 :: c5 :: c6 :: c7 :: r =>
      Byte.of_bits (char_bit c0, (char_bit c1, (char_bit c2, (char_bit c3,
                   (char_bit c4, (char_bit c5, (char_bit c6, char_bit c7)))))))
      :: unspell r
  | _ => []
  end.

(** The base64 text of the ciphertext. *)
Definition text (key nonce plaintext : bytes) : list ascii :=
  (spell key ++ ["D"; "D"]%char ++ spell nonce ++ ["D"; "D"]%char ++ spell plaintext)%list.

Definition encrypt (key nonce plaintext : bytes) : bytes :=
  list_byte_of_string
    (default "" (Base64.atob (string_of_list_ascii (text key nonce plaintext)))).

Definition decrypt (key nonce ciphertext : bytes) : option bytes :=
  let t := list_ascii_of_string (Base64.btoa (string_of_list_byte ciphertext)) in
  let plaintext := unspell (skipn (8 * length key + 8 * length nonce + 4) t) in
  if bool_decide (ciphertext = encrypt key nonce plaintext) then Some plaintext else None.

Definition platform : Platform :=
  {| subtle_encrypt := encrypt;
     subtle_decrypt := decrypt;
     subtle_deriveKey := Toy.deriveKey;
     text_encode := list_byte_of_string;
     text_decode := string_of_list_byte;
     Uint8Array_from := Toy.typed_array;
     random_byte := fun i => Toy.byte_of_N (N.of_nat (i * 97 + 13));
     clock := fun i => 1700000000000 + 5 * Z.of_nat i;
     crypto_present := true |}.

(** A service with the key [[x01]] that has stored 5 under [k]. *)
Definition stored_5 : State :=
  ((SecureStorageService.initialize platform (Toy.provided [x01]);;
    SecureStorageService.set platform "k" (JNum 5) no_options) Toy.fresh).2.

(** The payload of that entry; the same with the lowest bit of the first
    character of its ciphertext flipped, [B] to [C], the item around it,
    and the service with that item in the place of the entry. *)
Definition payload_5 : EncryptedPayload :=
  CryptoService.sealed platform (JNum 5) [x01] None
    (CryptoService.fresh_bytes platform 12 Toy.fresh).
Definition tampered_payload : EncryptedPayload :=
  {| ciphertext := Tamper.flip_at 0 0 (ciphertext payload_5); iv := iv payload_5;
     salt := None; algorithm := "AES-GCM-256" |}.
Definition tampered_item : json :=
  JObj [("encrypted", JBool true);
        ("payload", CryptoService.payload_object tampered_payload);
        ("createdAt", JNum 1700000000000)].
Definition tampered : State :=
  SecureStorageService.written Local "k" (JSON.stringify tampered_item) stored_5.

End Sturdy.

(** * Strings *)

Module Str.

#[local] Arguments String.append !_ _ / : simpl nomatch.

Lemma app_cons c (s t : string) : String c s ++ t = String c (s ++ t).
Proof. reflexivity. Qed.

Lemma app_nil_r (s : string) : s ++ "" = s.
Proof. induction s as [|c s IH]; simpl; [done | by rewrite IH]. Qed.

Lemma app_assoc (s t u : string) : (s ++ t) ++ u = s ++ (t ++ u).
Proof. induction s as [|c s IH]; simpl; [done | by rewrite IH]. Qed.

Lemma length_app (s t : string) :
  String.length (s ++ t) = (String.length s + String.length t)%nat.
Proof. induction s as [|c s IH]; simpl; [done | by rewrite IH]. Qed.

Lemma strip_app (p s : string) : JSON.strip p (p ++ s) = Some s.
Proof.
  induction p as [|c p IH]; simpl; [done|].
  by rewrite Ascii.eqb_refl.
Qed.

Lemma strip_inv (p s r : string) : JSON.strip p s = Some r -> s = p ++ r.
Proof.
  revert s; induction p as [|c p IH]; intros s; simpl.
  - by intros [= ->].
  - destruct s as [|d s]; [done|].
    destruct (Ascii.eqb c d) eqn:E; [|done].
    apply Ascii.eqb_eq in E as ->. intros H. by rewrite (IH _ H).
Qed.

Lemma startsWith_app (p s : string) : startsWith (p ++ s) p = true.
Proof. unfold startsWith. by rewrite strip_app. Qed.

Lemma string_drop_app (p s : string) : string_drop (String.length p) (p ++ s) = s.
Proof. induction p as [|c p IH]; simpl; [by destruct s | done]. Qed.

End Str.

(** * JSON.parse inverts JSON.stringify *)

Module JSONFacts.
Import JSON.

#[local] Arguments String.append !_ _ / : simpl nomatch.

(** Induction on a value with the hypothesis for every element and
    every member value. *)
Lemma json_nested_ind (Q : json -> Prop) :
  Q JNull -> (forall b, Q (JBool b)) -> (forall n, Q (JNum n)) -> (forall s, Q (JStr s)) ->
  (forall l, Forall Q l -> Q (JArr l)) ->
  (forall l, Forall (fun kv => Q kv.2) l -> Q (JObj l)) ->
  forall j, Q j.
Proof.
  intros Hnull Hbool Hnum Hstr Harr Hobj.
  fix IH 1. intros [ | b | n | s | l | l ].
  - exact Hnull.
  - apply Hbool.
  - apply Hnum.
  - apply Hstr.
  - apply Harr. induction l as [|v l IHl]; constructor; [apply IH | exact IHl].
  - apply Hobj. induction l as [|[k v] l IHl]; constructor; [apply IH | exact IHl].
Qed.

Lemma string_body_escape_char c t :
  string_body (escape_char c ++ t) = cons_char c (string_body t).
Proof.
  destruct c as [b0 b1 b2 b3 b4 b5 b6 b7].
  destruct b0, b1, b2, b3, b4, b5, b6, b7; reflexivity.
Qed.

Lemma string_body_escape s r : string_body (escape s ++ String dquote r) = Some (s, r).
Proof.
  induction s as [|c s IH]; [reflexivity|].
  cbn [escape]. rewrite Str.app_assoc, string_body_escape_char, IH. reflexivity.
Qed.

Lemma digits_no_digit r : no_digit r -> digits r = (Nil, r).
Proof. destruct r as [|c r]; simpl; [done|]. by intros ->. Qed.

Lemma digits_uint_string d r : no_digit r -> digits (uint_string d ++ r) = (d, r).
Proof.
  intros Hr. induction d; simpl; rewrite ?IHd; try reflexivity.
  by apply digits_no_digit.
Qed.

Lemma uint_string_head d :
  d <> Nil -> exists c t, uint_string d = String c t /\ numeric c.
Proof.
  unfold numeric. destruct d; [done|..]; intros _; eexists _, _; (split; [reflexivity|]);
    simpl; tauto.
Qed.

Lemma number_string_head n : exists c t, number_string n = String c t /\ numeric c.
Proof.
  destruct n as [|p|p]; simpl.
  - eexists _, _; split; [reflexivity|]. unfold numeric; simpl; tauto.
  - apply uint_string_head, DecimalPos.Unsigned.to_uint_nonnil.
  - eexists _, _; split; [reflexivity|]. unfold numeric; simpl; tauto.
Qed.

Lemma unorm_to_uint p : Decimal.unorm (Pos.to_uint p) = Pos.to_uint p.
Proof.
  rewrite <- DecimalPos.Unsigned.to_of, DecimalPos.Unsigned.of_to. reflexivity.
Qed.

Lemma number_positive p r (neg : bool) :
  no_digit r ->
  (let '(d, rest) := digits (uint_string (Pos.to_uint p) ++ r) in
   if Decimal.uint_eq_dec (Decimal.unorm d) d
   then Some (if neg then Z.opp (Z.of_uint d) else Z.of_uint d, rest)
   else None) = Some (if neg then Zneg p else Zpos p, r).
Proof.
  intros Hr. rewrite digits_uint_string by done.
  rewrite unorm_to_uint.
  destruct (Decimal.uint_eq_dec _ _) as [_|Hne]; [|done].
  unfold Z.of_uint. rewrite DecimalPos.Unsigned.of_to. by destruct neg.
Qed.

Lemma number_number_string n r :
  no_digit r -> number (number_string n ++ r) = Some (n, r).
Proof.
  intros Hr. destruct n as [|p|p].
  - unfold number. simpl. by rewrite digits_no_digit.
  - unfold number.
    destruct (uint_string_head (Pos.to_uint p)) as (c & t & E & Hc);
      [apply DecimalPos.Unsigned.to_uint_nonnil|].
    assert (strip "-" (number_string (Z.pos p) ++ r) = None) as ->.
    { simpl. rewrite E. unfold numeric in Hc. simpl in Hc.
      destruct Hc as [<-|Hc].
      - exfalso. clear -E. destruct (Pos.to_uint p); discriminate.
      - repeat (destruct Hc as [<-|Hc]; [reflexivity|]). done. }
    apply (number_positive p r false Hr).
  - unfold number. simpl. apply (number_positive p r true Hr).
Qed.

Lemma value_numeric fuel c t :
  numeric c ->
  value (S fuel) (String c t) =
  match number (String c t) with Some (n, r) => Some (JNum n, r) | None => None end.
Proof.
  unfold numeric; simpl. intros H.
  repeat (destruct H as [<-|H]; [reflexivity|]). done.
Qed.

Lemma value_JNum fuel n r :
  no_digit r -> value (S fuel) (number_string n ++ r) = Some (JNum n, r).
Proof.
  intros Hr. destruct (number_string_head n) as (c & t & E & Hc).
  pose proof (number_number_string n r Hr) as Hn.
  rewrite E, Str.app_cons in Hn |- *.
  by rewrite value_numeric, Hn.
Qed.

Lemma stringify_JArr l : stringify (JArr l) = String "[" (elements_string l ++ "]").
Proof. reflexivity. Qed.

Lemma stringify_JObj l : stringify (JObj l) = String "{" (members_string l ++ "}").
Proof. reflexivity. Qed.

Lemma stringify_opens j : opens_value (stringify j).
Proof.
  destruct j as [ | [] | n | s | l | l ]; try (by split).
  destruct (number_string_head n) as (c & t & E & Hc). simpl. rewrite E.
  unfold numeric in Hc. simpl in Hc.
  repeat (destruct Hc as [<-|Hc]; [by split|]). done.
Qed.

Lemma opens_value_app s r : opens_value s -> opens_value (s ++ r).
Proof. by destruct s. Qed.

Lemma skip_ws_opens s : opens_value s -> skip_ws s = s.
Proof. destruct s as [|c s]; [done|]. simpl. by intros [-> _]. Qed.

Lemma strip_bracket_opens s : opens_value s -> strip "]" s = None.
Proof. destruct s as [|c s]; [done|]. simpl. by intros [_ ->]. Qed.

Lemma skip_ws_cons c t : is_ws c = false -> skip_ws (String c t) = String c t.
Proof. simpl. by intros ->. Qed.

Lemma strip_char c t : strip (String c "") (String c t) = Some t.
Proof. simpl. by rewrite Ascii.eqb_refl. Qed.

Lemma strip_other a c t : Ascii.eqb a c = false -> strip (String a "") (String c t) = None.
Proof. simpl. by intros ->. Qed.

Lemma elements_read_back l :
  Forall reads_back l -> l <> [] ->
  forall fuel r, (String.length (elements_string l) + 1 <= fuel)%nat ->
    elements fuel (elements_string l ++ String "]" r) = Some (l, r).
Proof.
  induction 1 as [|v l Hv Hl IH]; [done|]. intros _ fuel r Hfuel.
  destruct fuel as [|fuel]; [lia|].
  destruct l as [|v' l].
  - cbn [elements_string] in *. cbn [elements].
    rewrite Hv by (done || lia).
    rewrite skip_ws_cons, strip_other, strip_char by reflexivity. reflexivity.
  - change (elements_string (v :: v' :: l))
      with (stringify v ++ String "," (elements_string (v' :: l))) in *.
    rewrite Str.length_app in Hfuel. cbn [String.length] in Hfuel.
    rewrite Str.app_assoc, Str.app_cons. cbn [elements].
    rewrite Hv by (done || lia).
    rewrite skip_ws_cons, strip_char by reflexivity.
    rewrite IH by (done || lia). reflexivity.
Qed.

Lemma quote_app k r : quote k ++ r = String dquote (escape k ++ String dquote r).
Proof. unfold quote. by rewrite Str.app_cons, Str.app_assoc. Qed.

Lemma length_quote k : String.length (quote k) = S (S (String.length (escape k))).
Proof. unfold quote. cbn [String.length]. rewrite Str.length_app. simpl. lia. Qed.

Lemma members_read_back l :
  Forall (fun kv => reads_back kv.2) l -> l <> [] ->
  forall fuel r, (String.length (members_string l) + 1 <= fuel)%nat ->
    members fuel (members_string l ++ String "}" r) = Some (l, r).
Proof.
  induction 1 as [|[k v] l Hv Hl IH]; [done|]. intros _ fuel r Hfuel.
  destruct fuel as [|fuel]; [lia|]. simpl in Hv.
  destruct l as [|[k' v'] l].
  - cbn [members_string] in *.
    rewrite Str.length_app, length_quote in Hfuel. cbn [String.length] in Hfuel.
    rewrite Str.app_assoc, Str.app_cons, quote_app. cbn [members].
    rewrite skip_ws_cons, strip_char by reflexivity.
    rewrite string_body_escape.
    rewrite skip_ws_cons, strip_char by reflexivity.
    rewrite Hv by (done || lia).
    rewrite skip_ws_cons, strip_other, strip_char by reflexivity. reflexivity.
  - change (members_string ((k, v) :: (k', v') :: l))
      with (quote k ++ String ":" (stringify v)
              ++ String "," (members_string ((k', v') :: l))) in *.
    rewrite !Str.length_app, length_quote in Hfuel. cbn [String.length] in Hfuel.
    rewrite ?Str.length_app in Hfuel. cbn [String.length] in Hfuel.
    rewrite !Str.app_assoc, !Str.app_cons, quote_app.
    cbn [members].
    rewrite skip_ws_cons, strip_char by reflexivity.
    rewrite string_body_escape.
    rewrite skip_ws_cons, strip_char by reflexivity.
    rewrite Hv by (done || lia).
    rewrite skip_ws_cons, strip_char by reflexivity.
    rewrite IH by (done || lia). reflexivity.
Qed.

Lemma opens_value_length s : opens_value s -> (1 <= String.length s)%nat.
Proof. destruct s; [done|]. simpl. lia. Qed.

Lemma value_stringify j : reads_back j.
Proof.
  induction j as [ | b | n | s | l IH | l IH ] using json_nested_ind;
    intros fuel r Hfuel Hr;
    (destruct fuel as [|fuel];
     [match type of Hfuel with
      | (String.length (stringify ?x) <= _)%nat =>
          pose proof (opens_value_length _ (stringify_opens x)); lia
      end|]).
  - reflexivity.
  - by destruct b.
  - by apply value_JNum.
  - change (stringify (JStr s)) with (quote s). rewrite quote_app.
    cbn [value]. rewrite skip_ws_cons by reflexivity.
    change (N_of_ascii dquote =? 34)%N with true. cbv iota.
    by rewrite string_body_escape.
  - rewrite stringify_JArr in *. cbn [String.length] in Hfuel.
    rewrite Str.length_app in Hfuel. cbn [String.length] in Hfuel.
    rewrite Str.app_cons, Str.app_assoc. cbn [value].
    rewrite skip_ws_cons by reflexivity.
    change (N_of_ascii "[" =? 34)%N with false.
    change (N_of_ascii "[" =? 91)%N with true. cbv iota.
    destruct l as [|v l]; [reflexivity|].
    assert (opens_value (elements_string (v :: l) ++ "]" ++ r)) as Ho.
    { apply opens_value_app. destruct l; [apply stringify_opens|].
      apply opens_value_app, stringify_opens. }
    rewrite skip_ws_opens, strip_bracket_opens by done.
    change ("]" ++ r) with (String "]" r).
    by rewrite elements_read_back by (done || lia).
  - rewrite stringify_JObj in *. cbn [String.length] in Hfuel.
    rewrite Str.length_app in Hfuel. cbn [String.length] in Hfuel.
    rewrite Str.app_cons, Str.app_assoc. cbn [value].
    rewrite skip_ws_cons by reflexivity.
    change (N_of_ascii "{" =? 34)%N with false.
    change (N_of_ascii "{" =? 91)%N with false.
    change (N_of_ascii "{" =? 123)%N with true. cbv iota.
    destruct l as [|[k v] l]; [reflexivity|].
    assert (exists t, members_string ((k, v) :: l) ++ "}" ++ r = String dquote t) as [t Et].
    { destruct l as [|[k' v'] l]; cbn [members_string];
        rewrite !Str.app_assoc, quote_app; eauto. }
    rewrite Et, skip_ws_cons, strip_other by reflexivity. rewrite <- Et.
    change ("}" ++ r) with (String "}" r).
    by rewrite members_read_back by (done || lia).
Qed.

(** [JSON.parse(JSON.stringify(j))] is [j]. *)
Lemma parse_stringify j : parse (stringify j) = Some j.
Proof.
  unfold parse.
  pose proof (value_stringify j (S (String.length (stringify j))) "") as H.
  rewrite Str.app_nil_r in H. rewrite H by (simpl; auto with lia). reflexivity.
Qed.

Lemma stringify_inj j1 j2 : stringify j1 = stringify j2 -> j1 = j2.
Proof.
  intros E. pose proof (parse_stringify j1) as H1.
  rewrite E, parse_stringify in H1. by injection H1.
Qed.

End JSONFacts.

(** * atob inverts btoa *)

Module Base64Facts.
Import Base64.

Lemma list_ind3 {A} (Q : list A -> Prop) :
  Q [] -> (forall a, Q [a]) -> (forall a b, Q [a; b]) ->
  (forall a b c l, Q l -> Q (a :: b :: c :: l)) ->
  forall l, Q l.
Proof.
  intros H0 H1 H2 H3. fix IH 1. intros [|a [|b [|c l]]].
  - exact H0.
  - apply H1.
  - apply H2.
  - apply H3, IH.
Qed.

Lemma below_64 (n : N) : (n < 64)%N -> In n (map N.of_nat (seq 0 64)).
Proof.
  intros H. rewrite <- (N2Nat.id n). apply in_map, in_seq. lia.
Qed.

Lemma b64_value_char n : (n < 64)%N -> b64_value (b64_char n) = Some n.
Proof.
  intros H%below_64. simpl in H.
  repeat (destruct H as [<-|H]; [reflexivity|]). done.
Qed.

Lemma b64_char_plain n :
  (n < 64)%N -> is_ascii_whitespace (b64_char n) = false /\ is_pad (b64_char n) = false.
Proof.
  intros H%below_64. simpl in H.
  repeat (destruct H as [<-|H]; [by split|]). done.
Qed.

Lemma sextets_bounded l : Forall octet l -> Forall sextet (sextets l).
Proof.
  unfold octet, sextet.
  induction l as [|a|a b|a b c l IH] using list_ind3; intros H.
  - constructor.
  - inversion_clear H. repeat constructor.
    + apply N.Div0.div_lt_upper_bound; lia.
    + pose proof (N.mod_upper_bound a 4); lia.
  - inversion_clear H as [|? ? Ha H']. inversion_clear H' as [|? ? Hb _].
    pose proof (N.mod_upper_bound a 4). pose proof (N.mod_upper_bound b 16).
    assert (b / 16 < 16)%N by (apply N.Div0.div_lt_upper_bound; lia).
    repeat constructor; try lia. apply N.Div0.div_lt_upper_bound; lia.
  - inversion_clear H as [|? ? Ha H']. inversion_clear H' as [|? ? Hb H''].
    inversion_clear H'' as [|? ? Hc Hl].
    pose proof (N.mod_upper_bound a 4). pose proof (N.mod_upper_bound b 16).
    pose proof (N.mod_upper_bound c 64).
    assert (b / 16 < 16)%N by (apply N.Div0.div_lt_upper_bound; lia).
    assert (c / 64 < 4)%N by (apply N.Div0.div_lt_upper_bound; lia).
    cbn [sextets]. repeat (constructor; [try lia|]); [|by apply IH].
    apply N.Div0.div_lt_upper_bound; lia.
Qed.

Lemma pack_div (x y m : N) : (y < m)%N -> ((x * m + y) / m = x)%N.
Proof. intros H. rewrite N.div_add_l by lia. rewrite N.div_small by done. lia. Qed.

Lemma pack_mod (x y m : N) : (y < m)%N -> ((x * m + y) mod m = y)%N.
Proof. intros H. rewrite N.add_comm, N.Div0.mod_add. by apply N.mod_small. Qed.

Lemma unpack (a m : N) : (a / m * m + a mod m = a)%N.
Proof. rewrite (N.div_mod' a m) at 3. lia. Qed.

Lemma regroup (a b c : N) :
  octet a -> octet b -> octet c ->
  (a / 4 * 4 + ((a mod 4) * 16 + b / 16) / 16 = a /\
   (((a mod 4) * 16 + b / 16) mod 16) * 16 + ((b mod 16) * 4 + c / 64) / 4 = b /\
   (((b mod 16) * 4 + c / 64) mod 4) * 64 + c mod 64 = c)%N.
Proof.
  unfold octet. intros Ha Hb Hc.
  assert (b / 16 < 16)%N by (apply N.Div0.div_lt_upper_bound; lia).
  assert (c / 64 < 4)%N by (apply N.Div0.div_lt_upper_bound; lia).
  rewrite !pack_div, !pack_mod by done.
  pose proof (unpack a 4). pose proof (unpack b 16). pose proof (unpack c 64).
  lia.
Qed.

Lemma octets_sextets l : Forall octet l -> octets (sextets l) = l.
Proof.
  induction l as [|a|a b|a b c l IH] using list_ind3; intros H.
  - reflexivity.
  - cbn [sextets octets]. f_equal.
    rewrite N.div_mul by done. apply unpack.
  - inversion_clear H as [|? ? Ha H']. inversion_clear H' as [|? ? Hb _].
    destruct (regroup a b 0 Ha Hb) as (E1 & E2 & _); [unfold octet; lia|].
    cbn [sextets octets]. change (0 / 64)%N with 0%N in E2.
    rewrite N.add_0_r in E2. by rewrite E1, E2.
  - inversion_clear H as [|? ? Ha H']. inversion_clear H' as [|? ? Hb H''].
    inversion_clear H'' as [|? ? Hc Hl].
    destruct (regroup a b c Ha Hb Hc) as (E1 & E2 & E3).
    cbn [sextets octets]. by rewrite E1, E2, E3, IH.
Qed.

Lemma values_chars vs : Forall sextet vs -> values (map b64_char vs) = Some vs.
Proof.
  induction 1 as [|v vs Hv _ IH]; [reflexivity|].
  cbn [map values]. by rewrite b64_value_char, IH.
Qed.

Lemma padding_pads n : pads (padding n).
Proof.
  unfold pads, padding. destruct (n mod 3)%nat as [|[|[|]]]; auto.
Qed.

Lemma no_whitespace cs p :
  Forall (fun c => is_ascii_whitespace c = false) cs -> pads p ->
  List.filter (fun c => negb (is_ascii_whitespace c)) (cs ++ p)%list = (cs ++ p)%list.
Proof.
  intros Hcs Hp. induction Hcs as [|c cs Hc _ IH].
  - by destruct Hp as [->|[->| ->]].
  - cbn [app List.filter]. by rewrite Hc, IH.
Qed.

Lemma remove_padding_pads cs p :
  Forall (fun c => is_pad c = false) cs -> pads p ->
  (length (cs ++ p)%list mod 4 = 0)%nat ->
  remove_padding (cs ++ p)%list = cs.
Proof.
  intros Hcs Hp Hlen. unfold remove_padding.
  rewrite Hlen. cbn [Nat.eqb].
  assert (forall q r, rev cs = q :: r -> is_pad q = false) as Hlast.
  { intros q r E. eapply (proj1 (List.Forall_forall _ _) Hcs).
    apply in_rev. rewrite E. by left. }
  destruct Hp as [->|[->| ->]].
  - rewrite app_nil_r. destruct (rev cs) as [|q [|q' r]] eqn:E; [done..|].
    by rewrite (Hlast _ _ eq_refl).
  - rewrite rev_app_distr. cbn [rev app].
    destruct (rev cs) as [|q r] eqn:E.
    + apply (f_equal (@rev _)) in E. rewrite rev_involutive in E. by subst.
    + change (is_pad "=") with true. cbv iota. rewrite (Hlast _ _ eq_refl).
      change (rev r ++ [q])%list with (rev (q :: r)).
      by rewrite <- E, rev_involutive.
  - rewrite rev_app_distr. cbn [rev app].
    change (is_pad "=") with true. cbv iota. by rewrite rev_involutive.
Qed.

Lemma padding_step n : padding (S (S (S n))) = padding n.
Proof.
  unfold padding. replace (S (S (S n)) mod 3)%nat with (n mod 3)%nat; [done|].
  replace (S (S (S n))) with (n + 1 * 3)%nat by lia.
  symmetry. apply Nat.Div0.mod_add.
Qed.

Lemma sextets_shape (l : list N) :
  ((length (sextets l) + length (padding (length l))) mod 4 = 0 /\
   length (sextets l) mod 4 <> 1)%nat.
Proof.
  induction l as [|a|a b|a b c l IH] using list_ind3; try (split; [reflexivity|by compute]).
  cbn [sextets length]. rewrite padding_step. destruct IH as [IH1 IH2].
  replace (S (S (S (S (length (sextets l))))) + length (padding (length l)))%nat
    with (length (sextets l) + length (padding (length l)) + 1 * 4)%nat by lia.
  replace (S (S (S (S (length (sextets l))))))
    with (length (sextets l) + 1 * 4)%nat by lia.
  by rewrite !Nat.Div0.mod_add.
Qed.

Lemma chars_plain vs :
  Forall sextet vs ->
  Forall (fun c => is_ascii_whitespace c = false) (map b64_char vs) /\
  Forall (fun c => is_pad c = false) (map b64_char vs).
Proof.
  induction 1 as [|v vs Hv _ [IH1 IH2]]; [by split|].
  destruct (b64_char_plain v Hv). split; by constructor.
Qed.

Lemma bytes_of_chars (l : list ascii) : Forall octet (map N_of_ascii l).
Proof.
  induction l as [|c l IH]; constructor; [apply N_ascii_bounded | done].
Qed.

Lemma chars_of_bytes (l : list ascii) : map ascii_of_N (map N_of_ascii l) = l.
Proof.
  induction l as [|c l IH]; [done|]. cbn [map]. by rewrite ascii_N_embedding, IH.
Qed.

(** [atob(btoa(s))] is [s], for every binary string. *)
Lemma atob_btoa (s : string) : atob (btoa s) = Some s.
Proof.
  unfold atob, btoa. rewrite list_ascii_of_string_of_list_ascii.
  set (bs := map N_of_ascii (list_ascii_of_string s)).
  pose proof (sextets_bounded bs (bytes_of_chars _)) as Hsx.
  destruct (chars_plain _ Hsx) as [Hws Hpad].
  destruct (sextets_shape bs) as [Hlen Hne].
  rewrite no_whitespace by (done || apply padding_pads).
  rewrite remove_padding_pads; [|done|apply padding_pads|].
  2:{ by rewrite length_app, length_map. }
  rewrite length_map.
  destruct (Nat.eqb_spec (length (sextets bs) mod 4) 1) as [E|_]; [done|].
  rewrite values_chars by done.
  rewrite octets_sextets by apply bytes_of_chars.
  unfold bs. by rewrite chars_of_bytes, string_of_list_ascii_of_string.
Qed.

Lemma btoa_inj (s t : string) : btoa s = btoa t -> s = t.
Proof.
  intros E. pose proof (atob_btoa s) as H. rewrite E, atob_btoa in H. by injection H.
Qed.

End Base64Facts.

#[global] Arguments JSON.stringify : simpl never.
#[global] Arguments JSON.parse : simpl never.
#[global] Arguments Base64.btoa : simpl never.
#[global] Arguments Base64.atob : simpl never.

(** * The storage under the service *)

Module StorageFacts.
Import SecureStorageService.

Lemma prefixed_not_testKey key : getPrefixedKey key ≠ testKey.
Proof. discriminate. Qed.

Lemma prefixed_inj k1 k2 : getPrefixedKey k1 = getPrefixedKey k2 -> k1 = k2.
Proof. apply (inj (String.app prefix)). Qed.

Lemma lookup_probe (m : gmap string string) (k : string) :
  k ≠ testKey -> probe m !! k = m !! k.
Proof.
  intros Hk. unfold probe. rewrite lookup_delete_ne, lookup_insert_ne; done.
Qed.

Lemma getStorage_spec type st : getStorage type st = (Ok (backend type st), probed type st).
Proof.
  destruct type; unfold getStorage, backend, probed, mbind, M_bind, isStorageAvailable, mret, M_ret;
    try reflexivity.
  - by destruct (localStorage st).
  - by destruct (sessionStorage st).
Qed.

Lemma backend_probed type type' st : backend type (probed type' st) = backend type st.
Proof.
  destruct type, type'; unfold backend, probed;
    destruct (localStorage st) eqn:E1, (sessionStorage st) eqn:E2;
    simpl; rewrite ?E1, ?E2; reflexivity.
Qed.

Lemma contents_probed h type st (k : string) :
  k ≠ testKey -> contents h (probed type st) !! k = contents h st !! k.
Proof.
  intros Hk. destruct type; unfold probed; try reflexivity.
  - destruct (localStorage st) as [m|] eqn:E; [|done].
    destruct h; simpl; rewrite ?E; simpl; [by apply lookup_probe | done..].
  - destruct (sessionStorage st) as [m|] eqn:E; [|done].
    destruct h; simpl; rewrite ?E; simpl; [done | by apply lookup_probe | done].
Qed.

(** Case analysis on the storage type and on which browser storages the
    state has. *)
Ltac storage_cases type st :=
  destruct st as [? ? ? ? ? [?|] [?|] ? ?]; destruct type; cbn.

Lemma stored_written type key raw st : stored type key (written type key raw st) = Some raw.
Proof.
  unfold stored, written. storage_cases type st; by rewrite lookup_insert_eq.
Qed.

Lemma stored_removed type key st : stored type key (removed type key st) = None.
Proof.
  unfold stored, removed. storage_cases type st; by rewrite lookup_delete_eq.
Qed.

Lemma stored_probed type key type' st : stored type key (probed type' st) = stored type key st.
Proof.
  unfold stored. rewrite backend_probed.
  apply contents_probed, prefixed_not_testKey.
Qed.

Lemma same_service_written type key raw st : same_service st (written type key raw st).
Proof. unfold same_service, written. storage_cases type st; repeat split; by intros []. Qed.

Lemma same_service_removed type key st : same_service st (removed type key st).
Proof. unfold same_service, removed. storage_cases type st; repeat split; by intros []. Qed.

Lemma same_service_probed type st : same_service st (probed type st).
Proof. unfold same_service. storage_cases type st; repeat split; by intros []. Qed.

Lemma mayEncrypt_same st st' : same_service st st' -> mayEncrypt st' = mayEncrypt st.
Proof. intros (Hs & Hk & _). unfold mayEncrypt. by rewrite Hs, Hk. Qed.

Lemma frames_refl type key st : frames type key st st.
Proof. by repeat split. Qed.

Lemma frames_trans type key st1 st2 st3 :
  frames type key st1 st2 -> frames type key st2 st3 -> frames type key st1 st3.
Proof.
  intros (Hs & Hk & Hb & Hst) (Hs' & Hk' & Hb' & Hst'). repeat split.
  - by rewrite Hs'.
  - by rewrite Hk'.
  - intros t. by rewrite Hb'.
  - intros k Hne. by rewrite Hst', Hst.
Qed.

Lemma frames_probed type key type' st : frames type key st (probed type' st).
Proof.
  destruct (same_service_probed type' st) as (? & ? & _ & _ & _ & _ & ?).
  repeat split; try done. intros k _. apply stored_probed.
Qed.

Lemma frames_tick type key st : frames type key st (tick st).
Proof. by repeat split. Qed.

Lemma frames_later type key n st : frames type key st (later n st).
Proof. by repeat split. Qed.

Lemma stored_written_ne type key key' raw st :
  key' ≠ key -> stored type key' (written type key raw st) = stored type key' st.
Proof.
  intros Hne.
  assert (getPrefixedKey key ≠ getPrefixedKey key') as Hp
    by (intros E; by apply prefixed_inj in E).
  pose proof (prefixed_not_testKey key') as Ht.
  unfold stored, written. storage_cases type st;
    rewrite lookup_insert_ne by done; try done; by apply lookup_probe.
Qed.

Lemma stored_removed_ne type key key' st :
  key' ≠ key -> stored type key' (removed type key st) = stored type key' st.
Proof.
  intros Hne.
  assert (getPrefixedKey key ≠ getPrefixedKey key') as Hp
    by (intros E; by apply prefixed_inj in E).
  pose proof (prefixed_not_testKey key') as Ht.
  unfold stored, removed. storage_cases type st;
    rewrite lookup_delete_ne by done; try done; by apply lookup_probe.
Qed.

Lemma frames_written type key raw st : frames type key st (written type key raw st).
Proof.
  destruct (same_service_written type key raw st) as (? & ? & _ & _ & _ & _ & ?).
  repeat split; try done. intros k Hk. by apply stored_written_ne.
Qed.

Lemma frames_removed type key st : frames type key st (removed type key st).
Proof.
  destruct (same_service_removed type key st) as (? & ? & _ & _ & _ & _ & ?).
  repeat split; try done. intros k Hk. by apply stored_removed_ne.
Qed.

End StorageFacts.

(** * The executable platform satisfies the laws the theorems assume *)

Module ToyFacts.

Lemma length_tag k i p : length (Toy.tag k i p) = 16%nat.
Proof. unfold Toy.tag. by rewrite length_map, length_seq. Qed.

Lemma toy_decrypt_encrypt k i p : Toy.decrypt k i (Toy.encrypt k i p) = Some p.
Proof.
  unfold Toy.decrypt.
  assert (rev (firstn (length (Toy.encrypt k i p) - 16) (Toy.encrypt k i p)) = p) as ->.
  { unfold Toy.encrypt. rewrite length_app, length_tag, Nat.add_sub.
    rewrite take_app_length. apply rev_involutive. }
  by rewrite bool_decide_eq_true_2.
Qed.

Lemma decode_encode s : string_of_list_byte (list_byte_of_string s) = s.
Proof. apply string_of_list_byte_of_string. Qed.

Lemma element_byte_number b : Toy.element (SecureStorageService.byte_number b) = b.
Proof.
  unfold Toy.element, SecureStorageService.byte_number, Toy.byte_of_N. simpl.
  pose proof (Byte.to_N_bounded b) as Hb.
  rewrite Z.mod_small by lia. rewrite N2Z.id, N.mod_small by lia.
  by rewrite Byte.of_to_N.
Qed.

Lemma typed_array_bytes (bs : bytes) :
  Toy.typed_array (JArr (map SecureStorageService.byte_number bs)) = Some bs.
Proof.
  simpl. f_equal. induction bs as [|b bs IH]; [done|].
  cbn [map]. by rewrite element_byte_number, IH.
Qed.

End ToyFacts.

(** * crypto.service.ts: encrypt and decrypt *)

Module CryptoFacts.
Import CryptoService.

Section WithPlatform.
Context (P : Platform).

Lemma ensureAvailable_ok st : subtle st = true -> ensureAvailable st = (Ok tt, st).
Proof. unfold ensureAvailable, mbind, M_bind, read. by intros ->. Qed.

Lemma ensureAvailable_throw st :
  subtle st = false -> ensureAvailable st = (Throw CryptoUnavailable, st).
Proof. unfold ensureAvailable, mbind, M_bind, read. by intros ->. Qed.

Lemma getRandomValues_ok n st :
  subtle st = true -> (N.of_nat n <= 65536)%N ->
  getRandomValues P n st = draw P n st.
Proof.
  intros Hs Hn. unfold getRandomValues. rewrite Hs. cbn [orb negb].
  by destruct (N.ltb_spec 65536 (N.of_nat n)) as [?|_]; [lia|].
Qed.

Lemma elements_whole (b : bytes) : elements (whole b) = b.
Proof. unfold elements, whole. cbn. apply firstn_all. Qed.

Lemma arrayBuffer_round_trip (b : bytes) st :
  base64ToArrayBuffer (arrayBufferToBase64 b) st = (Ok b, st).
Proof.
  unfold base64ToArrayBuffer, arrayBufferToBase64, mbind, M_bind, lift_option.
  rewrite Base64Facts.atob_btoa. cbn. by rewrite list_byte_of_string_of_list_byte.
Qed.

Lemma arrayBufferToBase64_inj (a b : bytes) :
  arrayBufferToBase64 a = arrayBufferToBase64 b -> a = b.
Proof.
  intros E%Base64Facts.btoa_inj.
  by rewrite <- (list_byte_of_string_of_list_byte a), E, list_byte_of_string_of_list_byte.
Qed.

Lemma encrypt_spec data key salt st :
  subtle st = true ->
  encrypt P data key salt st =
  (Ok (sealed P data key salt (fresh_bytes P IV_LENGTH st)),
   set_drawn (drawn st + IV_LENGTH) st).
Proof.
  intros Hs. unfold encrypt, mbind, M_bind. rewrite ensureAvailable_ok by done.
  unfold generateIV. by rewrite getRandomValues_ok.
Qed.

Lemma payload_fields p :
  JS.prop (Some (payload_object p)) "ciphertext" = JS.Reads (Some (JStr (ciphertext p))) /\
  JS.prop (Some (payload_object p)) "iv" = JS.Reads (Some (JStr (iv p))).
Proof. unfold payload_object. by destruct (salt p). Qed.

Lemma decrypt_spec p key st :
  subtle st = true ->
  decrypt P (Some (payload_object p)) key st = (opened P (ciphertext p) (iv p) key, st).
Proof.
  intros Hs. unfold decrypt, mbind, M_bind, property, opened.
  rewrite ensureAvailable_ok by done.
  destruct (payload_fields p) as [-> ->]. cbn.
  unfold base64ToArrayBuffer, mbind, M_bind, lift_option. cbn.
  destruct (Base64.atob (ciphertext p)); cbn; [|done].
  destruct (Base64.atob (iv p)); cbn; [|done].
  destruct (subtle_decrypt P key _ _); cbn; [|done].
  by destruct (JSON.parse _).
Qed.

Lemma decrypt_pure payload key st :
  subtle st = true -> decrypt P payload key st = (decrypted P payload key, st).
Proof.
  intros Hs. unfold decrypt, decrypted, mbind, M_bind, property, opened.
  rewrite ensureAvailable_ok by done.
  destruct payload as [[ | | | | | l]|]; try reflexivity; cbn [JS.prop];
    unfold base64ToArrayBuffer, mbind, M_bind, lift_option, throw, mret, M_ret;
    (destruct (Base64.atob _); [|done]);
    (destruct (Base64.atob _); [|done]);
    (destruct (subtle_decrypt P key _ _); [|done]);
    by destruct (JSON.parse _).
Qed.

Lemma decrypt_unavailable payload key st :
  subtle st = false -> decrypt P payload key st = (Throw CryptoUnavailable, st).
Proof.
  intros Hs. unfold decrypt, mbind, M_bind. by rewrite ensureAvailable_throw.
Qed.

Hypothesis subtle_decrypt_encrypt :
  forall key nonce plaintext,
    subtle_decrypt P key nonce (subtle_encrypt P key nonce plaintext) = Some plaintext.
Hypothesis text_decode_encode : forall s, text_decode P (text_encode P s) = s.

Lemma opened_sealed data key salt nonce :
  opened P (ciphertext (sealed P data key salt nonce)) (iv (sealed P data key salt nonce)) key
  = Ok data.
Proof.
  unfold opened, sealed, arrayBufferToBase64. cbn.
  rewrite !Base64Facts.atob_btoa, !list_byte_of_string_of_list_byte.
  rewrite subtle_decrypt_encrypt, text_decode_encode, JSONFacts.parse_stringify. done.
Qed.

End WithPlatform.
End CryptoFacts.

(** * The primitives layer *)

Section Primitives.
Import CryptoService.
Context (P : Platform).

Hypothesis subtle_decrypt_encrypt :
  forall key nonce plaintext,
    subtle_decrypt P key nonce (subtle_encrypt P key nonce plaintext) = Some plaintext.
Hypothesis text_decode_encode : forall s, text_decode P (text_encode P s) = s.

(** Decrypting what [encrypt] returned, with the same key, gives the
    value back, whatever the key and the salt. *)
Lemma decrypt_encrypt (st : State) (v : json) (k : CryptoKey) (salt : option Uint8Array) :
  subtle st = true ->
  exists st',
    (p ← encrypt P v k salt; decrypt P (Some (payload_object p)) k) st = (Ok v, st').
Proof.
  intros Hs. eexists. unfold mbind, M_bind.
  rewrite CryptoFacts.encrypt_spec by done.
  rewrite CryptoFacts.decrypt_spec by done.
  by rewrite CryptoFacts.opened_sealed.
Qed.

(** C2. For every value [v] of the JSON model and every key produced by
    [generateKey()], decrypting with that key the envelope that [encrypt]
    made of [v] under it returns [v]: [decrypt(encrypt(v, k), k) == v]. The
    Web Crypto API is present, AES-GCM decrypts what it encrypted and the
    text decoder inverts the text encoder. *)
Theorem C2_round_trip (st : State) (v : json) :
  subtle st = true ->
  exists st',
    (k ← generateKey P;
     p ← encrypt P v k None;
     decrypt P (Some (payload_object p)) k) st = (Ok v, st').
Proof.
  intros Hs. unfold mbind at 1, M_bind at 1.
  unfold generateKey, mbind at 1, M_bind at 1.
  rewrite CryptoFacts.ensureAvailable_ok by done.
  unfold draw. by apply decrypt_encrypt.
Qed.

End Primitives.

(** C2 on the executable platform, for the value [{"jwt": "xyz"}]. *)
Lemma C2_round_trip_witness :
  subtle Toy.fresh = true /\
  exists st',
    (k ← CryptoService.generateKey Toy.platform;
     p ← CryptoService.encrypt Toy.platform (JObj [("jwt", JStr "xyz")]) k None;
     CryptoService.decrypt Toy.platform (Some (CryptoService.payload_object p)) k) Toy.fresh
    = (Ok (JObj [("jwt", JStr "xyz")]), st').
Proof.
  split; [reflexivity|].
  apply (C2_round_trip Toy.platform ToyFacts.toy_decrypt_encrypt ToyFacts.decode_encode).
  reflexivity.
Defined.

Section FreshIV.
Import CryptoService.
Context (P : Platform).


End FreshIV.



(** * secure-storage.service.ts: what each method does to a state *)

Module ServiceFacts.
Import SecureStorageService StorageFacts.

Section WithPlatform.
Context (P : Platform).

Lemma isEncryptionAvailable_spec st : isEncryptionAvailable st = (Ok (mayEncrypt st), st).
Proof. reflexivity. Qed.

Lemma stamps st (options : SecureStorageOptions) :
  (createdAt ← Date_now P; expiresAt ← expiry P (ttl options); mret (createdAt, expiresAt)) st
  = (Ok (clock P (clock_reads st), expiresAt_of P options st),
     set_clock_reads (readings options + clock_reads st) st).
Proof.
  unfold expiry, expiresAt_of, readings, mbind, M_bind, Date_now, mret, M_ret.
  by destruct (ttl options) as [t|]; [destruct (t =? 0)|].
Qed.

Lemma set_spec key value options st :
  set P key value options st =
  (Ok tt, written (default Local (storage options)) key
            (JSON.stringify (item_of P value options st)) (consumed options st)).
Proof.
  unfold set, item_of, consumed. unfold mbind at 1, M_bind at 1.
  rewrite isEncryptionAvailable_spec.
  unfold mayEncrypt at 1 2 3.
  destruct (default true (encrypt options) && _) eqn:Eenc.
  - apply andb_prop in Eenc as [_ [Hs Hk]%andb_prop].
    apply bool_decide_eq_true_1 in Hk.
    destruct (encryptionKey st) as [k|] eqn:Ek; [|done].
    unfold mbind at 1, M_bind at 1. unfold mbind at 1, M_bind at 1.
    unfold theKey at 1. unfold mbind at 1, M_bind at 1, read at 1. rewrite Ek. cbn [lift_option].
    unfold mret at 1, M_ret at 1.
    unfold mbind at 1, M_bind at 1.
    rewrite CryptoFacts.encrypt_spec by done.
    pose proof (stamps (set_drawn (drawn st + CryptoService.IV_LENGTH) st) options) as Hst.
    unfold mbind, M_bind in Hst |- *.
    destruct (Date_now P _) as [[createdAt|e] st1]; [|done].
    destruct (expiry P (ttl options) st1) as [[expiresAt|e] st2]; [|done].
    injection Hst as -> -> ->.
    unfold mret, M_ret. rewrite getStorage_spec. reflexivity.
  - unfold mbind at 1, M_bind at 1.
    pose proof (stamps st options) as Hst.
    unfold mbind, M_bind in Hst |- *.
    destruct (Date_now P _) as [[createdAt|e] st1]; [|done].
    destruct (expiry P (ttl options) st1) as [[expiresAt|e] st2]; [|done].
    injection Hst as -> -> ->.
    unfold mret, M_ret. rewrite getStorage_spec. reflexivity.
Qed.

Lemma remove_spec key options st :
  remove key options st = (Ok tt, removed (default Local (storage options)) key st).
Proof.
  unfold remove, removed, mbind, M_bind. rewrite getStorage_spec.
  by destruct (removeItem _ _ _) as [[[]|] ?] eqn:E.
Qed.

(** The [catch] block of [get]. *)
Lemma handler_spec key type st :
  (remove key (storage_only type);; mret None : M JS.value) st = (Ok None, removed type key st).
Proof. unfold mbind, M_bind. by rewrite remove_spec. Qed.

Lemma get_unfold key options st :
  let type := default Local (storage options) in
  get P key options st =
  if absent (stored type key st) then (Ok None, probed type st)
  else try_catch (retrieve P key type (version options) (default "" (stored type key st)))
         (fun _ => remove key (storage_only type);; mret None) (probed type st).
Proof.
  intros type. unfold get. fold type. unfold mbind at 1, M_bind at 1.
  rewrite getStorage_spec. unfold mbind at 1, M_bind at 1, getItem, read.
  rewrite contents_probed by apply prefixed_not_testKey.
  fold (stored type key st). by destruct (absent _).
Qed.

Lemma get_absent key options st :
  absent (stored (default Local (storage options)) key st) = true ->
  get P key options st = (Ok None, probed (default Local (storage options)) st).
Proof. intros H. rewrite get_unfold. cbv zeta. by rewrite H. Qed.

Lemma get_caught key options st e st' :
  let type := default Local (storage options) in
  absent (stored type key st) = false ->
  retrieve P key type (version options) (default "" (stored type key st)) (probed type st)
    = (Throw e, st') ->
  get P key options st = (Ok None, removed type key st').
Proof.
  intros type Ha Hr. rewrite get_unfold. fold type. rewrite Ha.
  unfold try_catch. rewrite Hr. apply handler_spec.
Qed.

Lemma get_returned key options st v st' :
  let type := default Local (storage options) in
  absent (stored type key st) = false ->
  retrieve P key type (version options) (default "" (stored type key st)) (probed type st)
    = (Ok v, st') ->
  get P key options st = (Ok v, st').
Proof.
  intros type Ha Hr. rewrite get_unfold. fold type. rewrite Ha.
  unfold try_catch. by rewrite Hr.
Qed.

(** [get] never throws. *)
Lemma get_total key options st : exists v st', get P key options st = (Ok v, st').
Proof.
  rewrite get_unfold. cbv zeta. destruct (absent _); [by eauto|].
  unfold try_catch. destruct (retrieve _ _ _ _ _ _) as [[v|e] st']; [by eauto|].
  rewrite handler_spec. by eauto.
Qed.

Lemma property_reads (o : JS.value) name v st :
  JS.prop o name = JS.Reads v -> CryptoService.property o name st = (Ok v, st).
Proof. unfold CryptoService.property. by intros ->. Qed.

Lemma property_throws (o : JS.value) name st :
  JS.prop o name = JS.Nullish -> CryptoService.property o name st = (Throw TypeError, st).
Proof. unfold CryptoService.property. by intros ->. Qed.

Lemma retrieve_unparsed key type version serialized st :
  JSON.parse serialized = None ->
  retrieve P key type version serialized st = (Throw SyntaxError, st).
Proof. intros H. unfold retrieve, mbind, M_bind. by rewrite H. Qed.

Lemma prop_field item name e name' :
  JS.prop (Some item) name = JS.Reads e ->
  JS.prop (Some item) name' = JS.Reads (field item name').
Proof. unfold field. by destruct item. Qed.

Lemma theKey_spec st : mayEncrypt st = true ->
  theKey st = (Ok (default [] (encryptionKey st)), st).
Proof.
  unfold mayEncrypt, theKey, mbind, M_bind, read.
  intros [_ Hk%bool_decide_eq_true_1]%andb_prop. by destruct (encryptionKey st).
Qed.

(** [retrieve] on a text that parses to an item other than [null]. *)
Lemma retrieve_spec key type version serialized st item e :
  JSON.parse serialized = Some item ->
  JS.prop (Some item) "expiresAt" = JS.Reads e ->
  retrieve P key type version serialized st =
  if JS.truthy e && JS.gt (clock P (clock_reads st)) e
  then (Ok None, removed type key (tick st))
  else
    let st1 := if JS.truthy e then tick st else st in
    if match version with
       | Some v => JS.strict_neq (field item "version") v
       | None => false
       end
    then (Ok None, removed type key st1)
    else if JS.truthy (field item "encrypted") then
      if mayEncrypt st1 then
        match CryptoService.decrypt P (field item "payload")
                (default [] (encryptionKey st1)) st1 with
        | (Ok v, st2) => (Ok (Some v), st2)
        | (Throw err, st2) => (Throw err, st2)
        end
      else (Ok None, st1)
    else (Ok (field item "value"), st1).
Proof.
  intros Hparse He. unfold retrieve.
  unfold mbind at 1, M_bind at 1. rewrite Hparse. cbn [lift_option mret M_ret].
  unfold mbind at 1, M_bind at 1. rewrite (property_reads _ _ _ _ He).
  unfold mbind at 1, M_bind at 1.
  assert (exists st1 b,
    (if JS.truthy e then now ← Date_now P; mret (JS.gt now e) else mret false) st
      = (Ok b, st1) /\
    b = JS.truthy e && JS.gt (clock P (clock_reads st)) e /\
    st1 = if JS.truthy e then tick st else st) as (st1 & b & -> & -> & Hst1).
  { destruct (JS.truthy e); eexists _, _; (split; [reflexivity|by split]). }
  destruct (JS.truthy e && _) eqn:Hexp.
  { apply andb_prop in Hexp as [Ht _]. rewrite Ht in Hst1. subst st1.
    apply handler_spec. }
  cbv zeta. rewrite <- Hst1. clear Hst1.
  unfold mbind at 1, M_bind at 1.
  assert (match version with
          | Some v => iv ← CryptoService.property (Some item) "version";
                      mret (JS.strict_neq iv v)
          | None => mret false
          end st1
          = (Ok match version with
                | Some v => JS.strict_neq (field item "version") v
                | None => false
                end, st1)) as ->.
  { destruct version as [v|]; [|done]. unfold mbind, M_bind.
    by rewrite (property_reads _ _ _ _ (prop_field _ _ _ "version" He)). }
  destruct (match version with Some _ => _ | None => _ end); [apply handler_spec|].
  unfold mbind at 1, M_bind at 1.
  rewrite (property_reads _ _ _ _ (prop_field _ _ _ "encrypted" He)).
  destruct (JS.truthy (field item "encrypted")).
  - unfold mbind at 1, M_bind at 1. rewrite isEncryptionAvailable_spec.
    destruct (mayEncrypt st1) eqn:Hm; [|done]. cbn [negb].
    unfold mbind at 1, M_bind at 1.
    rewrite (property_reads _ _ _ _ (prop_field _ _ _ "payload" He)).
    unfold mbind at 1, M_bind at 1. rewrite theKey_spec by done.
    unfold mbind at 1, M_bind at 1.
    by destruct (CryptoService.decrypt _ _ _ _) as [[v|err] st2].
  - by rewrite (property_reads _ _ _ _ (prop_field _ _ _ "value" He)).
Qed.

(** [retrieve] on the text [null]. *)
Lemma retrieve_null key type version serialized st item :
  JSON.parse serialized = Some item ->
  JS.prop (Some item) "expiresAt" = JS.Nullish ->
  retrieve P key type version serialized st = (Throw TypeError, st).
Proof.
  intros Hparse He. unfold retrieve.
  unfold mbind at 1, M_bind at 1. rewrite Hparse. cbn [lift_option mret M_ret].
  unfold mbind at 1, M_bind at 1. by rewrite (property_throws _ _ _ He).
Qed.

(** The properties of the item [set] writes. *)
Lemma item_of_fields value options st :
  let item := item_of P value options st in
  let encrypted := default true (encrypt options) && mayEncrypt st in
  JS.prop (Some item) "expiresAt" = JS.Reads (JNum <$> expiresAt_of P options st) /\
  field item "version" = JNum <$> version options /\
  field item "encrypted" = Some (JBool encrypted) /\
  field item "value" = (if encrypted then None else Some value) /\
  field item "payload" =
    (if encrypted
     then Some (CryptoService.payload_object
                  (CryptoService.sealed P value (default [] (encryptionKey st)) None
                     (CryptoService.fresh_bytes P CryptoService.IV_LENGTH st)))
     else None).
Proof.
  cbv zeta. unfold item_of, field.
  generalize (expiresAt_of P options st) as e. intros e.
  by destruct (default true (encrypt options) && mayEncrypt st), e, (version options).
Qed.

Lemma stringify_not_empty j : absent (Some (JSON.stringify j)) = false.
Proof.
  pose proof (JSONFacts.stringify_opens j) as H. by destruct (JSON.stringify j).
Qed.

Lemma strict_neq_same v : JS.strict_neq (Some (JNum v)) v = false.
Proof. cbn. by rewrite Z.eqb_refl. Qed.

Lemma stored_later type key n st : stored type key (later n st) = stored type key st.
Proof. reflexivity. Qed.

Lemma clock_reads_probed type st : clock_reads (probed type st) = clock_reads st.
Proof. by destruct (same_service_probed type st) as (_ & _ & _ & _ & _ & ? & _). Qed.

(** Once the entry is gone, [get] returns [undefined] and [has] false,
    at any later moment. *)
Lemma gone key options st :
  stored (default Local (storage options)) key st = None ->
  forall n, (get P key options (later n st)).1 = Ok None /\
            (has P key options (later n st)).1 = Ok false.
Proof.
  intros Hs n.
  assert (get P key options (later n st)
          = (Ok None, probed (default Local (storage options)) (later n st))) as E.
  { apply get_absent. by rewrite stored_later, Hs. }
  split; [by rewrite E|]. unfold has, mbind, M_bind. by rewrite E.
Qed.

Lemma loadSalt_spec st : loadSalt P st = (Ok (persisted_salt P st), st).
Proof. reflexivity. Qed.

(** [initialize] in password mode, with the Web Crypto API. *)
Lemma initialize_password pw st :
  subtle st = true -> pw ≠ "" ->
  initialize P (password_mode pw) st =
  (Ok tt,
   match persisted_salt P st with
   | Some s => set_initialized true (keyed P pw s st)
   | None =>
       let s := CryptoService.fresh_bytes P CryptoService.SALT_LENGTH st in
       set_initialized true
         ((saveSalt s (keyed P pw s (set_drawn (drawn st + CryptoService.SALT_LENGTH) st))).2)
   end).
Proof.
  intros Hs Hpw. unfold initialize.
  unfold mbind at 1, M_bind at 1, CryptoService.isAvailable, read. rewrite Hs.
  cbn [negb keyMode password password_mode].
  destruct (String.eqb_spec pw "") as [|_]; [done|].
  unfold mbind at 1, M_bind at 1. unfold mbind at 1, M_bind at 1.
  rewrite loadSalt_spec.
  unfold mbind at 1, M_bind at 1.
  unfold CryptoService.deriveKey. unfold mbind at 1, M_bind at 1.
  rewrite CryptoFacts.ensureAvailable_ok by done.
  destruct (persisted_salt P st) as [s|].
  - unfold keyed, derived. rewrite <- (CryptoFacts.elements_whole s) at 2. reflexivity.
  - cbn [fmap option_fmap option_map]. unfold CryptoService.generateSalt, mbind, M_bind.
    cbv beta. rewrite CryptoFacts.getRandomValues_ok by (done || (cbn; lia)).
    cbv zeta. unfold keyed, derived, CryptoService.fresh_bytes, CryptoService.draw.
    unfold mret, M_ret, modify. cbn [buffer whole].
    change ((CryptoService.PBKDF2_ITERATIONS <? 0)
            || (4294967295 <? CryptoService.PBKDF2_ITERATIONS)) with false.
    change (CryptoService.PBKDF2_ITERATIONS =? 0) with false.
    cbv beta iota. rewrite CryptoFacts.elements_whole.
    reflexivity.
Qed.

(** [initialize] without the Web Crypto API. *)
Lemma initialize_degraded config st :
  subtle st = false -> initialize P config st = (Ok tt, set_initialized true st).
Proof.
  intros Hs. unfold initialize, mbind, M_bind, CryptoService.isAvailable, read.
  by rewrite Hs.
Qed.

Lemma salt_key_not_testKey : prefix ++ "_salt" ≠ testKey.
Proof. discriminate. Qed.

Lemma salt_text_written type key raw st :
  key ≠ "_salt" -> salt_text (written type key raw st) = salt_text st.
Proof.
  intros Hkey.
  assert (getPrefixedKey key ≠ prefix ++ "_salt") as Hne
    by (intros E; by apply prefixed_inj in E).
  unfold salt_text, written. storage_cases type st; try reflexivity.
  all: rewrite lookup_insert_ne by done; apply lookup_probe, salt_key_not_testKey.
Qed.

Lemma persisted_salt_text st st' :
  salt_text st = salt_text st' -> persisted_salt P st = persisted_salt P st'.
Proof.
  unfold salt_text, persisted_salt, loadSalt, read. cbn.
  destruct (localStorage st) as [m|], (localStorage st') as [m'|]; cbn; try done.
  - by intros ->.
  - by intros ->.
  - by intros <-.
Qed.

Lemma salt_text_saved s st :
  is_Some (localStorage st) ->
  salt_text (saveSalt s st).2 = Some (JSON.stringify (JArr (map byte_number s))).
Proof.
  intros [m Hm]. unfold salt_text, saveSalt, modify. cbn. rewrite Hm. cbn.
  by rewrite lookup_insert_eq.
Qed.

Lemma persisted_salt_saved s st :
  Uint8Array_from P (JArr (map byte_number s)) = Some s ->
  is_Some (localStorage st) ->
  persisted_salt P (saveSalt s st).2 = Some s.
Proof.
  intros Hu8 [m Hm]. unfold persisted_salt, loadSalt, read, saveSalt, modify. cbn.
  rewrite Hm. cbn. rewrite lookup_insert_eq. cbn.
  pose proof (stringify_not_empty (JArr (map byte_number s))) as Hne.
  cbn in Hne. rewrite Hne. by rewrite JSONFacts.parse_stringify.
Qed.

Lemma decrypt_state payload k st : (CryptoService.decrypt P payload k st).2 = st.
Proof.
  destruct (subtle st) eqn:Hs.
  - by rewrite CryptoFacts.decrypt_pure.
  - by rewrite CryptoFacts.decrypt_unavailable.
Qed.

Lemma retrieve_frames key type version serialized st :
  frames type key st (retrieve P key type version serialized st).2.
Proof.
  destruct (JSON.parse serialized) as [item|] eqn:Hparse.
  2:{ rewrite retrieve_unparsed by done. apply frames_refl. }
  destruct (JS.prop (Some item) "expiresAt") as [|e] eqn:He.
  { erewrite retrieve_null by done. apply frames_refl. }
  erewrite retrieve_spec by done.
  destruct (JS.truthy e && _).
  { eapply frames_trans; [apply frames_tick|apply frames_removed]. }
  cbv zeta.
  assert (frames type key st (if JS.truthy e then tick st else st)) as Hst1.
  { destruct (JS.truthy e); [apply frames_tick|apply frames_refl]. }
  destruct (match version with Some _ => _ | None => _ end).
  { eapply frames_trans; [exact Hst1|apply frames_removed]. }
  destruct (JS.truthy (field item "encrypted")); [|exact Hst1].
  destruct (mayEncrypt _); [|exact Hst1].
  pose proof (decrypt_state (field item "payload")
                (default [] (encryptionKey (if JS.truthy e then tick st else st)))
                (if JS.truthy e then tick st else st)) as Hd.
  destruct (CryptoService.decrypt _ _ _ _) as [[v|err] st2]; cbn in Hd; by subst.
Qed.

Lemma get_frames key options st :
  frames (default Local (storage options)) key st (get P key options st).2.
Proof.
  rewrite get_unfold. cbv zeta.
  set (type := default Local (storage options)).
  destruct (absent _); [apply frames_probed|].
  unfold try_catch.
  pose proof (retrieve_frames key type (version options)
                (default "" (stored type key st)) (probed type st)) as Hr.
  destruct (retrieve _ _ _ _ _ _) as [[v|err] st'].
  - eapply frames_trans; [apply frames_probed|exact Hr].
  - rewrite handler_spec.
    eapply frames_trans; [apply frames_probed|].
    eapply frames_trans; [exact Hr|apply frames_removed].
Qed.

Lemma set_frames key value options st :
  frames (default Local (storage options)) key st (set P key value options st).2.
Proof.
  rewrite set_spec. eapply frames_trans; [|apply frames_written].
  unfold consumed. by destruct (_ && _).
Qed.

(** [get] reads an entry that the key reads. *)
Lemma get_reads key options st raw v :
  let type := default Local (storage options) in
  mayEncrypt st = true -> version options = None ->
  stored type key st = Some raw -> raw ≠ "" -> reads P st raw v ->
  get P key options st = (Ok (Some v), probed type st).
Proof.
  intros type Hmay Hver Hst Hraw (item & e & Hparse & He & Hte & Hread).
  eapply get_returned; fold type; rewrite Hst.
  { cbn. by destruct (String.eqb_spec raw ""). }
  cbn [default from_option id]. erewrite retrieve_spec by done.
  rewrite Hte, Hver. cbn [andb]. cbv zeta.
  destruct (same_service_probed type st) as (Hs & Hk & _).
  destruct (JS.truthy (field item "encrypted")); [|by rewrite Hread].
  assert (mayEncrypt (probed type st) = true) as ->
    by (unfold mayEncrypt in *; by rewrite Hs, Hk).
  rewrite CryptoFacts.decrypt_pure, Hk, Hread; [done|].
  rewrite Hs. unfold mayEncrypt in Hmay. by apply andb_prop in Hmay as [? _].
Qed.

End WithPlatform.

Section ReadBack.
Context (P : Platform).

Hypothesis subtle_decrypt_encrypt :
  forall key nonce plaintext,
    subtle_decrypt P key nonce (subtle_encrypt P key nonce plaintext) = Some plaintext.
Hypothesis text_decode_encode : forall s, text_decode P (text_encode P s) = s.

(** [get] reads back the value of an item that [set] wrote without
    expiry, in any state that holds the item's text and, for an encrypted
    item, the key it was encrypted with. *)
Lemma get_written key value options options' st st' :
  let type := default Local (storage options) in
  stored type key st' = Some (JSON.stringify (item_of P value options st)) ->
  expiresAt_of P options st = None ->
  default Local (storage options') = type ->
  version options' = None \/ version options' = version options ->
  (default true (encrypt options) && mayEncrypt st = true ->
   subtle st' = true /\ encryptionKey st' = encryptionKey st) ->
  get P key options' st' = (Ok (Some value), probed type st').
Proof.
  intros type Hst Hexp Htype Hver Hkey.
  destruct (item_of_fields P value options st) as (He & Hv & Henc & Hval & Hpay).
  rewrite Hexp in He. cbn [fmap option_fmap option_map] in He.
  eapply get_returned; rewrite Htype, Hst; [apply stringify_not_empty|].
  cbn [default]. erewrite retrieve_spec; [|apply JSONFacts.parse_stringify|exact He].
  cbn [JS.truthy andb]. cbv zeta. rewrite Hv, Henc, Hval, Hpay.
  assert (match version options' with
          | Some v => JS.strict_neq (JNum <$> version options) v
          | None => false
          end = false) as ->.
  { destruct Hver as [->| ->]; [done|].
    destruct (version options); [apply strict_neq_same|done]. }
  destruct (default true (encrypt options) && mayEncrypt st) eqn:Eenc; [|done].
  destruct (Hkey eq_refl) as [Hs Hk].
  destruct (same_service_probed type st') as (Hs' & Hk' & _).
  assert (mayEncrypt (probed type st') = true) as ->.
  { apply andb_prop in Eenc as [_ [_ Hm]%andb_prop]. unfold mayEncrypt.
    by rewrite Hs', Hk', Hs, Hk. }
  cbn [JS.truthy]. rewrite CryptoFacts.decrypt_spec by by rewrite Hs'.
  rewrite Hk', Hk. by rewrite CryptoFacts.opened_sealed.
Qed.

End ReadBack.

End ServiceFacts.

(** * The storage layer *)

Section Storage.
Import SecureStorageService StorageFacts ServiceFacts.
Context (P : Platform).

(** C5. [set] persists the Encrypted variant ([encrypted: true] with an
    EncryptedPayload) exactly when [options.encrypt] (default true) holds and
    [isEncryptionAvailable()] is true, and otherwise the Plain variant with
    [encrypted: false] and the raw value; [set] does not throw. Encryption
    is unavailable before [initialize] (no key), after [destroy] and when
    the crypto primitive is missing; a Plain item without expiry is read
    back by [get] with the same options. *)
Theorem C5_variant (st : State) (key : string) (value : json) (options : SecureStorageOptions) :
  let type := default Local (storage options) in
  let encrypted := default true (encrypt options) && mayEncrypt st in
  (exists st' item,
     set P key value options st = (Ok tt, st') /\
     stored type key st' = Some (JSON.stringify item) /\
     JSON.parse (JSON.stringify item) = Some item /\
     field item "encrypted" = Some (JBool encrypted) /\
     (if encrypted
      then field item "value" = None /\
           exists payload : EncryptedPayload,
             field item "payload" = Some (CryptoService.payload_object payload)
      else field item "value" = Some value /\ field item "payload" = None) /\
     (encrypted = false -> ttl options = None ->
      get P key options st' = (Ok (Some value), probed type st'))) /\
  isEncryptionAvailable st = (Ok (mayEncrypt st), st) /\
  (encrypt options = Some false -> encrypted = false) /\
  (encryptionKey st = None -> encrypted = false) /\
  (subtle st = false -> encrypted = false) /\
  mayEncrypt (destroy st).2 = false.
Proof.
  intros type encrypted. split; [|split; [reflexivity|repeat split]].
  - eexists _, (item_of P value options st).
    split; [apply set_spec|]. fold type.
    split; [apply stored_written|].
    split; [apply JSONFacts.parse_stringify|].
    destruct (item_of_fields P value options st) as (He & Hv & Henc & Hval & Hpay).
    fold encrypted in Henc, Hval, Hpay.
    split; [done|]. split.
    { destruct encrypted; split; eauto. }
    intros Hplain Httl.
    assert (stored type key (written type key (JSON.stringify (item_of P value options st))
                               (consumed options st))
            = Some (JSON.stringify (item_of P value options st))) as Hst
      by apply stored_written.
    eapply get_returned; fold type; rewrite Hst; [apply stringify_not_empty|].
    cbn [default]. erewrite retrieve_spec;
      [|apply JSONFacts.parse_stringify|exact He].
    unfold expiresAt_of. rewrite Httl. cbn [fmap option_fmap option_map JS.truthy andb].
    cbv zeta. rewrite Hv, Henc, Hval, Hplain.
    destruct (version options) as [v|]; cbn [fmap option_fmap option_map];
      rewrite ?strict_neq_same; reflexivity.
  - intros He. unfold encrypted. by rewrite He.
  - intros Hk. unfold encrypted, mayEncrypt. rewrite Hk.
    by rewrite bool_decide_eq_false_2, !andb_false_r by (by intros []).
  - intros Hs. unfold encrypted, mayEncrypt. rewrite Hs. by rewrite andb_false_r.
  - unfold mayEncrypt. cbn. by rewrite andb_false_r.
Qed.


(** An Encrypted item whose decryption fails while encryption is
    available: [get] returns absent and removes the entry. *)
Lemma get_undecryptable (st : State) (key : string) (options : SecureStorageOptions)
    (raw : string) (item : json) (err : error) :
  let type := default Local (storage options) in
  stored type key st = Some raw -> raw ≠ "" ->
  JSON.parse raw = Some item -> item ≠ JNull ->
  JS.truthy (field item "encrypted") = true ->
  mayEncrypt st = true ->
  CryptoService.decrypted P (field item "payload") (default [] (encryptionKey st))
    = Throw err ->
  exists st0, get P key options st = (Ok None, removed type key st0).
Proof.
  intros type Hst Hraw Hparse Hnull Henc Hmay Hdec.
  assert (absent (stored type key st) = false) as Habs.
  { rewrite Hst. cbn. by destruct (String.eqb_spec raw ""). }
  assert (exists e, JS.prop (Some item) "expiresAt" = JS.Reads e) as [e He]
    by (destruct item; by eauto).
  pose proof (retrieve_spec P key type (version options) raw (probed type st) item e
                Hparse He) as Hr.
  destruct (JS.truthy e && _).
  { eexists. eapply get_returned; [exact Habs|]. fold type. rewrite Hst. exact Hr. }
  cbv zeta in Hr.
  destruct (match version options with Some _ => _ | None => _ end).
  { eexists. eapply get_returned; [exact Habs|]. fold type. rewrite Hst. exact Hr. }
  rewrite Henc in Hr.
  set (st1 := if JS.truthy e then tick (probed type st) else probed type st) in Hr.
  assert (subtle st1 = subtle st /\ encryptionKey st1 = encryptionKey st) as [Hs Hk].
  { destruct (same_service_probed type st) as (? & ? & _).
    unfold st1. by destruct (JS.truthy e). }
  assert (mayEncrypt st1 = true) as Hmay1 by (unfold mayEncrypt; by rewrite Hs, Hk).
  rewrite Hmay1 in Hr.
  rewrite CryptoFacts.decrypt_pure, Hk, Hdec in Hr.
  2:{ rewrite Hs. unfold mayEncrypt in Hmay. by apply andb_prop in Hmay as [? _]. }
  eexists. eapply get_caught; [exact Habs|]. fold type. rewrite Hst. exact Hr.
Qed.


(** C8, as amended. Where the Web Crypto API is present, [initialize]
    with keyMode 'password' and no password (or an empty one) throws the
    "Password is required" error and leaves the state as it was: no key, no
    salt, no flag and no storage has changed. Where the API is missing,
    the same call returns and marks the service initialized. *)
Theorem C8_missing_password (st : State) (config : SecureStorageConfig) :
  keyMode config = KeyPassword ->
  password config = None \/ password config = Some "" ->
  (subtle st = true -> initialize P config st = (Throw PasswordRequired, st)) /\
  (subtle st = false -> initialize P config st = (Ok tt, set_initialized true st)).
Proof.
  intros Hmode Hpw. unfold initialize, mbind, M_bind, CryptoService.isAvailable, read.
  split; intros ->; cbn [negb]; [|done].
  rewrite Hmode. by destruct Hpw as [-> | ->].
Qed.

End Storage.


(** C8 as stated fails: where the Web Crypto API is missing, [initialize]
    with keyMode 'password' and no password does not fail, and it changes
    [initialized]. *)
Lemma C8_counterexample :
  SecureStorageService.initialize Toy.platform Toy.without_password Toy.degraded
  = (Ok tt, set_initialized true Toy.degraded) /\
  initialized Toy.degraded = false /\
  initialized (set_initialized true Toy.degraded) = true.
Proof. repeat split. Qed.

Section PasswordCycle.
Import SecureStorageService StorageFacts ServiceFacts.
Context (P : Platform).

Hypothesis subtle_decrypt_encrypt :
  forall key nonce plaintext,
    subtle_decrypt P key nonce (subtle_encrypt P key nonce plaintext) = Some plaintext.
Hypothesis text_decode_encode : forall s, text_decode P (text_encode P s) = s.
Hypothesis Uint8Array_of_bytes :
  forall s : bytes, Uint8Array_from P (JArr (map byte_number s)) = Some s.

Lemma destroy_spec st :
  destroy st = (Ok tt, set_initialized false (set_keySalt None (set_encryptionKey None st))).
Proof. reflexivity. Qed.

(** After [initialize] in password mode the salt of the key is the one
    localStorage holds. *)
Lemma initialize_password_persists pw st :
  subtle st = true -> pw ≠ "" -> is_Some (localStorage st) ->
  exists s st1,
    initialize P (password_mode pw) st = (Ok tt, st1) /\
    subtle st1 = true /\ encryptionKey st1 = Some (derived P pw s) /\
    persisted_salt P st1 = Some s /\ is_Some (localStorage st1).
Proof.
  intros Hs Hpw Hloc. rewrite initialize_password by done.
  destruct (persisted_salt P st) as [s|] eqn:Esalt.
  - exists s. eexists. split; [reflexivity|]. by repeat split.
  - cbv zeta. set (s := CryptoService.fresh_bytes P CryptoService.SALT_LENGTH st).
    exists s. eexists. split; [reflexivity|].
    set (st0 := keyed P pw s _).
    assert (is_Some (localStorage st0)) as Hloc0 by done.
    pose proof (persisted_salt_saved P s st0 (Uint8Array_of_bytes s) Hloc0) as Hsaved.
    destruct Hloc0 as [m Hm].
    unfold saveSalt, modify in *. rewrite Hm in *. cbn in Hsaved |- *.
    split; [done|]. split; [done|]. split; [exact Hsaved|]. by eexists.
Qed.

(** C4, as amended. With a usable localStorage and a caller key other
    than ["_salt"]: [initialize] in password mode, [set(k, v)], [destroy()],
    [initialize] again with the same password, then [get(k)] returns [v].
    [destroy] clears the key, the salt and the flag in memory and no
    storage; the second [initialize] finds the persisted salt and derives
    the same key. *)
Theorem C4_password_cycle (st : State) (pw key : string) (value : json) :
  pw ≠ "" -> key ≠ "_salt" -> is_Some (localStorage st) ->
  exists st',
    (initialize P (password_mode pw);;
     set P key value no_options;;
     destroy;;
     initialize P (password_mode pw);;
     get P key no_options) st = (Ok (Some value), st').
Proof.
  intros Hpw Hkey Hloc. destruct (subtle st) eqn:Hs.
  - destruct (initialize_password_persists pw st Hs Hpw Hloc)
      as (s & st1 & Hinit & Hs1 & Hk1 & Hsalt1 & Hloc1).
    unfold mbind at 1, M_bind at 1. rewrite Hinit.
    unfold mbind at 1, M_bind at 1. rewrite set_spec.
    unfold mbind at 1, M_bind at 1. rewrite destroy_spec.
    set (st2 := written _ _ _ _).
    set (st3 := set_initialized false _).
    assert (persisted_salt P st3 = Some s) as Hsalt3.
    { rewrite <- Hsalt1. apply persisted_salt_text.
      change (salt_text st3) with (salt_text st2). unfold st2.
      rewrite salt_text_written by done.
      unfold consumed. by destruct (_ && _). }
    assert (subtle st3 = true) as Hs3.
    { destruct (same_service_written Local key
                  (JSON.stringify (item_of P value no_options st1))
                  (consumed no_options st1)) as (E & _).
      change (subtle st3) with (subtle st2). unfold st2. cbn [default no_options storage].
      rewrite E. unfold consumed. cbn. by destruct (mayEncrypt st1). }
    unfold mbind at 1, M_bind at 1. rewrite initialize_password by done.
    rewrite Hsalt3. eexists.
    eapply (get_written P subtle_decrypt_encrypt text_decode_encode
              key value no_options no_options st1).
    + etrans; [|apply (stored_written Local key _ (consumed no_options st1))].
      reflexivity.
    + reflexivity.
    + reflexivity.
    + by left.
    + intros _. split; [exact Hs3|]. by rewrite Hk1.
  - unfold mbind at 1, M_bind at 1. rewrite initialize_degraded by done.
    unfold mbind at 1, M_bind at 1. rewrite set_spec.
    unfold mbind at 1, M_bind at 1. rewrite destroy_spec.
    unfold mbind at 1, M_bind at 1. rewrite initialize_degraded.
    2:{ set (st1 := set_initialized true st).
        destruct (same_service_written Local key
                    (JSON.stringify (item_of P value no_options st1))
                    (consumed no_options st1)) as (E & _).
        cbn [default no_options storage subtle set_initialized set_keySalt set_encryptionKey].
        rewrite E. unfold consumed, mayEncrypt. cbn. by rewrite Hs. }
    eexists.
    eapply (get_written P subtle_decrypt_encrypt text_decode_encode
              key value no_options no_options (set_initialized true st)).
    + etrans;
        [|apply (stored_written Local key _ (consumed no_options (set_initialized true st)))].
      reflexivity.
    + reflexivity.
    + reflexivity.
    + by left.
    + unfold mayEncrypt. cbn [subtle set_initialized default no_options encrypt].
      rewrite Hs. by intros [=].
Qed.

End PasswordCycle.

(** C4 on the executable platform: the end-to-end scenario of the
    specification. *)
Lemma C4_password_cycle_witness :
  exists st',
    (SecureStorageService.initialize Toy.platform (password_mode "abc123");;
     SecureStorageService.set Toy.platform "token" (JObj [("jwt", JStr "xyz")]) no_options;;
     SecureStorageService.destroy;;
     SecureStorageService.initialize Toy.platform (password_mode "abc123");;
     SecureStorageService.get Toy.platform "token" no_options) Toy.fresh
    = (Ok (Some (JObj [("jwt", JStr "xyz")])), st').
Proof.
  apply (C4_password_cycle Toy.platform ToyFacts.toy_decrypt_encrypt ToyFacts.decode_encode
           ToyFacts.typed_array_bytes Toy.fresh "abc123" "token").
  - discriminate.
  - discriminate.
  - by eexists.
Defined.

(** C4 as stated fails for the caller key ["_salt"]: [set] overwrites the
    persisted salt with the item, the second [initialize] derives another
    key, and [get] returns absent. *)
Lemma C4_counterexample :
  ((SecureStorageService.initialize Toy.platform (password_mode "abc123");;
    SecureStorageService.set Toy.platform "_salt" (JObj [("jwt", JStr "xyz")]) no_options;;
    SecureStorageService.destroy;;
    SecureStorageService.initialize Toy.platform (password_mode "abc123");;
    SecureStorageService.get Toy.platform "_salt" no_options) Toy.fresh).1
  = Ok None.
Proof. vm_compute. reflexivity. Qed.

(** C5 on the executable platform: before [initialize], [set] with the
    default options persists a Plain item that [get] reads back. *)
Lemma C5_variant_witness :
  exists st' item,
    SecureStorageService.set Toy.platform "k" (JStr "v") no_options Toy.fresh = (Ok tt, st') /\
    SecureStorageService.stored Local "k" st' = Some (JSON.stringify item) /\
    SecureStorageService.field item "encrypted" = Some (JBool false) /\
    (SecureStorageService.get Toy.platform "k" no_options st').1 = Ok (Some (JStr "v")).
Proof.
  destruct (C5_variant Toy.platform Toy.fresh "k" (JStr "v") no_options)
    as ((st' & item & Hset & Hstored & _ & Henc & _ & Hget) & _).
  exists st', item. repeat split; try done.
  by rewrite Hget.
Defined.



(** C8 on the executable platform. *)
Lemma C8_missing_password_witness :
  SecureStorageService.initialize Toy.platform Toy.without_password Toy.fresh
  = (Throw PasswordRequired, Toy.fresh).
Proof.
  destruct (C8_missing_password Toy.platform Toy.fresh Toy.without_password) as [H _].
  - reflexivity.
  - by left.
  - by apply H.
Defined.

(** * The salt among the caller's keys *)

Section SaltNamespace.
Import SecureStorageService StorageFacts ServiceFacts.
Context (P : Platform).

Lemma delete_all_absent l (m : gmap string string) k :
  m !! k = None -> delete_all l m !! k = None.
Proof.
  revert m. induction l as [|k' l IH]; intros m Hm; [done|].
  cbn. apply IH. destruct (decide (k' = k)) as [->|Hne].
  - apply lookup_delete_eq.
  - by rewrite lookup_delete_ne.
Qed.

Lemma delete_all_in l (m : gmap string string) k : In k l -> delete_all l m !! k = None.
Proof.
  revert m. induction l as [|k' l IH]; intros m; [done|].
  intros [->|Hin]; cbn; [|by apply IH].
  apply delete_all_absent, lookup_delete_eq.
Qed.

(** [keysToRemove.forEach(key => localStorage.removeItem(key))] *)
Lemma forEach_removeItem (l : list string) (st : State) (m : gmap string string) :
  localStorage st = Some m ->
  forEach l (removeItem LocalStorage) st
  = (Ok tt, set_localStorage (Some (delete_all l m)) st).
Proof.
  revert st m. induction l as [|k l IH]; intros st m Hm.
  - destruct st. cbn in *. by subst.
  - cbn [forEach]. unfold mbind, M_bind. unfold removeItem at 1, update, modify.
    rewrite (IH _ (delete k m)); [done|]. cbn. by rewrite Hm.
Qed.

Lemma prefixed_names_in (m : gmap string string) (key raw : string) :
  m !! getPrefixedKey key = Some raw -> In (getPrefixedKey key) (prefixed_names m).
Proof.
  intros Hm. apply filter_In. split; [|apply Str.startsWith_app].
  apply list_elem_of_In, list_elem_of_fmap. exists (getPrefixedKey key, raw).
  split; [done|]. by apply elem_of_map_to_list.
Qed.

Lemma keys_local st m :
  localStorage st = Some m ->
  keys (storage_only Local) st
  = (Ok (map (string_drop (String.length prefix)) (prefixed_names (probe m))),
     set_localStorage (Some (probe m)) st).
Proof.
  intros Hm. unfold keys, mbind, M_bind. rewrite getStorage_spec.
  change (default Local (storage (storage_only Local))) with Local.
  unfold backend, probed. rewrite Hm.
  unfold enumerate, read, contents. cbn. reflexivity.
Qed.

Lemma clear_local st m :
  localStorage st = Some m ->
  clear (storage_only Local) st
  = (Ok tt,
     set_localStorage (Some (delete_all (prefixed_names (probe m)) (probe m))) st).
Proof.
  intros Hm. unfold clear, mbind, M_bind. rewrite getStorage_spec.
  change (default Local (storage (storage_only Local))) with Local.
  unfold backend, probed. rewrite Hm.
  unfold enumerate, read, contents. cbn.
  by rewrite (forEach_removeItem _ _ (probe m)).
Qed.

Lemma no_salt_text st : absent (salt_text st) = true -> persisted_salt P st = None.
Proof.
  unfold persisted_salt, loadSalt, read, salt_text. cbn.
  destruct (localStorage st) as [m|]; [|done]. cbn. by intros ->.
Qed.


End SaltNamespace.



(** * btoa inverts atob on the texts without padding *)

Module Base64More.
Import Base64 Base64Facts.

Lemma value_char (c : ascii) (v : N) :
  b64_value c = Some v ->
  sextet v /\ b64_char v = c /\ is_ascii_whitespace c = false /\ is_pad c = false.
Proof.
  intros H.
  destruct c as [[|] [|] [|] [|] [|] [|] [|] [|]]; vm_compute in H; try discriminate H;
    injection H as <-; repeat split.
Qed.

Lemma values_inv (l : list ascii) (vs : list N) :
  values l = Some vs ->
  Forall sextet vs /\ map b64_char vs = l /\ length vs = length l.
Proof.
  revert vs. induction l as [|c l IH]; intros vs H.
  - injection H as <-. by repeat split.
  - cbn [values] in H. destruct (b64_value c) as [v|] eqn:Hv; [|done].
    destruct (values l) as [vs'|]; [|done]. injection H as <-.
    destruct (value_char c v Hv) as (Hs & Hc & _).
    destruct (IH vs' eq_refl) as (Hall & Hmap & Hlen).
    split; [by constructor|]. cbn. by rewrite Hc, Hmap, Hlen.
Qed.

Lemma list_ind4 {A} (Q : list A -> Prop) :
  Q [] -> (forall a, Q [a]) -> (forall a b, Q [a; b]) -> (forall a b c, Q [a; b; c]) ->
  (forall a b c d l, Q l -> Q (a :: b :: c :: d :: l)) ->
  forall l, Q l.
Proof.
  intros H0 H1 H2 H3 H4. fix IH 1. intros [|a [|b [|c [|d l]]]].
  - exact H0.
  - apply H1.
  - apply H2.
  - apply H3.
  - apply H4, IH.
Qed.

Lemma ungroup (a b c d : N) :
  sextet a -> sextet b -> sextet c -> sextet d ->
  ((a * 4 + b / 16) / 4 = a /\
   ((a * 4 + b / 16) mod 4) * 16 + ((b mod 16) * 16 + c / 4) / 16 = b /\
   (((b mod 16) * 16 + c / 4) mod 16) * 4 + ((c mod 4) * 64 + d) / 64 = c /\
   ((c mod 4) * 64 + d) mod 64 = d /\
   octet (a * 4 + b / 16) /\ octet ((b mod 16) * 16 + c / 4) /\ octet ((c mod 4) * 64 + d))%N.
Proof.
  unfold sextet, octet. intros Ha Hb Hc Hd.
  assert (b / 16 < 4)%N by (apply N.Div0.div_lt_upper_bound; lia).
  assert (c / 4 < 16)%N by (apply N.Div0.div_lt_upper_bound; lia).
  pose proof (N.mod_upper_bound b 16). pose proof (N.mod_upper_bound c 4).
  rewrite !pack_div, !pack_mod by done.
  pose proof (unpack b 16). pose proof (unpack c 4).
  repeat split; lia.
Qed.

(** Whole groups of four 6-bit values. *)
Lemma sextets_octets (vs : list N) :
  Forall sextet vs -> (length vs mod 4 = 0)%nat ->
  sextets (octets vs) = vs /\ Forall octet (octets vs) /\
  (length (octets vs) mod 3 = 0)%nat.
Proof.
  induction vs as [| | | |a b c d l IH] using list_ind4; intros Hall Hlen; try done.
  inversion_clear Hall as [|? ? Ha H1]. inversion_clear H1 as [|? ? Hb H2].
  inversion_clear H2 as [|? ? Hc H3]. inversion_clear H3 as [|? ? Hd Hl].
  destruct (ungroup a b c d Ha Hb Hc Hd) as (E1 & E2 & E3 & E4 & O1 & O2 & O3).
  destruct IH as (IH1 & IH2 & IH3); [done| |].
  { cbn [length] in Hlen.
    replace (S (S (S (S (length l))))) with (length l + 1 * 4)%nat in Hlen by lia.
    by rewrite Nat.Div0.mod_add in Hlen. }
  cbn [octets sextets]. rewrite E1, E2, E3, E4, IH1.
  split; [done|]. split; [by repeat constructor|].
  cbn [length].
  replace (S (S (S (length (octets l))))) with (length (octets l) + 1 * 3)%nat by lia.
  by rewrite Nat.Div0.mod_add.
Qed.

Lemma bytes_of_octets (l : list N) :
  Forall octet l -> map N_of_ascii (map ascii_of_N l) = l.
Proof.
  induction 1 as [|n l Hn _ IH]; [done|].
  cbn [map]. by rewrite N_ascii_embedding, IH.
Qed.

Lemma filter_plain (l : list ascii) :
  Forall (fun c => is_ascii_whitespace c = false) l ->
  List.filter (fun c => negb (is_ascii_whitespace c)) l = l.
Proof. induction 1 as [|c l Hc _ IH]; [done|]. cbn. by rewrite Hc, IH. Qed.

Lemma remove_padding_plain (l : list ascii) :
  Forall (fun c => is_pad c = false) l -> remove_padding l = l.
Proof.
  intros Hall. unfold remove_padding. destruct (length l mod 4 =? 0)%nat; [|done].
  destruct (rev l) as [|p [|q r]] eqn:E; [done..|].
  assert (is_pad p = false) as ->; [|done].
  eapply (proj1 (List.Forall_forall _ _) Hall). apply in_rev. rewrite E. by left.
Qed.

(** A text of [4 n] characters, none of them white space or [=]: what
    [atob] makes of it, [btoa] turns back into the text. *)
Lemma btoa_atob (l : list ascii) (s : string) :
  Forall (fun c => is_ascii_whitespace c = false) l ->
  Forall (fun c => is_pad c = false) l ->
  (length l mod 4 = 0)%nat ->
  atob (string_of_list_ascii l) = Some s ->
  btoa s = string_of_list_ascii l.
Proof.
  intros Hws Hpad Hlen. unfold atob.
  rewrite list_ascii_of_string_of_list_ascii, filter_plain, remove_padding_plain by done.
  rewrite Hlen. cbn [Nat.eqb].
  destruct (values l) as [vs|] eqn:Hv; [|done]. intros [= <-].
  destruct (values_inv l vs Hv) as (Hall & Hmap & Hl).
  destruct (sextets_octets vs Hall) as (E & Hoct & Hmod); [by rewrite Hl|].
  unfold btoa. rewrite list_ascii_of_string_of_list_ascii, bytes_of_octets by done.
  rewrite E, Hmap. unfold padding. rewrite Hmod. by rewrite app_nil_r.
Qed.

(** Such a text of base64 characters is decoded. *)
Lemma atob_defined (l : list ascii) :
  Forall (fun c => is_Some (b64_value c)) l -> (length l mod 4 = 0)%nat ->
  exists s, atob (string_of_list_ascii l) = Some s /\ btoa s = string_of_list_ascii l.
Proof.
  intros Hall.
  assert (Forall (fun c => is_ascii_whitespace c = false) l /\
          Forall (fun c => is_pad c = false) l /\ is_Some (values l)) as (Hws & Hpad & [vs Hv]).
  { induction Hall as [|c l [v Hc] _ IH]; [by repeat split|].
    destruct (value_char c v Hc) as (_ & _ & ? & ?).
    destruct IH as (? & ? & [vs Hvs]).
    split; [by constructor|]. split; [by constructor|].
    cbn [values]. rewrite Hc, Hvs. by eexists. }
  intros Hlen.
  assert (atob (string_of_list_ascii l)
          = Some (string_of_list_ascii (map ascii_of_N (octets vs)))) as Hdec.
  { unfold atob.
    rewrite list_ascii_of_string_of_list_ascii, filter_plain, remove_padding_plain by done.
    rewrite Hlen. cbn [Nat.eqb]. by rewrite Hv. }
  eexists. split; [exact Hdec|]. by apply btoa_atob.
Qed.

End Base64More.

(** * The authenticated cipher of the second platform *)

Module SturdyFacts.
Import Sturdy.

Lemma char_bit_char b : char_bit (bit_char b) = b.
Proof. by destruct b. Qed.

Lemma byte_chars_spec (b : byte) :
  exists c0 c1 c2 c3 c4 c5 c6 c7,
    byte_chars b = [c0; c1; c2; c3; c4; c5; c6; c7] /\
    Forall (fun c => c = "A"%char \/ c = "B"%char) (byte_chars b) /\
    Byte.of_bits (char_bit c0, (char_bit c1, (char_bit c2, (char_bit c3,
                 (char_bit c4, (char_bit c5, (char_bit c6, char_bit c7))))))) = b.
Proof.
  unfold byte_chars. pose proof (Byte.of_bits_to_bits b) as Hb.
  destruct (Byte.to_bits b) as [b0 [b1 [b2 [b3 [b4 [b5 [b6 b7]]]]]]].
  eexists _, _, _, _, _, _, _, _. split; [reflexivity|]. split.
  - cbn [map].
    repeat (apply List.Forall_cons;
            [unfold bit_char;
             match goal with |- context [if ?x then _ else _] => destruct x end; auto|]).
    apply List.Forall_nil.
  - cbn [map]. by rewrite !char_bit_char.
Qed.

Lemma unspell_spell (l : bytes) : unspell (spell l) = l.
Proof.
  induction l as [|b l IH]; [done|].
  unfold spell. cbn [flat_map]. fold (spell l).
  destruct (byte_chars_spec b) as (c0 & c1 & c2 & c3 & c4 & c5 & c6 & c7 & -> & _ & Hb).
  cbn [app unspell]. by rewrite Hb, IH.
Qed.

Lemma spell_letters (l : bytes) : Forall (fun c => c = "A"%char \/ c = "B"%char) (spell l).
Proof.
  induction l as [|b l IH]; [constructor|].
  unfold spell. cbn [flat_map]. apply Forall_app. split; [|exact IH].
  by destruct (byte_chars_spec b) as (? & ? & ? & ? & ? & ? & ? & ? & _ & H & _).
Qed.

Lemma length_spell (l : bytes) : length (spell l) = (8 * length l)%nat.
Proof.
  induction l as [|b l IH]; [done|].
  unfold spell. cbn [flat_map]. fold (spell l). rewrite length_app, IH.
  destruct (byte_chars_spec b) as (? & ? & ? & ? & ? & ? & ? & ? & -> & _).
  cbn [length]. lia.
Qed.

Lemma text_letters k n p :
  Forall (fun c => c = "A"%char \/ c = "B"%char \/ c = "D"%char) (text k n p).
Proof.
  assert (forall l, Forall (fun c => c = "A"%char \/ c = "B"%char \/ c = "D"%char) (spell l))
    as Hsp.
  { intros l. eapply List.Forall_impl; [|apply spell_letters]. intros c [H|H]; auto. }
  unfold text. apply Forall_app. split; [apply Hsp|]. cbn [app].
  do 2 (apply List.Forall_cons; [auto|]).
  apply Forall_app. split; [apply Hsp|]. cbn [app].
  do 2 (apply List.Forall_cons; [auto|]). apply Hsp.
Qed.

Lemma length_text k n p :
  length (text k n p) = (4 * (2 * length k + 2 * length n + 2 * length p + 1))%nat.
Proof. unfold text. rewrite !length_app, !length_spell. cbn [length]. lia. Qed.

Lemma text_base64 k n p : Forall (fun c => is_Some (Base64.b64_value c)) (text k n p).
Proof.
  eapply List.Forall_impl; [|apply text_letters].
  intros c [->|[->| ->]]; by eexists.
Qed.

Lemma length_text_mod k n p : (length (text k n p) mod 4 = 0)%nat.
Proof. rewrite length_text, Nat.mul_comm. apply Nat.Div0.mod_mul. Qed.

(** The base64 text of a ciphertext is the text it was made from. *)
Lemma btoa_encrypt k n p :
  Base64.btoa (string_of_list_byte (encrypt k n p)) = string_of_list_ascii (text k n p).
Proof.
  destruct (Base64More.atob_defined (text k n p) (text_base64 k n p) (length_text_mod k n p))
    as (s & Hs & Hb).
  unfold encrypt. rewrite Hs. cbn [default from_option id].
  by rewrite string_of_list_byte_of_string.
Qed.

Lemma atob_encrypt k n p :
  Base64.atob (string_of_list_ascii (text k n p))
  = Some (string_of_list_byte (encrypt k n p)).
Proof.
  destruct (Base64More.atob_defined (text k n p) (text_base64 k n p) (length_text_mod k n p))
    as (s & Hs & Hb).
  unfold encrypt. rewrite Hs. cbn [default from_option id].
  by rewrite string_of_list_byte_of_string.
Qed.

Lemma text_of_encrypt k n p k' n' p' :
  encrypt k n p = encrypt k' n' p' -> text k n p = text k' n' p'.
Proof.
  intros E.
  rewrite <- (list_ascii_of_string_of_list_ascii (text k n p)).
  rewrite <- (list_ascii_of_string_of_list_ascii (text k' n' p')).
  by rewrite <- !btoa_encrypt, E.
Qed.

(** AES-GCM decrypts what it encrypted: so does this cipher. *)
Lemma sturdy_decrypt_encrypt k n p : decrypt k n (encrypt k n p) = Some p.
Proof.
  unfold decrypt. rewrite btoa_encrypt, list_ascii_of_string_of_list_ascii.
  assert (skipn (8 * length k + 8 * length n + 4) (text k n p) = spell p) as ->.
  { set (pre := (spell k ++ ["D"; "D"]%char ++ spell n ++ ["D"; "D"]%char)%list).
    assert (text k n p = (pre ++ spell p)%list) as ->
      by (unfold pre, text; by rewrite <- !app_assoc).
    assert (length pre = (8 * length k + 8 * length n + 4)%nat) as <-
      by (unfold pre; rewrite !length_app, !length_spell; cbn [length]; lia).
    apply drop_app_length. }
  rewrite unspell_spell. by rewrite bool_decide_eq_true_2.
Qed.

Lemma first_D (l1 l2 r1 r2 : list ascii) :
  ~ In "D"%char l1 -> ~ In "D"%char l2 ->
  (l1 ++ "D"%char :: r1 = l2 ++ "D"%char :: r2)%list -> l1 = l2.
Proof.
  revert l2. induction l1 as [|a l1 IH]; intros [|c l2] H1 H2 E; cbn in E.
  - done.
  - injection E as <- _. destruct H2. by left.
  - injection E as -> _. destruct H1. by left.
  - injection E as -> E. f_equal. apply IH; [| |exact E].
    + intros Hin. apply H1. by right.
    + intros Hin. apply H2. by right.
Qed.

Lemma spell_no_D (l : bytes) : ~ In "D"%char (spell l).
Proof.
  intros Hin. pose proof (proj1 (List.Forall_forall _ _) (spell_letters l) _ Hin) as [H|H];
    discriminate H.
Qed.

Lemma spell_inj (a b : bytes) : spell a = spell b -> a = b.
Proof. intros E. by rewrite <- (unspell_spell a), E, unspell_spell. Qed.

(** A ciphertext is not accepted under another IV. *)
Lemma wrong_nonce k n n' p : n' ≠ n -> decrypt k n' (encrypt k n p) = None.
Proof.
  intros Hne. unfold decrypt. case_bool_decide as E; [|done]. exfalso.
  apply text_of_encrypt in E. unfold text in E.
  apply app_inv_head in E. cbn [app] in E. injection E as E.
  apply first_D in E; [|apply spell_no_D..].
  by apply spell_inj in E.
Qed.

Lemma flip_at_chars (pos i : nat) (s : string) :
  Tamper.flip_at pos i s = s \/
  exists l1 x l2,
    list_ascii_of_string s = (l1 ++ x :: l2)%list /\
    list_ascii_of_string (Tamper.flip_at pos i s) = (l1 ++ Tamper.flip_bit i x :: l2)%list.
Proof.
  revert pos. induction s as [|c r IH]; intros pos; [destruct pos; by left|].
  destruct pos as [|pos]; cbn [Tamper.flip_at].
  - right. by exists [], c, (list_ascii_of_string r).
  - destruct (IH pos) as [->|(l1 & x & l2 & E1 & E2)]; [by left|].
    right. exists (c :: l1), x, l2. cbn. by rewrite E1, E2.
Qed.

(** A letter of a ciphertext text with one bit flipped is no letter of
    such a text, and neither white space nor the padding character. *)
Lemma flip_letter (x : ascii) (i : nat) :
  x = "A"%char \/ x = "B"%char \/ x = "D"%char ->
  Base64.is_ascii_whitespace (Tamper.flip_bit i x) = false /\
  Base64.is_pad (Tamper.flip_bit i x) = false /\
  ~ (Tamper.flip_bit i x = "A"%char \/ Tamper.flip_bit i x = "B"%char \/
     Tamper.flip_bit i x = "D"%char).
Proof.
  intros [->|[->| ->]]; destruct i as [|[|[|[|[|[|[|?]]]]]]]; vm_compute;
    (split; [reflexivity|]); (split; [reflexivity|]); intros [H|[H|H]]; discriminate H.
Qed.

Lemma letters_plain (l : list ascii) :
  Forall (fun c => c = "A"%char \/ c = "B"%char \/ c = "D"%char) l ->
  Forall (fun c => Base64.is_ascii_whitespace c = false) l /\
  Forall (fun c => Base64.is_pad c = false) l.
Proof.
  induction 1 as [|c l Hc _ [IH1 IH2]]; [by split|].
  split; constructor; try done; by destruct Hc as [->|[->| ->]].
Qed.

(** A ciphertext whose text has had one bit flipped is not accepted. *)
Lemma wrong_ciphertext k n p (c' cb : string) :
  Tamper.flipped (string_of_list_ascii (text k n p)) c' ->
  Base64.atob c' = Some cb ->
  list_byte_of_string cb ≠ encrypt k n p ->
  decrypt k n (list_byte_of_string cb) = None.
Proof.
  intros (pos & i & ->) Hdec Hne.
  destruct (flip_at_chars pos i (string_of_list_ascii (text k n p)))
    as [E|(l1 & x & l2 & E1 & E2)].
  { rewrite E, atob_encrypt in Hdec. injection Hdec as <-.
    by rewrite list_byte_of_string_of_list_byte in Hne. }
  rewrite list_ascii_of_string_of_list_ascii in E1.
  pose proof (text_letters k n p) as Hall. rewrite E1 in Hall.
  apply Forall_app in Hall as [Hl1 Hall]. apply Forall_cons in Hall as [Hx Hl2].
  destruct (flip_letter x i Hx) as (Hws & Hpad & Hout).
  destruct (letters_plain l1 Hl1) as [Hw1 Hp1]. destruct (letters_plain l2 Hl2) as [Hw2 Hp2].
  set (l' := (l1 ++ Tamper.flip_bit i x :: l2)%list) in *.
  assert (Tamper.flip_at pos i (string_of_list_ascii (text k n p)) = string_of_list_ascii l')
    as Hc' by (by rewrite <- E2, string_of_list_ascii_of_string).
  rewrite Hc' in Hdec.
  assert (Base64.btoa cb = string_of_list_ascii l') as Hback.
  { apply Base64More.btoa_atob; [| | |exact Hdec].
    - apply Forall_app. split; [done|]. by constructor.
    - apply Forall_app. split; [done|]. by constructor.
    - replace (length l') with (length (text k n p)); [apply length_text_mod|].
      rewrite E1. unfold l'. by rewrite !length_app. }
  unfold decrypt.
  set (p' := unspell _).
  case_bool_decide as E; [|done]. exfalso.
  assert (Base64.btoa cb = string_of_list_ascii (text k n p')) as Hgen
    by (by rewrite <- btoa_encrypt, <- E, string_of_list_byte_of_string).
  rewrite Hgen in Hback.
  apply (f_equal list_ascii_of_string) in Hback.
  rewrite !list_ascii_of_string_of_list_ascii in Hback.
  pose proof (text_letters k n p') as Hall'.
  rewrite Hback in Hall'. unfold l' in Hall'.
  apply Forall_app in Hall' as [_ Hall']. apply Forall_cons in Hall' as [Hx' _].
  by apply Hout.
Qed.

(** AES-GCM authenticates the ciphertext and the IV: so does this cipher,
    for every single-bit modification of the base64 text of one of them
    that decodes to other bytes. *)
Lemma tamper_evident (k nonce plaintext : bytes) (c' i' cb ib : string) :
  Tamper.tampered (CryptoService.arrayBufferToBase64 (encrypt k nonce plaintext))
    (CryptoService.arrayBufferToBase64 nonce) c' i' ->
  Base64.atob c' = Some cb -> Base64.atob i' = Some ib ->
  (list_byte_of_string ib, list_byte_of_string cb) ≠ (nonce, encrypt k nonce plaintext) ->
  decrypt k (list_byte_of_string ib) (list_byte_of_string cb) = None.
Proof.
  unfold CryptoService.arrayBufferToBase64.
  intros [[Hflip ->]|[-> Hflip]] Hc Hi Hne.
  - rewrite Base64Facts.atob_btoa in Hi. injection Hi as <-.
    rewrite list_byte_of_string_of_list_byte in Hne |- *.
    rewrite btoa_encrypt in Hflip.
    apply (wrong_ciphertext k nonce plaintext c' cb Hflip Hc).
    intros E. apply Hne. by rewrite E.
  - rewrite Base64Facts.atob_btoa in Hc. injection Hc as <-.
    rewrite list_byte_of_string_of_list_byte in Hne |- *.
    apply wrong_nonce. intros E. apply Hne. by rewrite E.
Qed.

End SturdyFacts.

(** * Tampering with a stored payload *)

Section Tampering.
Import CryptoService SecureStorageService StorageFacts ServiceFacts.
Context (P : Platform).

Lemma decrypted_payload (p : EncryptedPayload) (k : CryptoKey) :
  decrypted P (Some (payload_object p)) k = opened P (ciphertext p) (iv p) k.
Proof. unfold decrypted. by destruct (CryptoFacts.payload_fields p) as [-> ->]. Qed.

Hypothesis subtle_decrypt_encrypt :
  forall key nonce plaintext,
    subtle_decrypt P key nonce (subtle_encrypt P key nonce plaintext) = Some plaintext.
Hypothesis text_decode_encode : forall s, text_decode P (text_encode P s) = s.

(** AES-GCM authenticates the ciphertext and the IV: after a single-bit
    modification of the base64 text of one of them, bytes that are no
    longer those of the encryption are rejected, for every key, IV and
    plaintext. *)
Hypothesis tamper_evident :
  forall (k nonce plaintext : bytes) (c' i' cb ib : string),
    Tamper.tampered (arrayBufferToBase64 (subtle_encrypt P k nonce plaintext))
      (arrayBufferToBase64 nonce) c' i' ->
    Base64.atob c' = Some cb -> Base64.atob i' = Some ib ->
    (list_byte_of_string ib, list_byte_of_string cb)
      ≠ (nonce, subtle_encrypt P k nonce plaintext) ->
    subtle_decrypt P k (list_byte_of_string ib) (list_byte_of_string cb) = None.

(** C3, as amended. A stored Encrypted entry, made by [encrypt] of a
    value under the key of the service, after a single-bit modification of
    its [ciphertext] or of its [iv]. At the primitives layer [decrypt]
    fails with an InvalidCharacterError when the text is no longer base64,
    and with the OperationError of the platform when it decodes to other
    bytes than before, which AES-GCM rejects; it returns a value only when
    the text still decodes to the same bytes, and then the value that was
    encrypted: never another one. At the storage layer every such failure
    makes [get] return absent and remove the entry, and [has] is false
    afterwards. *)
Theorem C3_tamper_detection (st : State) (key : string) (options : SecureStorageOptions)
    (value : json) (k : CryptoKey) (s : option Uint8Array) (nonce : bytes)
    (c' i' : string) (item : json) :
  let p := sealed P value k s nonce in
  let p' := {| ciphertext := c'; iv := i'; salt := salt p; algorithm := algorithm p |} in
  let type := default Local (storage options) in
  let r := opened P c' i' k in
  subtle st = true -> encryptionKey st = Some k ->
  Tamper.tampered (ciphertext p) (iv p) c' i' ->
  stored type key st = Some (JSON.stringify item) ->
  item ≠ JNull -> JS.truthy (field item "encrypted") = true ->
  field item "payload" = Some (payload_object p') ->
  decrypt P (Some (payload_object p')) k st = (r, st) /\
  (r = Ok value \/ r = Throw InvalidCharacterError \/ r = Throw OperationError) /\
  (r = Throw InvalidCharacterError <-> Base64.atob c' = None \/ Base64.atob i' = None) /\
  (r = Ok value <->
   Base64.atob c' = Base64.atob (ciphertext p) /\ Base64.atob i' = Base64.atob (iv p)) /\
  (forall v', r = Ok v' -> v' = value) /\
  (forall err,
     r = Throw err ->
     exists st', get P key options st = (Ok None, st') /\ stored type key st' = None /\
       forall m, (has P key options (later m st')).1 = Ok false).
Proof.
  intros p p' type r Hs Hk Htam Hst Hnull Henc Hpay.
  set (plaintext := text_encode P (JSON.stringify value)).
  set (ct := subtle_encrypt P k nonce plaintext).
  assert (Base64.atob (ciphertext p) = Some (string_of_list_byte ct)) as Hc0
    by apply Base64Facts.atob_btoa.
  assert (Base64.atob (iv p) = Some (string_of_list_byte nonce)) as Hi0
    by apply Base64Facts.atob_btoa.
  assert ((r = Ok value /\ Base64.atob c' = Base64.atob (ciphertext p) /\
           Base64.atob i' = Base64.atob (iv p)) \/
          (r = Throw InvalidCharacterError /\
           (Base64.atob c' = None \/ Base64.atob i' = None)) \/
          (r = Throw OperationError /\ is_Some (Base64.atob c') /\ is_Some (Base64.atob i') /\
           ~ (Base64.atob c' = Base64.atob (ciphertext p) /\
              Base64.atob i' = Base64.atob (iv p)))) as Hcases.
  { unfold r, opened.
    destruct (Base64.atob c') as [cb|] eqn:Hc; [|right; left; auto].
    destruct (Base64.atob i') as [ib|] eqn:Hi; [|right; left; auto].
    destruct (decide (list_byte_of_string ib = nonce)) as [Eib|Nib];
      [destruct (decide (list_byte_of_string cb = ct)) as [Ecb|Ncb]|].
    - left. rewrite Eib, Ecb. unfold ct, plaintext.
      rewrite subtle_decrypt_encrypt, text_decode_encode, JSONFacts.parse_stringify.
      split; [done|]. rewrite Hc0, Hi0. fold plaintext. fold ct.
      by rewrite <- Eib, <- Ecb, !string_of_list_byte_of_string.
    - right. right.
      rewrite (tamper_evident k nonce plaintext c' i' cb ib Htam Hc Hi)
        by (intros [= _ E]; by apply Ncb).
      split; [done|]. split; [by eexists|]. split; [by eexists|].
      rewrite Hc0. intros [[= E] _]. apply Ncb. subst cb.
      apply list_byte_of_string_of_list_byte.
    - right. right.
      rewrite (tamper_evident k nonce plaintext c' i' cb ib Htam Hc Hi)
        by (intros [= E _]; by apply Nib).
      split; [done|]. split; [by eexists|]. split; [by eexists|].
      rewrite Hi0. intros [_ [= E]]. apply Nib. subst ib.
      apply list_byte_of_string_of_list_byte. }
  split; [by rewrite CryptoFacts.decrypt_spec|].
  split.
  { destruct Hcases as [(? & _)|[(? & _)|(? & _)]]; auto. }
  split.
  { destruct Hcases as [(-> & E1 & E2)|[(-> & H)|(-> & [? E1] & [? E2] & _)]].
    - split; [done|]. rewrite E1, E2, Hc0, Hi0. by intros [|].
    - done.
    - split; [done|]. rewrite E1, E2. by intros [|]. }
  split.
  { destruct Hcases as [(-> & E1 & E2)|[(-> & H)|(-> & _ & _ & H)]].
    - done.
    - split; [done|]. intros [E1 E2]. rewrite E1, E2, Hc0, Hi0 in H. by destruct H.
    - split; [done|]. intros E. by destruct H. }
  split.
  { intros v' Hv'.
    destruct Hcases as [(E & _)|[(E & _)|(E & _)]]; rewrite E in Hv'; congruence. }
  intros err Herr.
  destruct (get_undecryptable P st key options (JSON.stringify item) item err)
    as [st0 Hget]; try done.
  - pose proof (stringify_not_empty item) as Hne. intros E. rewrite E in Hne. done.
  - apply JSONFacts.parse_stringify.
  - unfold mayEncrypt. rewrite Hs, Hk. by rewrite bool_decide_eq_true_2.
  - rewrite Hpay, Hk. cbn [default]. by rewrite decrypted_payload.
  - eexists. split; [exact Hget|]. split; [apply stored_removed|].
    intros m. apply gone. apply stored_removed.
Qed.

End Tampering.

(** C3 on the platform with the authenticated cipher: the stored entry of
    [Sturdy.stored_5] with bit 0 of the first character of its ciphertext
    flipped. [decrypt] fails with the OperationError, [get] returns absent
    and the entry is removed. *)
Lemma C3_tamper_detection_witness :
  Tamper.flip_at 43 0 (default "" (SecureStorageService.stored Local "k" Sturdy.stored_5))
    = JSON.stringify Sturdy.tampered_item /\
  CryptoService.decrypt Sturdy.platform
    (Some (CryptoService.payload_object Sturdy.tampered_payload)) [x01] Sturdy.tampered
    = (Throw OperationError, Sturdy.tampered) /\
  exists st',
    SecureStorageService.get Sturdy.platform "k" no_options Sturdy.tampered = (Ok None, st') /\
    SecureStorageService.stored Local "k" st' = None.
Proof.
  split; [vm_compute; reflexivity|].
  destruct (C3_tamper_detection Sturdy.platform SturdyFacts.sturdy_decrypt_encrypt
              ToyFacts.decode_encode SturdyFacts.tamper_evident
              Sturdy.tampered "k" no_options (JNum 5) [x01] None
              (CryptoService.fresh_bytes Sturdy.platform 12 Toy.fresh)
              (ciphertext Sturdy.tampered_payload) (iv Sturdy.tampered_payload)
              Sturdy.tampered_item)
    as (Hdec & _ & _ & _ & _ & H).
  - vm_compute. reflexivity.
  - vm_compute. reflexivity.
  - left. split; [by exists 0%nat, 0%nat|reflexivity].
  - apply StorageFacts.stored_written.
  - discriminate.
  - reflexivity.
  - reflexivity.
  - assert (CryptoService.opened Sturdy.platform (ciphertext Sturdy.tampered_payload)
              (iv Sturdy.tampered_payload) [x01] = Throw OperationError) as Hr
      by (vm_compute; reflexivity).
    split; [by rewrite <- Hr|].
    destruct (H OperationError Hr) as (st' & Hget & Hgone & _). by exists st'.
Defined.

(** C3 as stated fails: flipping bit 3 of the last character before the
    padding of the stored ciphertext, [g] to [o], changes only bits that
    base64 decoding drops; the payload decrypts without any error and
    [get] returns the value, not absent. *)
Lemma C3_counterexample :
  exists raw tampered item,
    SecureStorageService.stored Local "k" Toy.stored_123 = Some raw /\
    tampered = Tamper.flip_at 68 3 raw /\
    tampered ≠ raw /\
    JSON.parse tampered = Some item /\
    (CryptoService.decrypt Toy.platform (SecureStorageService.field item "payload")
       (default [] (encryptionKey Toy.stored_123)) Toy.stored_123).1 = Ok (JNum 123) /\
    (SecureStorageService.get Toy.platform "k" no_options
       (SecureStorageService.written Local "k" tampered Toy.stored_123)).1
      = Ok (Some (JNum 123)).
Proof.
  eexists _, _, _.
  split; [vm_compute; reflexivity|].
  split; [reflexivity|].
  split; [vm_compute; discriminate|].
  split; [vm_compute; reflexivity|].
  split; vm_compute; reflexivity.
Qed.

(** * Key rotation where the browser storage cannot be used *)

(** C9 fails on the code where localStorage cannot be used and [getStorage]
    falls back on the memory wrapper: [keys] on 'local' then loops over
    the [length] of the wrapper, which it does not have, and returns no
    name although an entry is readable; [rotateKey] re-encrypts nothing,
    switches to the new key, and the entry written under the old key is no
    longer readable: [get] returns absent, and has removed it. *)
Lemma C9_rotation_loses_entries :
  let st0 :=
    ((SecureStorageService.initialize Toy.platform Toy.session_key;;
      SecureStorageService.set Toy.platform "a" (JNum 1) (storage_only Local))
       Toy.storageless).2 in
  let st1 := (SecureStorageService.rotateKey Toy.platform Toy.session_key Local st0).2 in
  let st2 := (SecureStorageService.get Toy.platform "a" (storage_only Local) st1).2 in
  (SecureStorageService.get Toy.platform "a" (storage_only Local) st0).1 = Ok (Some (JNum 1)) /\
  (SecureStorageService.keys (storage_only Local) st0).1 = Ok [] /\
  (SecureStorageService.rotateKey Toy.platform Toy.session_key Local st0).1 = Ok tt /\
  (SecureStorageService.get Toy.platform "a" (storage_only Local) st1).1 = Ok None /\
  SecureStorageService.stored Local "a" st2 = None.
Proof. vm_compute. repeat split. Qed.

(** * Key rotation on a storage that can be enumerated *)

Section Rotation.
Import SecureStorageService StorageFacts ServiceFacts.
Context (P : Platform).

Lemma NoDup_prefixed_names (m : gmap string string) : NoDup (prefixed_names m).
Proof.
  apply NoDup_ListNoDup, List.NoDup_filter, NoDup_ListNoDup, NoDup_fst_map_to_list.
Qed.

Lemma prefixed_names_prefixed (m : gmap string string) (name : string) :
  name ∈ prefixed_names m -> name = prefix ++ string_drop (String.length prefix) name.
Proof.
  intros Hin%list_elem_of_In. apply filter_In in Hin as [_ Hp].
  unfold startsWith in Hp. destruct (JSON.strip prefix name) as [r|] eqn:E; [|done].
  apply Str.strip_inv in E as ->. by rewrite Str.string_drop_app.
Qed.

Lemma NoDup_dropped (l : list string) :
  (forall name, name ∈ l -> name = prefix ++ string_drop (String.length prefix) name) ->
  NoDup l -> NoDup (map (string_drop (String.length prefix)) l).
Proof.
  intros Hp. induction 1 as [|x l Hx Hl IH]; [constructor|].
  cbn [map]. constructor.
  - intros Hin. apply list_elem_of_In, in_map_iff in Hin as (y & Hy & Hin%list_elem_of_In).
    apply Hx. rewrite (Hp x) by left. rewrite <- Hy. by rewrite <- (Hp y) by by right.
  - apply IH. intros name Hin. apply Hp. by right.
Qed.

(** [keys] on a storage that can be enumerated: no name twice, and the
    name of every entry. *)
Lemma keys_enumerable (type : StorageType) (st : State) :
  enumerable type st ->
  exists names,
    keys (storage_only type) st = (Ok names, probed type st) /\
    NoDup names /\
    forall key raw, stored type key st = Some raw -> key ∈ names.
Proof.
  intros Hen.
  exists (map (string_drop (String.length prefix))
            (prefixed_names (contents (backend type st) (probed type st)))).
  split; [|split].
  - unfold keys, mbind, M_bind. rewrite getStorage_spec.
    change (default Local (storage (storage_only type))) with type.
    unfold enumerate, read, prefixed_names.
    destruct type; try reflexivity.
    + destruct Hen as [m Hm]. unfold backend. by rewrite Hm.
    + destruct Hen as [m Hm]. unfold backend. by rewrite Hm.
  - apply NoDup_dropped; [apply prefixed_names_prefixed|apply NoDup_prefixed_names].
  - intros key raw Hst. apply list_elem_of_In, in_map_iff.
    exists (getPrefixedKey key). split; [apply (Str.string_drop_app prefix key)|].
    apply (prefixed_names_in _ key raw).
    rewrite contents_probed by apply prefixed_not_testKey. exact Hst.
Qed.

Lemma reads_same_key st st' raw v :
  encryptionKey st' = encryptionKey st -> reads P st raw v -> reads P st' raw v.
Proof.
  intros Hk (item & e & ? & ? & ? & Hread). exists item, e.
  repeat split; try done. by rewrite Hk.
Qed.

(** The first loop of [rotateKey]: every entry the key reads is
    collected with its value. *)
Lemma collect_spec (type : StorageType) (names : list string) (st : State) :
  mayEncrypt st = true ->
  exists items st2,
    collect P type names st = (Ok items, st2) /\
    subtle st2 = subtle st /\ encryptionKey st2 = encryptionKey st /\
    (forall key, key ∈ items.*1 -> key ∈ names) /\
    (NoDup names -> NoDup items.*1) /\
    (forall key raw v,
        key ∈ names -> stored type key st = Some raw -> raw ≠ "" -> reads P st raw v ->
        (key, v) ∈ items).
Proof.
  revert st. induction names as [|name names IH]; intros st Hmay.
  - exists [], st. do 4 (split; [done|]). split; [intros _; constructor|].
    intros key raw v Hin. by apply elem_of_nil in Hin.
  - cbn [collect]. unfold mbind at 1, M_bind at 1.
    pose proof (get_frames P name (storage_only type) st) as (Hs & Hk & Hb & Hfr).
    change (default Local (storage (storage_only type))) with type in Hfr.
    destruct (get_total P name (storage_only type) st) as (value & st1 & Hget).
    rewrite Hget in Hs, Hk, Hb, Hfr |- *. cbn [snd] in Hs, Hk, Hb, Hfr.
    assert (mayEncrypt st1 = true) as Hmay1 by (unfold mayEncrypt in *; by rewrite Hs, Hk).
    destruct (IH st1 Hmay1) as (items & st2 & Hcol & Hs2 & Hk2 & Hsub & Hnd & Hall).
    unfold mbind, M_bind. rewrite Hcol. unfold mret, M_ret.
    eexists _, st2. split; [reflexivity|].
    split; [by rewrite Hs2|]. split; [by rewrite Hk2|].
    split; [|split].
    + intros key Hin. destruct value as [v|]; [|right; by apply Hsub].
      cbn in Hin. apply elem_of_cons in Hin as [->|Hin]; [by left|right; by apply Hsub].
    + intros Hnames. apply NoDup_cons in Hnames as [Hnot Hnames].
      destruct value as [v|]; [|by apply Hnd].
      cbn. apply NoDup_cons. split; [|by apply Hnd].
      intros Hin. by apply Hnot, Hsub.
    + intros key raw v Hin Hst Hraw Hreads.
      destruct (decide (key = name)) as [->|Hne].
      * rewrite (get_reads P name (storage_only type) st raw v) in Hget by done.
        injection Hget as <- _. by left.
      * apply elem_of_cons in Hin as [->|Hin]; [done|].
        assert ((key, v) ∈ items) as Hitem.
        { apply (Hall key raw v Hin); [by rewrite Hfr|done|].
          by apply (reads_same_key st). }
        destruct value; [by right|done].
Qed.

(** The second loop of [rotateKey]: every collected pair is written
    with the key of the state, which the loop does not change. *)
Lemma forEach_set_spec (type : StorageType) (items : list (string * json)) (st : State) :
  NoDup items.*1 ->
  exists st',
    forEach items (fun '(key, value) => set P key value (storage_only type)) st
      = (Ok tt, st') /\
    subtle st' = subtle st /\ encryptionKey st' = encryptionKey st /\
    (forall key, key ∉ items.*1 -> stored type key st' = stored type key st) /\
    (forall key v,
        (key, v) ∈ items ->
        exists st_w,
          stored type key st' = Some (JSON.stringify (item_of P v (storage_only type) st_w)) /\
          subtle st_w = subtle st /\ encryptionKey st_w = encryptionKey st).
Proof.
  revert st. induction items as [|[key value] items IH]; intros st Hnd.
  - exists st. do 4 (split; [done|]). intros key v Hin. by apply elem_of_nil in Hin.
  - cbn in Hnd. apply NoDup_cons in Hnd as [Hnot Hnd].
    cbn [forEach]. unfold mbind, M_bind. rewrite set_spec.
    change (default Local (storage (storage_only type))) with type.
    set (raw := JSON.stringify (item_of P value (storage_only type) st)).
    set (st1 := written type key raw (consumed (storage_only type) st)).
    assert (frames type key st st1) as (Hs1 & Hk1 & _ & Hfr1).
    { eapply frames_trans; [|apply frames_written].
      unfold consumed. by destruct (_ && _). }
    destruct (IH st1 Hnd) as (st' & Hrun & Hs & Hk & Hout & Hin).
    exists st'. split; [exact Hrun|].
    split; [by rewrite Hs|]. split; [by rewrite Hk|]. split.
    + intros key' Hnot'. cbn in Hnot'. apply not_elem_of_cons in Hnot' as [Hne Hnot'].
      rewrite Hout by done. by apply Hfr1.
    + intros key' v Hin'. apply elem_of_cons in Hin' as [[= -> ->]|Hin'].
      * exists st. split; [|done]. rewrite Hout by done. apply stored_written.
      * destruct (Hin key' v Hin') as (st_w & Hst & Hsw & Hkw).
        exists st_w. split; [done|]. split; [by rewrite Hsw|by rewrite Hkw].
Qed.

Hypothesis subtle_decrypt_encrypt :
  forall key nonce plaintext,
    subtle_decrypt P key nonce (subtle_encrypt P key nonce plaintext) = Some plaintext.
Hypothesis text_decode_encode : forall s, text_decode P (text_encode P s) = s.


End Rotation.


(** [rotateKey] re-writes every pair with the storage type as its only
    option: an entry set with a version is read with that version before
    the rotation and not after it. *)
Lemma rotateKey_drops_version :
  let versioned := {| ttl := None; storage := None; version := Some 1; encrypt := None |} in
  let st0 :=
    ((SecureStorageService.initialize Toy.platform Toy.session_key;;
      SecureStorageService.set Toy.platform "a" (JNum 1) versioned) Toy.fresh).2 in
  let st1 := (SecureStorageService.rotateKey Toy.platform Toy.session_key Local st0).2 in
  (SecureStorageService.get Toy.platform "a" versioned st0).1 = Ok (Some (JNum 1)) /\
  (SecureStorageService.get Toy.platform "a" versioned st1).1 = Ok None.
Proof. vm_compute. split; reflexivity. Qed.

(** * Edges of the conditions above *)

(** A ttl of 0 is no ttl: [set] leaves [expiresAt] out and the entry is
    read at any later moment. *)
Lemma ttl_zero_never_expires :
  let st1 :=
    (SecureStorageService.set Toy.platform "k" (JStr "v")
       {| ttl := Some 0; storage := None; version := None; encrypt := None |} Toy.fresh).2 in
  (exists item,
     SecureStorageService.stored Local "k" st1 = Some (JSON.stringify item) /\
     SecureStorageService.field item "expiresAt" = None) /\
  (SecureStorageService.get Toy.platform "k" no_options
     (SecureStorageService.later 1000 st1)).1 = Ok (Some (JStr "v")).
Proof.
  split; [|vm_compute; reflexivity].
  exists (SecureStorageService.item_of Toy.platform (JStr "v")
            {| ttl := Some 0; storage := None; version := None; encrypt := None |} Toy.fresh).
  split; vm_compute; reflexivity.
Qed.

(** Where localStorage cannot be used the salt is not persisted: after
    [destroy], the same password derives another key and the entry kept
    in the memory map is no longer read. *)
Lemma password_cycle_without_localStorage :
  ((SecureStorageService.initialize Toy.platform (password_mode "abc123");;
    SecureStorageService.set Toy.platform "token" (JObj [("jwt", JStr "xyz")]) no_options;;
    SecureStorageService.destroy;;
    SecureStorageService.initialize Toy.platform (password_mode "abc123");;
    SecureStorageService.get Toy.platform "token" no_options) Toy.storageless).1
  = Ok None.
Proof. vm_compute. reflexivity. Qed.

(** * Writing and reading back *)

Section SetThenGet.
Import SecureStorageService StorageFacts ServiceFacts.
Context (P : Platform).

Hypothesis subtle_decrypt_encrypt :
  forall key nonce plaintext,
    subtle_decrypt P key nonce (subtle_encrypt P key nonce plaintext) = Some plaintext.
Hypothesis text_decode_encode : forall s, text_decode P (text_encode P s) = s.

(** [get] on the text of an item that [set] wrote, at a moment when the
    item has not expired, with the key the item was written with: the
    value, and the entry stays. *)
Lemma get_live key value options options' st st' :
  let type := default Local (storage options) in
  let raw := JSON.stringify (item_of P value options st) in
  stored type key st' = Some raw ->
  (forall e, expiresAt_of P options st = Some e -> clock P (clock_reads st') <= e) ->
  default Local (storage options') = type ->
  version options' = None \/ version options' = version options ->
  (default true (encrypt options) && mayEncrypt st = true ->
   subtle st' = true /\ encryptionKey st' = encryptionKey st) ->
  exists st2,
    get P key options' st' = (Ok (Some value), st2) /\
    stored type key st2 = Some raw /\
    subtle st2 = subtle st' /\ encryptionKey st2 = encryptionKey st'.
Proof.
  intros type raw Hst Hlive Htype Hver Hkey.
  destruct (item_of_fields P value options st) as (He & Hv & Henc & Hval & Hpay).
  destruct (same_service_probed type st') as (Hs' & Hk' & _ & _ & _ & Hc' & _).
  set (e := JNum <$> expiresAt_of P options st) in He.
  set (st1 := if JS.truthy e then tick (probed type st') else probed type st').
  assert (subtle st1 = subtle st' /\ encryptionKey st1 = encryptionKey st' /\
          stored type key st1 = Some raw) as (Hs1 & Hk1 & Hst1).
  { unfold st1. destruct (JS.truthy e); repeat split; try done.
    - change (stored type key (tick (probed type st'))) with (stored type key (probed type st')).
      by rewrite stored_probed.
    - by rewrite stored_probed. }
  exists st1. split; [|by repeat split].
  eapply get_returned; rewrite Htype, Hst; [apply stringify_not_empty|].
  cbn [default from_option id]. erewrite retrieve_spec; [|apply JSONFacts.parse_stringify|exact He].
  assert (JS.truthy e && JS.gt (clock P (clock_reads (probed type st'))) e = false) as ->.
  { rewrite Hc'. unfold e. destruct (expiresAt_of P options st) as [x|]; [|done].
    cbn. apply andb_false_iff. right. apply Z.ltb_ge. by apply Hlive. }
  cbv zeta. fold st1. rewrite Hv, Henc, Hval, Hpay.
  assert (match version options' with
          | Some v => JS.strict_neq (JNum <$> version options) v
          | None => false
          end = false) as ->.
  { destruct Hver as [->| ->]; [done|].
    destruct (version options); [apply strict_neq_same|done]. }
  destruct (default true (encrypt options) && mayEncrypt st) eqn:Eenc; [|done].
  destruct (Hkey eq_refl) as [Hs Hk].
  assert (mayEncrypt st1 = true) as ->.
  { apply andb_prop in Eenc as [_ [_ Hm]%andb_prop]. unfold mayEncrypt.
    by rewrite Hs1, Hk1, Hs, Hk. }
  cbn [JS.truthy]. rewrite CryptoFacts.decrypt_spec by by rewrite Hs1.
  rewrite Hk1, Hk. by rewrite CryptoFacts.opened_sealed.
Qed.

Lemma set_keeps_key key value options st :
  subtle (set P key value options st).2 = subtle st /\
  encryptionKey (set P key value options st).2 = encryptionKey st.
Proof. by destruct (set_frames P key value options st) as (? & ? & _). Qed.

Lemma stored_written_other type type' key key' raw st :
  key' ≠ key -> stored type' key' (written type key raw st) = stored type' key' st.
Proof.
  intros Hne.
  assert (getPrefixedKey key ≠ getPrefixedKey key') as Hp
    by (intros E; by apply prefixed_inj in E).
  pose proof (prefixed_not_testKey key') as Ht.
  unfold stored, written.
  destruct st as [? ? ? ? ? [?|] [?|] ? ?]; destruct type, type'; cbn;
    rewrite ?lookup_insert_ne by done; try done; by apply lookup_probe.
Qed.

(** X4. [set] then [get] with the same options returns the value,
    encrypted or not, in whatever state [set] ran (so also over an older
    entry of the same key, which the new one replaces): at any later
    moment with no ttl, and with a ttl at any moment when the clock has
    not passed [expiresAt]; [has] is then true. *)
Theorem set_then_get (st : State) (key : string) (value : json)
    (options : SecureStorageOptions) (n : nat) :
  (forall e, expiresAt_of P options st = Some e -> clock P n <= e) ->
  exists st1 st2,
    set P key value options st = (Ok tt, st1) /\
    get P key options (later n st1) = (Ok (Some value), st2) /\
    (has P key options (later n st1)).1 = Ok true.
Proof.
  intros Hlive.
  destruct (set_keeps_key key value options st) as [Hs Hk].
  rewrite set_spec in Hs, Hk |- *. cbn [snd] in Hs, Hk.
  set (st1 := written _ _ _ _) in *.
  destruct (get_live key value options options st (later n st1)) as (st2 & Hget & _).
  - apply stored_written.
  - exact Hlive.
  - reflexivity.
  - by right.
  - intros [_ [Hsub _]%andb_prop]%andb_prop. split.
    + change (subtle (later n st1)) with (subtle st1). by rewrite Hs.
    + change (encryptionKey (later n st1)) with (encryptionKey st1). by rewrite Hk.
  - exists st1, st2. split; [reflexivity|]. split; [exact Hget|].
    unfold has, mbind, M_bind. by rewrite Hget.
Qed.

(** X6. A [set] on another key, in any storage and with any options,
    does not disturb an entry: [set(k, v)], then [set(k', v')] with
    [k' ≠ k], then [get(k)] returns [v]. *)
Theorem set_other_key_keeps (st : State) (key key' : string) (value value' : json)
    (options options' : SecureStorageOptions) :
  key' ≠ key -> ttl options = None ->
  exists st',
    (set P key value options;; set P key' value' options';; get P key options) st
    = (Ok (Some value), st').
Proof.
  intros Hne Httl. unfold mbind at 1, M_bind at 1. rewrite set_spec.
  unfold mbind at 1, M_bind at 1. rewrite set_spec.
  set (st1 := written (default Local (storage options)) key _ _).
  set (st2 := written (default Local (storage options')) key' _ _).
  destruct (set_keeps_key key value options st) as [Hs1 Hk1].
  rewrite set_spec in Hs1, Hk1. cbn [snd] in Hs1, Hk1. fold st1 in Hs1, Hk1.
  destruct (set_keeps_key key' value' options' st1) as [Hs2 Hk2].
  rewrite set_spec in Hs2, Hk2. cbn [snd] in Hs2, Hk2. fold st2 in Hs2, Hk2.
  destruct (get_live key value options options st st2) as (st3 & Hget & _).
  - unfold st2. rewrite stored_written_other by done.
    assert (stored (default Local (storage options)) key
              (consumed options' st1)
            = stored (default Local (storage options)) key st1) as ->
      by (unfold consumed; by destruct (_ && _)).
    apply stored_written.
  - intros e He. unfold expiresAt_of in He. by rewrite Httl in He.
  - reflexivity.
  - by right.
  - intros [_ [Hsub _]%andb_prop]%andb_prop. split.
    + by rewrite Hs2, Hs1.
    + by rewrite Hk2, Hk1.
  - by exists st3.
Qed.


End SetThenGet.

(** * What a read and a removal leave alone *)

Section Touches.
Import SecureStorageService StorageFacts ServiceFacts.
Context (P : Platform).

Lemma touches_refl type key st : touches type key st st.
Proof. repeat split; try done. by left. Qed.

Lemma touches_trans type key st1 st2 st3 :
  touches type key st1 st2 -> touches type key st2 st3 -> touches type key st1 st3.
Proof.
  intros (Hs & Hk & Hsa & Hi & Hd & Hb & Ho & Hown)
         (Hs' & Hk' & Hsa' & Hi' & Hd' & Hb' & Ho' & Hown').
  split; [by rewrite Hs'|]. split; [by rewrite Hk'|]. split; [by rewrite Hsa'|].
  split; [by rewrite Hi'|]. split; [by rewrite Hd'|].
  split; [intros t; by rewrite Hb'|].
  split; [intros t k Hne; by rewrite Ho', Ho|].
  destruct Hown' as [->|Hgone]; [exact Hown|by right].
Qed.

Lemma touches_probed type key type' st : touches type key st (probed type' st).
Proof.
  destruct (same_service_probed type' st) as (? & ? & ? & ? & ? & _ & ?).
  repeat split; try done.
  - intros t k _. apply stored_probed.
  - left. apply stored_probed.
Qed.

Lemma touches_tick type key st : touches type key st (tick st).
Proof. repeat split; try done. by left. Qed.

Lemma touches_later type key n st : touches type key st (later n st).
Proof. repeat split; try done. by left. Qed.

Lemma stored_removed_other type type' key key' st :
  key' ≠ key -> stored type' key' (removed type key st) = stored type' key' st.
Proof.
  intros Hne.
  assert (getPrefixedKey key ≠ getPrefixedKey key') as Hp
    by (intros E; by apply prefixed_inj in E).
  pose proof (prefixed_not_testKey key') as Ht.
  unfold stored, removed.
  destruct st as [? ? ? ? ? [?|] [?|] ? ?]; destruct type, type'; cbn;
    unfold probe; rewrite ?lookup_delete_ne, ?lookup_insert_ne by done; done.
Qed.

Lemma touches_removed type key st : touches type key st (removed type key st).
Proof.
  destruct (same_service_removed type key st) as (? & ? & ? & ? & ? & _ & ?).
  repeat split; try done.
  - intros t k Hne. by apply stored_removed_other.
  - right. apply stored_removed.
Qed.

Lemma retrieve_touches key type version serialized st :
  touches type key st (retrieve P key type version serialized st).2.
Proof.
  destruct (JSON.parse serialized) as [item|] eqn:Hparse.
  2:{ rewrite retrieve_unparsed by done. apply touches_refl. }
  destruct (JS.prop (Some item) "expiresAt") as [|e] eqn:He.
  { erewrite retrieve_null by done. apply touches_refl. }
  erewrite retrieve_spec by done.
  destruct (JS.truthy e && _).
  { eapply touches_trans; [apply touches_tick|apply touches_removed]. }
  cbv zeta.
  assert (touches type key st (if JS.truthy e then tick st else st)) as Hst1.
  { destruct (JS.truthy e); [apply touches_tick|apply touches_refl]. }
  destruct (match version with Some _ => _ | None => _ end).
  { eapply touches_trans; [exact Hst1|apply touches_removed]. }
  destruct (JS.truthy (field item "encrypted")); [|exact Hst1].
  destruct (mayEncrypt _); [|exact Hst1].
  pose proof (decrypt_state P (field item "payload")
                (default [] (encryptionKey (if JS.truthy e then tick st else st)))
                (if JS.truthy e then tick st else st)) as Hd.
  destruct (CryptoService.decrypt _ _ _ _) as [[v|err] st2]; cbn in Hd; by subst.
Qed.

(** X7. [get] writes nothing: it changes no field of the service but the
    clock, draws no random byte, leaves the entries of every other key as
    they were in every storage, and leaves the entry of its own key as it
    was or removes it. It never throws. *)
Theorem get_touches_only_its_key (st : State) (key : string) (options : SecureStorageOptions) :
  (exists v, (get P key options st).1 = Ok v) /\
  touches (default Local (storage options)) key st (get P key options st).2.
Proof.
  split.
  { destruct (get_total P key options st) as (v & st' & ->). by exists v. }
  rewrite get_unfold. cbv zeta.
  set (type := default Local (storage options)).
  destruct (absent _); [apply touches_probed|].
  unfold try_catch.
  pose proof (retrieve_touches key type (version options)
                (default "" (stored type key st)) (probed type st)) as Hr.
  destruct (retrieve _ _ _ _ _ _) as [[v|err] st'].
  - eapply touches_trans; [apply touches_probed|exact Hr].
  - rewrite handler_spec.
    eapply touches_trans; [apply touches_probed|].
    eapply touches_trans; [exact Hr|apply touches_removed].
Qed.

(** X3. [remove] never fails, whether the key is there or not; afterwards
    the key is absent: [get] returns absent and [has] false at any later
    moment. The entries of every other key, in every storage, and the
    fields of the service are as they were. *)
Theorem remove_forgets (st : State) (key : string) (options : SecureStorageOptions) :
  let type := default Local (storage options) in
  exists st1,
    remove key options st = (Ok tt, st1) /\
    touches type key st st1 /\
    stored type key st1 = None /\
    clock_reads st1 = clock_reads st /\
    forall n, (get P key options (later n st1)).1 = Ok None /\
              (has P key options (later n st1)).1 = Ok false.
Proof.
  intros type. exists (removed type key st).
  split; [apply remove_spec|]. split; [apply touches_removed|].
  split; [apply stored_removed|]. split.
  - by destruct (same_service_removed type key st) as (_ & _ & _ & _ & _ & ? & _).
  - intros n. apply gone. apply stored_removed.
Qed.

End Touches.

(** * crypto.service.ts: keys, salts and the fields of a payload *)

Section CryptoMore.
Import CryptoService.
Context (P : Platform).

Lemma length_string_of_list_ascii (l : list ascii) :
  String.length (string_of_list_ascii l) = length l.
Proof. induction l as [|c l IH]; [done|]. cbn. by rewrite IH. Qed.

Lemma length_list_ascii_of_string (s : string) :
  length (list_ascii_of_string s) = String.length s.
Proof. induction s as [|c s IH]; [done|]. cbn. by rewrite IH. Qed.

Lemma sextets_length (l : list N) :
  (length (Base64.sextets l) + length (Base64.padding (length l)) = 4 * ((length l + 2) / 3))%nat.
Proof.
  induction l as [|a|a b|a b c l IH] using Base64Facts.list_ind3; try reflexivity.
  cbn [Base64.sextets length]. rewrite Base64Facts.padding_step.
  replace (S (S (S (length l))) + 2)%nat with (length l + 2 + 1 * 3)%nat by lia.
  rewrite Nat.div_add by done. lia.
Qed.

Lemma arrayBufferToBase64_length (b : bytes) :
  String.length (arrayBufferToBase64 b) = (4 * ((length b + 2) / 3))%nat.
Proof.
  unfold arrayBufferToBase64, Base64.btoa.
  set (bs := map N_of_ascii _).
  rewrite length_string_of_list_ascii, length_app, length_map, sextets_length.
  unfold bs. rewrite length_map, length_list_ascii_of_string.
  unfold string_of_list_byte. by rewrite length_string_of_list_ascii, length_map.
Qed.

(** X8. The two private converters. [base64ToArrayBuffer] gives back the
    bytes [arrayBufferToBase64] was given, for every buffer, the empty one
    and those with bytes above 127 included; so no two buffers have the
    same text. The text of [n] bytes has [4 * ceil(n / 3)] characters. *)
Theorem arrayBuffer_base64 (b : bytes) (st : State) :
  base64ToArrayBuffer (arrayBufferToBase64 b) st = (Ok b, st) /\
  String.length (arrayBufferToBase64 b) = (4 * ((length b + 2) / 3))%nat /\
  forall b', arrayBufferToBase64 b' = arrayBufferToBase64 b -> b' = b.
Proof.
  split; [apply CryptoFacts.arrayBuffer_round_trip|].
  split; [apply arrayBufferToBase64_length|].
  intros b'. apply CryptoFacts.arrayBufferToBase64_inj.
Qed.

(** X9. The payload [encrypt] returns, where the Web Crypto API is
    present: its [iv] is 16 characters that decode to the 12 bytes drawn
    from the random source, its [ciphertext] decodes to the output of
    AES-GCM for the encoded [JSON.stringify(data)] under that IV, its
    [algorithm] is AES-GCM-256, and it has a [salt] exactly when the caller
    gave one: the text of [salt.buffer], the whole buffer under the
    caller's array, which for a view of a part of a buffer is more than the
    elements of the view. Twelve random bytes are consumed and nothing else
    of the state changes. *)
Theorem encrypt_envelope (st : State) (data : json) (k : CryptoKey) (s : option Uint8Array) :
  subtle st = true ->
  exists p,
    encrypt P data k s st = (Ok p, set_drawn (drawn st + 12) st) /\
    String.length (iv p) = 16%nat /\
    base64ToArrayBuffer (iv p) st = (Ok (fresh_bytes P 12 st), st) /\
    length (fresh_bytes P 12 st) = 12%nat /\
    base64ToArrayBuffer (ciphertext p) st =
      (Ok (subtle_encrypt P k (fresh_bytes P 12 st) (text_encode P (JSON.stringify data))), st) /\
    algorithm p = "AES-GCM-256" /\
    match s with
    | Some a => exists t, salt p = Some t /\ base64ToArrayBuffer t st = (Ok (buffer a), st)
    | None => salt p = None
    end.
Proof.
  intros Hs. eexists. split; [by apply CryptoFacts.encrypt_spec|].
  unfold sealed. cbn [iv ciphertext algorithm salt].
  assert (length (fresh_bytes P 12 st) = 12%nat) as Hlen
    by (unfold fresh_bytes; by rewrite length_map, length_seq).
  split; [change IV_LENGTH with 12%nat; by rewrite arrayBufferToBase64_length, Hlen|].
  split; [apply CryptoFacts.arrayBuffer_round_trip|].
  split; [exact Hlen|].
  split; [apply CryptoFacts.arrayBuffer_round_trip|].
  split; [reflexivity|].
  destruct s as [a|]; [|reflexivity].
  eexists. split; [reflexivity|apply CryptoFacts.arrayBuffer_round_trip].
Qed.

(** X10. Without the Web Crypto API every primitive that needs it throws
    the same error before it does anything: no random byte is drawn and
    the state is as it was. [isAvailable] is false. [generateSalt] does not
    ask for it: where the runtime has a [crypto] object it returns the
    bytes asked for, up to 65536 of them, and throws a QuotaExceededError
    above; where the runtime has none it throws a ReferenceError. *)
Theorem unavailable_primitives_throw (st : State) :
  subtle st = false ->
  isAvailable st = (Ok false, st) /\
  generateKey P st = (Throw CryptoUnavailable, st) /\
  (forall password s iterations,
      deriveKey P password s iterations st = (Throw CryptoUnavailable, st)) /\
  (forall data k s, encrypt P data k s st = (Throw CryptoUnavailable, st)) /\
  (forall payload k, decrypt P payload k st = (Throw CryptoUnavailable, st)) /\
  (crypto_present P = false ->
   forall n, generateSalt P n st = (Throw ReferenceError, st)) /\
  (crypto_present P = true ->
   forall n,
     ((N.of_nat n <= 65536)%N ->
      exists b, generateSalt P n st = (Ok b, set_drawn (drawn st + n) st) /\ length b = n) /\
     ((65536 < N.of_nat n)%N -> generateSalt P n st = (Throw QuotaExceededError, st))).
Proof.
  intros Hs.
  split; [unfold isAvailable, read; by rewrite Hs|].
  split; [unfold generateKey, mbind, M_bind; by rewrite CryptoFacts.ensureAvailable_throw|].
  split; [intros; unfold deriveKey, mbind, M_bind;
          by rewrite CryptoFacts.ensureAvailable_throw|].
  split; [intros; unfold encrypt, mbind, M_bind;
          by rewrite CryptoFacts.ensureAvailable_throw|].
  split; [intros; by apply CryptoFacts.decrypt_unavailable|].
  split.
  - intros Hc n. unfold generateSalt, getRandomValues. by rewrite Hs, Hc.
  - intros Hc n. unfold generateSalt, getRandomValues. rewrite Hs, Hc. cbn [orb negb].
    split; intros Hn.
    + destruct (N.ltb_spec 65536 (N.of_nat n)) as [?|_]; [lia|].
      eexists. split; [reflexivity|]. by rewrite length_map, length_seq.
    + by destruct (N.ltb_spec 65536 (N.of_nat n)) as [_|?]; [|lia].
Qed.

End CryptoMore.

(** * initialize and destroy *)

Section Lifecycle.
Import SecureStorageService StorageFacts ServiceFacts.
Context (P : Platform).

Lemma mayEncrypt_key st k :
  subtle st = true -> encryptionKey st = Some k -> mayEncrypt st = true.
Proof. unfold mayEncrypt. intros -> ->. by rewrite bool_decide_true. Qed.

(** A config that lacks what its mode needs. *)
Lemma initialize_throws config st :
  subtle st = true ->
  (keyMode config = KeyPassword /\ (password config = None \/ password config = Some "")) \/
  (keyMode config = KeyProvided /\ key config = None) ->
  exists e, initialize P config st = (Throw e, st) /\
    e = match keyMode config with KeyProvided => KeyRequired | _ => PasswordRequired end.
Proof.
  intros Hs Hbad. unfold initialize.
  unfold mbind at 1, M_bind at 1, CryptoService.isAvailable, read. rewrite Hs.
  cbn [negb].
  destruct Hbad as [[-> [-> | ->]]|[-> ->]]; eexists; (split; [reflexivity|done]).
Qed.

Lemma initialize_as_password config pw st :
  keyMode config = KeyPassword -> password config = Some pw ->
  initialize P config st = initialize P (password_mode pw) st.
Proof. intros Hm Hp. unfold initialize. cbn [keyMode password password_mode]. by rewrite Hm, Hp. Qed.

Lemma stored_saveSalt type key s st :
  key ≠ "_salt" -> stored type key (saveSalt s st).2 = stored type key st.
Proof.
  intros Hkey.
  assert (prefix ++ "_salt" ≠ getPrefixedKey key) as Hne
    by (intros E; by apply prefixed_inj in E).
  unfold stored, saveSalt, modify.
  destruct st as [? ? ? ? ? [?|] [?|] ? ?]; destruct type; cbn; try done.
  all: by rewrite lookup_insert_ne.
Qed.

(** X13. With the Web Crypto API and a config that has what its mode
    needs (a non-empty password, a key), [initialize] returns; the service
    is then initialized and encrypts. In session mode the key is the next
    32 bytes of the random source; in provided mode it is the caller's key
    and nothing is drawn; in password mode it is derived from the password
    and the salt the service keeps. No entry of a caller's key other than
    [_salt] changes, in any storage. *)
Theorem initialize_succeeds (st : State) (config : SecureStorageConfig) :
  subtle st = true ->
  (keyMode config = KeyPassword -> exists pw, password config = Some pw /\ pw ≠ "") ->
  (keyMode config = KeyProvided -> is_Some (key config)) ->
  exists st',
    initialize P config st = (Ok tt, st') /\
    isInitialized st' = (Ok true, st') /\
    isEncryptionAvailable st' = (Ok true, st') /\
    clock_reads st' = clock_reads st /\
    (forall type key, key ≠ "_salt" -> stored type key st' = stored type key st) /\
    match keyMode config with
    | KeySession =>
        encryptionKey st' = Some (CryptoService.fresh_bytes P 32 st) /\
        drawn st' = (drawn st + 32)%nat /\ keySalt st' = keySalt st
    | KeyProvided =>
        encryptionKey st' = key config /\ drawn st' = drawn st /\ keySalt st' = keySalt st
    | KeyPassword =>
        exists pw s, password config = Some pw /\ keySalt st' = Some s /\
          encryptionKey st' = Some (derived P pw s)
    end.
Proof.
  intros Hs Hpw Hkey. destruct (keyMode config) eqn:Hmode.
  - eexists. split.
    { unfold initialize. unfold mbind at 1, M_bind at 1, CryptoService.isAvailable, read.
      rewrite Hs, Hmode. cbn [negb].
      unfold CryptoService.generateKey, mbind, M_bind.
      rewrite CryptoFacts.ensureAvailable_ok by done. reflexivity. }
    split; [reflexivity|].
    split; [rewrite isEncryptionAvailable_spec; f_equal; f_equal;
            by apply (mayEncrypt_key _ (CryptoService.fresh_bytes P 32 st))|].
    by repeat split.
  - destruct (Hpw eq_refl) as (pw & Hp & Hne).
    rewrite (initialize_as_password config pw) by done.
    rewrite initialize_password by done.
    destruct (persisted_salt P st) as [s|].
    + eexists. split; [reflexivity|]. split; [reflexivity|].
      split; [rewrite isEncryptionAvailable_spec; f_equal; f_equal;
              by apply (mayEncrypt_key _ (derived P pw s))|].
      split; [reflexivity|]. split; [done|]. by exists pw, s.
    + cbv zeta. set (s := CryptoService.fresh_bytes P CryptoService.SALT_LENGTH st).
      set (st0 := keyed P pw s _).
      assert (subtle (saveSalt s st0).2 = true /\
              encryptionKey (saveSalt s st0).2 = Some (derived P pw s) /\
              keySalt (saveSalt s st0).2 = Some s /\
              clock_reads (saveSalt s st0).2 = clock_reads st) as (Hs1 & Hk1 & Hsa1 & Hc1).
      { unfold saveSalt, modify. cbn. by destruct (localStorage st). }
      eexists. split; [reflexivity|]. split; [reflexivity|].
      split; [rewrite isEncryptionAvailable_spec; f_equal; f_equal;
              by apply (mayEncrypt_key _ (derived P pw s))|].
      split; [exact Hc1|].
      split; [intros type key Hne';
              change (stored type key (saveSalt s st0).2 = stored type key st);
              by rewrite stored_saveSalt|].
      by exists pw, s.
  - destruct (Hkey eq_refl) as [k Hk].
    eexists. split.
    { unfold initialize. unfold mbind at 1, M_bind at 1, CryptoService.isAvailable, read.
      rewrite Hs, Hmode, Hk. reflexivity. }
    split; [reflexivity|].
    split; [rewrite isEncryptionAvailable_spec; f_equal; f_equal;
            by apply (mayEncrypt_key _ k)|].
    by repeat split.
Qed.

(** X14. [initialize] fails in two cases only, both with the Web Crypto
    API present: password mode without a password or with an empty one,
    and provided mode without a key. It fails before it changes anything:
    the state is as it was, so a service that was initialized keeps its
    key. *)
Theorem initialize_failure (st st' : State) (config : SecureStorageConfig) (e : error) :
  initialize P config st = (Throw e, st') ->
  st' = st /\ subtle st = true /\
  ((keyMode config = KeyPassword /\ e = PasswordRequired /\
    (password config = None \/ password config = Some "")) \/
   (keyMode config = KeyProvided /\ e = KeyRequired /\ key config = None)).
Proof.
  intros Hrun. destruct (subtle st) eqn:Hs.
  2:{ by rewrite initialize_degraded in Hrun. }
  destruct (keyMode config) eqn:Hmode.
  - unfold initialize in Hrun.
    unfold mbind at 1, M_bind at 1, CryptoService.isAvailable, read in Hrun.
    rewrite Hs, Hmode in Hrun. cbn [negb] in Hrun.
    unfold CryptoService.generateKey, mbind, M_bind in Hrun.
    rewrite CryptoFacts.ensureAvailable_ok in Hrun by done. done.
  - destruct (password config) as [pw|] eqn:Hp.
    + destruct (decide (pw = "")) as [->|Hne].
      * destruct (initialize_throws config st Hs) as (e' & He' & ->); [left; auto|].
        rewrite He', Hmode in Hrun. injection Hrun as <- <-. split; [done|]. split; [done|].
        left. auto.
      * rewrite (initialize_as_password config pw) in Hrun by done.
        by rewrite initialize_password in Hrun.
    + destruct (initialize_throws config st Hs) as (e' & He' & ->); [left; auto|].
      rewrite He', Hmode in Hrun. injection Hrun as <- <-. split; [done|]. split; [done|].
      left. auto.
  - destruct (key config) as [k|] eqn:Hk.
    + unfold initialize in Hrun.
      unfold mbind at 1, M_bind at 1, CryptoService.isAvailable, read in Hrun.
      rewrite Hs, Hmode, Hk in Hrun. done.
    + destruct (initialize_throws config st Hs) as (e' & He' & ->); [right; auto|].
      rewrite He', Hmode in Hrun. injection Hrun as <- <-. split; [done|]. split; [done|].
      right. auto.
Qed.

End Lifecycle.

(** * Entries while the service has no key *)

Section Locked.
Import SecureStorageService StorageFacts ServiceFacts.
Context (P : Platform).

Hypothesis subtle_decrypt_encrypt :
  forall key nonce plaintext,
    subtle_decrypt P key nonce (subtle_encrypt P key nonce plaintext) = Some plaintext.
Hypothesis text_decode_encode : forall s, text_decode P (text_encode P s) = s.

(** [get] on an encrypted item that [set] wrote without expiry, where
    the service cannot decrypt: absent, and the entry stays. *)
Lemma get_locked key value options st st' :
  let type := default Local (storage options) in
  let raw := JSON.stringify (item_of P value options st) in
  stored type key st' = Some raw ->
  expiresAt_of P options st = None ->
  default true (encrypt options) && mayEncrypt st = true ->
  mayEncrypt st' = false ->
  get P key options st' = (Ok None, probed type st').
Proof.
  intros type raw Hst Hexp Henc Hmay.
  destruct (item_of_fields P value options st) as (He & Hv & Hen & _).
  rewrite Hexp in He. rewrite Henc in Hen.
  destruct (same_service_probed type st') as (Hs' & Hk' & _).
  eapply get_returned; fold type; rewrite Hst; [apply stringify_not_empty|].
  cbn [default from_option id]. erewrite retrieve_spec; [|apply JSONFacts.parse_stringify|exact He].
  cbn [fmap option_fmap option_map JS.truthy andb]. cbv zeta. rewrite Hv, Hen.
  assert (match version options with
          | Some v => JS.strict_neq (JNum <$> version options) v
          | None => false
          end = false) as ->.
  { destruct (version options); [apply strict_neq_same|done]. }
  cbn [JS.truthy].
  assert (mayEncrypt (probed type st') = false) as ->
    by (unfold mayEncrypt in *; by rewrite Hs', Hk').
  reflexivity.
Qed.

(** X15. [destroy] locks the encrypted entries without touching them.
    After [set] with a key and [destroy], the service is neither
    initialized nor able to encrypt, [get] reports the entry absent and
    leaves it in the storage (it is not taken for a corrupted one), and
    once [initialize] has been given the same key again [get] returns the
    value. *)
Theorem destroy_locks (st : State) (key : string) (value : json)
    (options : SecureStorageOptions) (k : CryptoKey) :
  let type := default Local (storage options) in
  subtle st = true -> encryptionKey st = Some k ->
  default true (encrypt options) = true -> ttl options = None ->
  exists st1 st2 st3 st4 st5,
    set P key value options st = (Ok tt, st1) /\
    destroy st1 = (Ok tt, st2) /\
    isInitialized st2 = (Ok false, st2) /\
    isEncryptionAvailable st2 = (Ok false, st2) /\
    get P key options st2 = (Ok None, st3) /\
    stored type key st3 = stored type key st1 /\ is_Some (stored type key st3) /\
    initialize P {| keyMode := KeyProvided; password := None; key := Some k |} st3
      = (Ok tt, st4) /\
    get P key options st4 = (Ok (Some value), st5).
Proof.
  intros type Hs Hk Henc Httl.
  assert (mayEncrypt st = true) as Hmay by by apply (mayEncrypt_key st k).
  assert (expiresAt_of P options st = None) as Hexp
    by (unfold expiresAt_of; by rewrite Httl).
  set (raw := JSON.stringify (item_of P value options st)).
  set (st1 := written type key raw (consumed options st)).
  destruct (set_keeps_key P key value options st) as [Hs1 Hk1].
  rewrite set_spec in Hs1, Hk1. cbn [snd] in Hs1, Hk1. fold type raw st1 in Hs1, Hk1.
  assert (stored type key st1 = Some raw) as Hst1 by apply stored_written.
  set (st2 := set_initialized false (set_keySalt None (set_encryptionKey None st1))).
  set (st3 := probed type st2).
  assert (stored type key st3 = Some raw) as Hst3
    by (unfold st3; by rewrite stored_probed).
  destruct (same_service_probed type st2) as (Hs3 & _).
  set (st4 := set_initialized true (set_encryptionKey (Some k) st3)).
  destruct (get_live P subtle_decrypt_encrypt text_decode_encode
              key value options options st st4) as (st5 & Hget & _).
  { exact Hst3. }
  { intros e He. by rewrite Hexp in He. }
  { reflexivity. }
  { by right. }
  { intros _. split; [|by rewrite Hk].
    change (subtle st4) with (subtle (probed type st2)). rewrite Hs3.
    change (subtle st2) with (subtle st1). by rewrite Hs1. }
  exists st1, st2, st3, st4, st5.
  split; [apply set_spec|]. split; [reflexivity|]. split; [reflexivity|].
  split; [rewrite isEncryptionAvailable_spec; f_equal; f_equal; unfold mayEncrypt;
          by rewrite andb_false_r|].
  split.
  { apply (get_locked key value options st st2); try done.
    - by rewrite Henc, Hmay.
    - unfold mayEncrypt. by rewrite andb_false_r. }
  split; [by rewrite Hst3, Hst1|]. split; [by rewrite Hst3|].
  split; [|exact Hget].
  unfold initialize. unfold mbind at 1, M_bind at 1, CryptoService.isAvailable, read.
  fold st3 in Hs3. rewrite Hs3.
  change (subtle st2) with (subtle st1). by rewrite Hs1, Hs.
Qed.

End Locked.

(** * keys, clear and the storage they run on *)

Section Enumeration.
Import SecureStorageService StorageFacts ServiceFacts.
Context (P : Platform).

Lemma delete_all_notin l (m : gmap string string) k : ~ In k l -> delete_all l m !! k = m !! k.
Proof.
  revert m. induction l as [|k' l IH]; intros m Hnot; [done|].
  cbn. rewrite IH by (intros Hin; apply Hnot; by right).
  apply lookup_delete_ne. intros ->. apply Hnot. by left.
Qed.

Lemma forEach_removeItem_any (h : StorageInterface) (l : list string) (st : State) :
  forEach l (removeItem h) st = (Ok tt, (update h (delete_all l) st).2).
Proof.
  revert st. induction l as [|k l IH]; intros st.
  - destruct st as [? ? ? ? ? [?|] [?|] ? ?]; by destruct h.
  - cbn [forEach]. unfold mbind, M_bind. unfold removeItem at 1, update at 1, modify.
    rewrite IH. destruct st as [? ? ? ? ? [?|] [?|] ? ?]; by destruct h.
Qed.

Lemma scan_enumerable type st :
  enumerable type st ->
  enumerate type (backend type st) (probed type st)
  = (Ok (map_to_list (contents (backend type st) (probed type st))).*1, probed type st).
Proof.
  intros Hen. unfold enumerate, read.
  destruct type; try reflexivity; destruct Hen as [m Hm]; unfold backend; by rewrite Hm.
Qed.

Lemma scan_fallback type st :
  ~ enumerable type st ->
  backend type st = MemoryWrapper /\ probed type st = st /\
  enumerate type MemoryWrapper st = (Ok [], st).
Proof.
  intros Hnot. destruct type; cbn in Hnot.
  - destruct (localStorage st) as [m|] eqn:E; [destruct Hnot; by eexists|].
    unfold backend, probed. by rewrite E.
  - destruct (sessionStorage st) as [m|] eqn:E; [destruct Hnot; by eexists|].
    unfold backend, probed. by rewrite E.
  - done.
Qed.

Lemma keys_scan options st :
  let type := default Local (storage options) in
  enumerable type st ->
  keys options st =
  (Ok (map (string_drop (String.length prefix))
         (prefixed_names (contents (backend type st) (probed type st)))),
   probed type st).
Proof.
  intros type Hen. unfold keys, mbind, M_bind. rewrite getStorage_spec. fold type.
  by rewrite scan_enumerable.
Qed.

Lemma clear_scan options st :
  let type := default Local (storage options) in
  let h := backend type st in
  enumerable type st ->
  clear options st =
  (Ok tt, (update h (delete_all (prefixed_names (contents h (probed type st))))
             (probed type st)).2).
Proof.
  intros type h Hen. unfold clear, mbind, M_bind. rewrite getStorage_spec. fold type.
  rewrite scan_enumerable by done. apply forEach_removeItem_any.
Qed.

Lemma contents_update h h' f st (name : string) :
  match h with
  | LocalStorage => is_Some (localStorage st)
  | SessionStorage => is_Some (sessionStorage st)
  | MemoryWrapper => True
  end ->
  contents h' (update h f st).2 !! name =
  if decide (h' = h) then f (contents h st) !! name else contents h' st !! name.
Proof.
  intros Hh. destruct st as [? ? ? ? ? [?|] [?|] ? ?]; destruct h, h'; cbn in *;
    try done; by destruct Hh.
Qed.

Lemma same_service_update h f type st : same_service st (update h f (probed type st)).2.
Proof.
  unfold same_service, update, modify.
  destruct st as [? ? ? ? ? [?|] [?|] ? ?]; destruct h, type; cbn;
    repeat split; by intros [].
Qed.

(** X16. [keys] on a storage it can enumerate (the memory map, or a
    browser storage that is there) returns exactly the callers' keys that
    have an entry, each once and without the prefix; it changes no entry. *)
Theorem keys_exact (st : State) (options : SecureStorageOptions) :
  let type := default Local (storage options) in
  enumerable type st ->
  exists names st',
    keys options st = (Ok names, st') /\
    NoDup names /\
    (forall key, key ∈ names <-> is_Some (stored type key st)) /\
    same_service st st' /\
    forall type' key, stored type' key st' = stored type' key st.
Proof.
  intros type Hen. eexists _, _. split; [by apply keys_scan|].
  fold type. set (m := contents (backend type st) (probed type st)).
  split; [apply NoDup_dropped; [apply prefixed_names_prefixed|apply NoDup_prefixed_names]|].
  split; [|split; [apply same_service_probed|intros; apply stored_probed]].
  intros key. split.
  - intros Hin. apply list_elem_of_In, in_map_iff in Hin as (x & Hx & Hin).
    pose proof (prefixed_names_prefixed m x (proj2 (list_elem_of_In _ _) Hin)) as Hpre.
    rewrite Hx in Hpre. subst x.
    apply filter_In in Hin as [Hin _].
    apply list_elem_of_In, list_elem_of_fmap in Hin as ([x v] & Hx' & Hin).
    cbn in Hx'. subst x. apply elem_of_map_to_list in Hin.
    exists v. unfold stored.
    rewrite <- (contents_probed _ type st) by apply prefixed_not_testKey. exact Hin.
  - intros [raw Hst]. apply list_elem_of_In, in_map_iff.
    exists (getPrefixedKey key). split; [apply (Str.string_drop_app prefix key)|].
    apply (prefixed_names_in _ key raw).
    unfold m. rewrite contents_probed by apply prefixed_not_testKey. exact Hst.
Qed.

(** X17. [clear] on a storage it can enumerate removes the entry of
    every caller's key: [get] then returns absent and [has] false for
    every key, at any later moment. Entries whose name does not begin with
    the prefix stay (but the one named [__storage_test__], which the
    availability probe deletes), the other storages are as they were, and
    so are the key and the flags of the service. *)
Theorem clear_removes_prefixed (st : State) (options : SecureStorageOptions) :
  let type := default Local (storage options) in
  let h := backend type st in
  enumerable type st ->
  exists st',
    clear options st = (Ok tt, st') /\
    same_service st st' /\
    (forall key, stored type key st' = None) /\
    (forall key n, (get P key options (later n st')).1 = Ok None /\
                   (has P key options (later n st')).1 = Ok false) /\
    (forall name, startsWith name prefix = false -> name ≠ testKey ->
        contents h st' !! name = contents h st !! name) /\
    (forall h' name, h' ≠ h -> contents h' st' !! name = contents h' st !! name).
Proof.
  intros type h Hen. eexists. split; [by apply clear_scan|].
  fold type h. set (m := contents h (probed type st)).
  set (st' := (update h (delete_all (prefixed_names m)) (probed type st)).2).
  assert (forall h' name,
            contents h' st' !! name =
            if decide (h' = h) then delete_all (prefixed_names m) m !! name
            else contents h' (probed type st) !! name) as Hlook.
  { intros h' name. apply contents_update.
    unfold h, backend. destruct type; cbn in Hen; try done.
    - destruct Hen as [x Hx]. rewrite Hx. unfold probed. rewrite Hx. by eexists.
    - destruct Hen as [x Hx]. rewrite Hx. unfold probed. rewrite Hx. by eexists. }
  assert (same_service st st') as Hsame by apply same_service_update.
  assert (forall key, stored type key st' = None) as Hnone.
  { intros key. unfold stored.
    destruct Hsame as (_ & _ & _ & _ & _ & _ & ->). fold h.
    rewrite Hlook, decide_True by done.
    destruct (m !! getPrefixedKey key) as [raw|] eqn:E.
    - by apply delete_all_in, (prefixed_names_in m key raw).
    - by apply delete_all_absent. }
  split; [exact Hsame|]. split; [exact Hnone|].
  split; [intros key n; by apply gone|].
  split.
  - intros name Hpre Htest. rewrite Hlook, decide_True by done.
    rewrite delete_all_notin.
    + unfold m. by apply contents_probed.
    + intros [_ Hp]%filter_In. by rewrite Hpre in Hp.
  - intros h' name Hne. rewrite Hlook, decide_False by done.
    unfold probed. destruct type; try done.
    + destruct (localStorage st) as [x|] eqn:E; [|done].
      destruct h'; try done. destruct Hne. unfold h, backend. by rewrite E.
    + destruct (sessionStorage st) as [x|] eqn:E; [|done].
      destruct h'; try done. destruct Hne. unfold h, backend. by rewrite E.
Qed.

(** X18. Where a browser storage cannot be used and the memory wrapper
    stands in for it, [keys] on that storage returns no key and [clear]
    removes nothing, whatever entries there are: the state is as it was.
    The entries of that storage are those of the memory map, which [keys]
    and [clear] do enumerate when asked for 'memory'. *)
Theorem fallback_not_enumerated (st : State) (options : SecureStorageOptions) :
  let type := default Local (storage options) in
  ~ enumerable type st ->
  keys options st = (Ok [], st) /\
  clear options st = (Ok tt, st) /\
  (forall key, stored type key st = stored Memory key st) /\
  exists names, keys (storage_only Memory) st = (Ok names, st) /\
    forall key, is_Some (stored type key st) -> key ∈ names.
Proof.
  intros type Hnot. destruct (scan_fallback type st Hnot) as (Hb & Hp & Hscan).
  split; [|split; [|split]].
  - unfold keys, mbind, M_bind. rewrite getStorage_spec. fold type.
    by rewrite Hb, Hp, Hscan.
  - unfold clear, mbind, M_bind. rewrite getStorage_spec. fold type.
    by rewrite Hb, Hp, Hscan.
  - intros key. unfold stored. by rewrite Hb.
  - eexists. split; [by apply (keys_scan (storage_only Memory) st)|].
    intros key [raw Hst]. apply list_elem_of_In, in_map_iff.
    exists (getPrefixedKey key). split; [apply (Str.string_drop_app prefix key)|].
    apply (prefixed_names_in _ key raw). unfold stored in Hst. by rewrite Hb in Hst.
Qed.

(** X19. [getStorage] returns the browser storage asked for when the
    probe can write to it, and the memory wrapper otherwise and for
    'memory'. The probe leaves every entry as it was but the one named
    [__storage_test__] in that browser storage, which it removes; the
    service is as it was. *)
Theorem getStorage_probe (st : State) (type : StorageType) :
  exists h st',
    getStorage type st = (Ok h, st') /\
    (h = MemoryWrapper <-> type = Memory \/ ~ enumerable type st) /\
    (h = LocalStorage -> type = Local) /\ (h = SessionStorage -> type = Session) /\
    same_service st st' /\
    (forall h' name, name ≠ testKey -> contents h' st' !! name = contents h' st !! name) /\
    (forall h', h' ≠ h -> contents h' st' = contents h' st) /\
    (h ≠ MemoryWrapper -> contents h st' !! testKey = None).
Proof.
  exists (backend type st), (probed type st).
  split; [apply getStorage_spec|].
  split.
  { unfold backend, enumerable. destruct type.
    - destruct (localStorage st); split; try done.
      + intros [|Hn]; [done|]. destruct Hn. by eexists.
      + intros _. right. by intros [? ?].
    - destruct (sessionStorage st); split; try done.
      + intros [|Hn]; [done|]. destruct Hn. by eexists.
      + intros _. right. by intros [? ?].
    - split; auto. }
  split; [unfold backend; destruct type; try done; by destruct (sessionStorage st)|].
  split; [unfold backend; destruct type; try done; by destruct (localStorage st)|].
  split; [apply same_service_probed|].
  split; [intros h' name Hne; by apply contents_probed|].
  split.
  - intros h' Hne. unfold backend, probed in *. destruct type; try done.
    + destruct (localStorage st); [|done]. by destruct h'.
    + destruct (sessionStorage st); [|done]. by destruct h'.
  - unfold backend, probed. destruct type; try done.
    + destruct (localStorage st); [|done]. intros _. cbn. apply lookup_delete_eq.
    + destruct (sessionStorage st); [|done]. intros _. cbn. apply lookup_delete_eq.
Qed.

(** X20. When [set] returns it has written one entry: in the storage
    [getStorage] selects, under the prefixed key. Every other entry of
    that storage (but [__storage_test__]) and every entry of the other
    storages is as it was, and so are the key, the salt and the flag of the
    service. It has drawn 12 random bytes when it encrypted and none when
    it did not, and read the clock once, or twice with a ttl. *)
Theorem set_writes_one_entry (st st1 : State) (key : string) (value : json)
    (options : SecureStorageOptions) :
  let type := default Local (storage options) in
  let h := backend type st in
  set P key value options st = (Ok tt, st1) ->
  is_Some (contents h st1 !! getPrefixedKey key) /\
  (forall h' name, h' ≠ h \/ (name ≠ getPrefixedKey key /\ name ≠ testKey) ->
      contents h' st1 !! name = contents h' st !! name) /\
  subtle st1 = subtle st /\ encryptionKey st1 = encryptionKey st /\
  keySalt st1 = keySalt st /\ initialized st1 = initialized st /\
  drawn st1 = (if default true (encrypt options) && mayEncrypt st
               then drawn st + 12 else drawn st)%nat /\
  clock_reads st1 = (readings options + clock_reads st)%nat.
Proof.
  intros type h Hset. rewrite set_spec in Hset. injection Hset as <-. fold type.
  set (raw := JSON.stringify _).
  split.
  { exists raw. pose proof (stored_written type key raw (consumed options st)) as Hw.
    unfold stored in Hw.
    destruct (same_service_written type key raw (consumed options st))
      as (_ & _ & _ & _ & _ & _ & Hb).
    rewrite Hb in Hw.
    replace (backend type (consumed options st)) with h in Hw; [exact Hw|].
    unfold consumed. by destruct (_ && _). }
  split.
  { intros h' name Hor. unfold h, written, consumed.
    destruct (_ && _); storage_cases type st; destruct h'; cbn;
      destruct Hor as [Hh|[Hn Ht]]; try done;
      unfold probe; by rewrite ?lookup_insert_ne, ?lookup_delete_ne, ?lookup_insert_ne by done. }
  destruct (same_service_written type key raw (consumed options st))
    as (-> & -> & -> & -> & -> & -> & _).
  unfold consumed. by destruct (_ && _).
Qed.

End Enumeration.

(** * A rotation that fails, and the persisted salt *)

Section RotationFails.
Import SecureStorageService StorageFacts ServiceFacts.
Context (P : Platform).

(** The first loop of [rotateKey] returns, and leaves in place every
    entry without expiry that the key reads. *)
Lemma collect_keeps (type : StorageType) (names : list string) (st : State)
    (key raw : string) (v : json) :
  mayEncrypt st = true ->
  stored type key st = Some raw -> raw ≠ "" -> reads P st raw v ->
  exists items st2,
    collect P type names st = (Ok items, st2) /\
    subtle st2 = subtle st /\ encryptionKey st2 = encryptionKey st /\
    stored type key st2 = Some raw.
Proof.
  revert st. induction names as [|name names IH]; intros st Hmay Hst Hraw Hreads.
  - by exists [], st.
  - cbn [collect]. unfold mbind at 1, M_bind at 1.
    pose proof (get_frames P name (storage_only type) st) as (Hs & Hk & _ & Hfr).
    change (default Local (storage (storage_only type))) with type in Hfr.
    destruct (get_total P name (storage_only type) st) as (value & st1 & Hget).
    rewrite Hget in Hs, Hk, Hfr |- *. cbn [snd] in Hs, Hk, Hfr.
    assert (stored type key st1 = Some raw) as Hst1.
    { destruct (decide (key = name)) as [->|Hne]; [|by rewrite Hfr].
      rewrite (get_reads P name (storage_only type) st raw v) in Hget by done.
      injection Hget as _ <-.
      change (default Local (storage (storage_only type))) with type.
      by rewrite stored_probed. }
    assert (mayEncrypt st1 = true) as Hmay1 by (unfold mayEncrypt in *; by rewrite Hs, Hk).
    destruct (IH st1 Hmay1 Hst1 Hraw (reads_same_key P st st1 raw v Hk Hreads))
      as (items & st2 & Hcol & Hs2 & Hk2 & Hst2).
    unfold mbind, M_bind. rewrite Hcol. unfold mret, M_ret.
    eexists _, st2. split; [reflexivity|].
    split; [by rewrite Hs2|]. split; [by rewrite Hk2|]. exact Hst2.
Qed.

(** X2. A rotation that fails loses nothing. Where the service cannot
    encrypt, [rotateKey] throws at once and the state is as it was. Where
    it can, and the new config lacks what its mode needs (the password, the
    key), [rotateKey] throws the error of [initialize], the service keeps
    its key, and every entry without expiry that the key reads is still
    stored and still read with its value at any later moment. *)
Theorem rotateKey_failure (st : State) (newConfig : SecureStorageConfig)
    (type : StorageType) :
  (mayEncrypt st = false ->
   rotateKey P newConfig type st = (Throw CannotRotate, st)) /\
  (mayEncrypt st = true ->
   (keyMode newConfig = KeyPassword /\
    (password newConfig = None \/ password newConfig = Some "")) \/
   (keyMode newConfig = KeyProvided /\ key newConfig = None) ->
   exists e st',
     rotateKey P newConfig type st = (Throw e, st') /\
     e = match keyMode newConfig with KeyProvided => KeyRequired | _ => PasswordRequired end /\
     encryptionKey st' = encryptionKey st /\
     forall key raw v,
       stored type key st = Some raw -> raw ≠ "" -> reads P st raw v ->
       stored type key st' = Some raw /\
       forall n, (get P key (storage_only type) (later n st')).1 = Ok (Some v)).
Proof.
  split.
  { intros Hmay. unfold rotateKey. unfold mbind at 1, M_bind at 1.
    by rewrite isEncryptionAvailable_spec, Hmay. }
  intros Hmay Hbad.
  destruct (same_service_probed type st) as (Hsa & Hka & _).
  assert (mayEncrypt (probed type st) = true) as Hmaya
    by (unfold mayEncrypt in *; by rewrite Hsa, Hka).
  set (names := match (keys (storage_only type) st).1 with Ok l => l | Throw _ => [] end).
  assert (keys (storage_only type) st = (Ok names, probed type st)) as Hkeys.
  { unfold names, keys, mbind, M_bind. rewrite getStorage_spec. reflexivity. }
  assert (exists items st_b,
            collect P type names (probed type st) = (Ok items, st_b) /\
            subtle st_b = subtle st /\ encryptionKey st_b = encryptionKey st /\
            forall key raw v,
              stored type key st = Some raw -> raw ≠ "" -> reads P st raw v ->
              stored type key st_b = Some raw) as (items & st_b & Hcol & Hsb & Hkb & Hkeep).
  { destruct (collect_spec P type names (probed type st) Hmaya)
      as (items & st_b & Hcol & Hs & Hk & _).
    exists items, st_b. split; [exact Hcol|].
    split; [by rewrite Hs|]. split; [by rewrite Hk|].
    intros key raw v Hst Hraw Hreads.
    destruct (collect_keeps type names (probed type st) key raw v Hmaya)
      as (items' & st_b' & Hcol' & _ & _ & Hst'); try done.
    - by rewrite stored_probed.
    - by apply (reads_same_key P st).
    - rewrite Hcol in Hcol'. by injection Hcol' as _ <-. }
  destruct (initialize_throws P newConfig st_b) as (e & Hinit & He); [|exact Hbad|].
  { apply andb_prop in Hmay as [Hs _]. by rewrite Hsb. }
  exists e, st_b. split.
  { unfold rotateKey. unfold mbind at 1, M_bind at 1.
    rewrite isEncryptionAvailable_spec, Hmay. cbn [negb].
    unfold mbind at 1, M_bind at 1. rewrite Hkeys.
    unfold mbind at 1, M_bind at 1. rewrite Hcol.
    unfold mbind at 1, M_bind at 1. by rewrite Hinit. }
  split; [exact He|]. split; [exact Hkb|].
  intros key raw v Hst Hraw Hreads.
  split; [by apply (Hkeep key raw v)|].
  intros n.
  rewrite (get_reads P key (storage_only type) (later n st_b) raw v); try done.
  - unfold mayEncrypt in *. cbn. by rewrite Hsb, Hkb.
  - change (default Local (storage (storage_only type))) with type.
    rewrite stored_later. by apply (Hkeep key raw v).
  - apply (reads_same_key P st); [|done]. cbn. by rewrite Hkb.
Qed.

End RotationFails.

Section PersistedSalt.
Import SecureStorageService StorageFacts ServiceFacts.
Context (P : Platform).

(** X21. [loadSalt] after [saveSalt] returns the bytes that were saved,
    where localStorage can be used and [Uint8Array] rebuilds the bytes from
    their numbers; where it cannot, [saveSalt] does nothing, without an
    error, and [loadSalt] returns no salt. [saveSalt] writes the one entry
    named [_salt] and nothing else. *)
Theorem saveSalt_loadSalt (st : State) (s : bytes) :
  Uint8Array_from P (JArr (map byte_number s)) = Some s ->
  exists st',
    saveSalt s st = (Ok tt, st') /\
    loadSalt P st' = (Ok (match localStorage st with Some _ => Some s | None => None end), st') /\
    (forall type key, key ≠ "_salt" -> stored type key st' = stored type key st) /\
    (is_Some (localStorage st) ->
     stored Local "_salt" st' = Some (JSON.stringify (JArr (map byte_number s)))) /\
    (localStorage st = None -> st' = st).
Proof.
  intros Hu8. exists (saveSalt s st).2. split; [reflexivity|].
  split; [|split; [|split]].
  - rewrite loadSalt_spec. f_equal. f_equal.
    destruct (localStorage st) as [m|] eqn:E.
    + apply persisted_salt_saved; [done|]. rewrite E. by eexists.
    + unfold persisted_salt, loadSalt, read, saveSalt, modify. cbn.
      rewrite E. cbn. by rewrite E.
  - intros type key Hne. by apply stored_saveSalt.
  - intros Hloc. pose proof (salt_text_saved s st Hloc) as Hsalt.
    destruct Hloc as [m Hm]. unfold stored, backend, salt_text, saveSalt, modify in *.
    rewrite Hm in *. exact Hsalt.
  - intros E. unfold saveSalt, modify. cbn. by rewrite E.
Qed.

(** X22. The same password gives the same key wherever the same salt
    is persisted: with a readable salt in localStorage, [initialize] in
    password mode derives the key from that salt, draws no random byte and
    leaves the storages as they were, and so does any other service that
    finds the same text under the salt's name. *)
Theorem same_password_same_key (st st2 : State) (pw : string) (s : bytes) :
  subtle st = true -> subtle st2 = true -> pw ≠ "" ->
  persisted_salt P st = Some s -> salt_text st2 = salt_text st ->
  exists st' st2',
    initialize P (password_mode pw) st = (Ok tt, st') /\
    initialize P (password_mode pw) st2 = (Ok tt, st2') /\
    encryptionKey st' = Some (derived P pw s) /\
    encryptionKey st2' = encryptionKey st' /\
    keySalt st' = Some s /\
    drawn st' = drawn st /\
    localStorage st' = localStorage st /\ sessionStorage st' = sessionStorage st /\
    memoryStorage st' = memoryStorage st.
Proof.
  intros Hs Hs2 Hpw Hsalt Htext.
  pose proof (persisted_salt_text P st2 st Htext) as Hsalt2. rewrite Hsalt in Hsalt2.
  eexists _, _. split; [by apply initialize_password|].
  split; [by apply initialize_password|].
  rewrite Hsalt, Hsalt2. by repeat split.
Qed.

End PersistedSalt.

(** * The theorems above on the executable platform *)

(** X4 on an encrypted entry with a ttl of one minute, read nine clock
    readings later. *)
Lemma set_then_get_witness :
  exists st1 st2,
    SecureStorageService.set Toy.platform "k2" (JStr "v") one_minute Toy.stored_123
      = (Ok tt, st1) /\
    SecureStorageService.get Toy.platform "k2" one_minute (SecureStorageService.later 9 st1)
      = (Ok (Some (JStr "v")), st2) /\
    (SecureStorageService.has Toy.platform "k2" one_minute
       (SecureStorageService.later 9 st1)).1 = Ok true.
Proof.
  apply (set_then_get Toy.platform ToyFacts.toy_decrypt_encrypt ToyFacts.decode_encode).
  intros e He. vm_compute in He. injection He as <-. vm_compute. discriminate.
Defined.

Lemma set_other_key_keeps_witness :
  exists st',
    (SecureStorageService.set Toy.platform "a" (JNum 1) no_options;;
     SecureStorageService.set Toy.platform "b" (JNum 2) (storage_only Memory);;
     SecureStorageService.get Toy.platform "a" no_options) Toy.stored_123
    = (Ok (Some (JNum 1)), st').
Proof.
  apply (set_other_key_keeps Toy.platform ToyFacts.toy_decrypt_encrypt ToyFacts.decode_encode);
    [discriminate|reflexivity].
Defined.


Lemma encrypt_envelope_witness :
  exists p,
    CryptoService.encrypt Toy.platform (JStr "x") [x01]
      (Some {| buffer := [x01; x02; x03]; byteOffset := 1; byteLength := 1 |}) Toy.fresh
      = (Ok p, set_drawn 12 Toy.fresh) /\
    String.length (iv p) = 16%nat /\
    exists t, salt p = Some t /\
      CryptoService.base64ToArrayBuffer t Toy.fresh = (Ok [x01; x02; x03], Toy.fresh).
Proof.
  destruct (encrypt_envelope Toy.platform Toy.fresh (JStr "x") [x01]
              (Some {| buffer := [x01; x02; x03]; byteOffset := 1; byteLength := 1 |}) eq_refl)
    as (p & He & Hl & _ & _ & _ & _ & Hsalt).
  exists p. split; [exact He|]. split; [exact Hl|exact Hsalt].
Defined.

Lemma unavailable_primitives_throw_witness :
  CryptoService.generateKey Toy.platform Toy.degraded = (Throw CryptoUnavailable, Toy.degraded) /\
  CryptoService.encrypt Toy.platform (JStr "x") [x01] None Toy.degraded
    = (Throw CryptoUnavailable, Toy.degraded).
Proof.
  destruct (unavailable_primitives_throw Toy.platform Toy.degraded eq_refl)
    as (_ & Hg & _ & He & _).
  split; [exact Hg|apply He].
Defined.

Lemma initialize_succeeds_witness :
  exists st',
    SecureStorageService.initialize Toy.platform (password_mode "pw") Toy.fresh = (Ok tt, st') /\
    SecureStorageService.isEncryptionAvailable st' = (Ok true, st').
Proof.
  destruct (initialize_succeeds Toy.platform Toy.fresh (password_mode "pw") eq_refl)
    as (st' & H1 & _ & H2 & _).
  - intros _. exists "pw". split; [reflexivity|discriminate].
  - intros H. discriminate H.
  - exists st'. split; [exact H1|exact H2].
Defined.

Lemma initialize_failure_witness :
  Toy.with_password = Toy.with_password /\ subtle Toy.with_password = true /\
  ((keyMode Toy.without_key = KeyPassword /\ KeyRequired = PasswordRequired /\
    (password Toy.without_key = None \/ password Toy.without_key = Some "")) \/
   (keyMode Toy.without_key = KeyProvided /\ KeyRequired = KeyRequired /\
    key Toy.without_key = None)).
Proof.
  apply (initialize_failure Toy.platform Toy.with_password Toy.with_password Toy.without_key
           KeyRequired).
  vm_compute. reflexivity.
Defined.

Lemma destroy_locks_witness :
  exists st1 st2 st3 st4 st5,
    SecureStorageService.set Toy.platform "k2" (JStr "v") no_options Toy.stored_123
      = (Ok tt, st1) /\
    SecureStorageService.destroy st1 = (Ok tt, st2) /\
    SecureStorageService.get Toy.platform "k2" no_options st2 = (Ok None, st3) /\
    is_Some (SecureStorageService.stored Local "k2" st3) /\
    SecureStorageService.initialize Toy.platform
      (Toy.provided (default [] (encryptionKey Toy.stored_123))) st3 = (Ok tt, st4) /\
    SecureStorageService.get Toy.platform "k2" no_options st4 = (Ok (Some (JStr "v")), st5).
Proof.
  destruct (destroy_locks Toy.platform ToyFacts.toy_decrypt_encrypt ToyFacts.decode_encode
              Toy.stored_123 "k2" (JStr "v") no_options
              (default [] (encryptionKey Toy.stored_123)))
    as (st1 & st2 & st3 & st4 & st5 & H1 & H2 & _ & _ & H3 & _ & H4 & H5 & H6).
  - vm_compute. reflexivity.
  - vm_compute. reflexivity.
  - reflexivity.
  - reflexivity.
  - exists st1, st2, st3, st4, st5. repeat (split; [assumption|]). assumption.
Defined.

Lemma keys_exact_witness :
  exists names st',
    SecureStorageService.keys no_options Toy.two_entries = (Ok names, st') /\
    NoDup names /\
    ("a" ∈ names <-> is_Some (SecureStorageService.stored Local "a" Toy.two_entries)).
Proof.
  destruct (keys_exact Toy.two_entries no_options) as (names & st' & H1 & H2 & H3 & _).
  - vm_compute. by eexists.
  - exists names, st'. split; [exact H1|]. split; [exact H2|apply H3].
Defined.

Lemma clear_removes_prefixed_witness :
  exists st',
    SecureStorageService.clear no_options Toy.two_entries = (Ok tt, st') /\
    SecureStorageService.stored Local "a" st' = None /\
    (SecureStorageService.get Toy.platform "b" no_options
       (SecureStorageService.later 5 st')).1 = Ok None.
Proof.
  destruct (clear_removes_prefixed Toy.platform Toy.two_entries no_options)
    as (st' & H1 & _ & H2 & H3 & _).
  - vm_compute. by eexists.
  - exists st'. split; [exact H1|]. split; [apply H2|apply H3].
Defined.

Lemma fallback_not_enumerated_witness :
  SecureStorageService.keys (storage_only Local) Toy.in_memory = (Ok [], Toy.in_memory) /\
  SecureStorageService.clear (storage_only Local) Toy.in_memory = (Ok tt, Toy.in_memory) /\
  is_Some (SecureStorageService.stored Local "a" Toy.in_memory).
Proof.
  destruct (fallback_not_enumerated Toy.in_memory (storage_only Local)) as (H1 & H2 & _).
  - intros [x Hx]. vm_compute in Hx. discriminate Hx.
  - split; [exact H1|]. split; [exact H2|]. vm_compute. by eexists.
Defined.

Lemma rotateKey_failure_witness :
  exists e st',
    SecureStorageService.rotateKey Toy.platform Toy.without_password Local Toy.two_entries
      = (Throw e, st') /\
    e = PasswordRequired /\
    (SecureStorageService.get Toy.platform "a" (storage_only Local)
       (SecureStorageService.later 0 st')).1 = Ok (Some (JNum 1)).
Proof.
  destruct (proj2 (rotateKey_failure Toy.platform Toy.two_entries Toy.without_password Local))
    as (e & st' & H1 & H2 & _ & H3).
  - vm_compute. reflexivity.
  - left. split; [reflexivity|left; reflexivity].
  - exists e, st'. split; [exact H1|]. split; [exact H2|].
    apply (H3 "a" (default "" (SecureStorageService.stored Local "a" Toy.two_entries))
             (JNum 1)).
    + vm_compute. reflexivity.
    + vm_compute. discriminate.
    + exists (default JNull
                (JSON.parse
                   (default "" (SecureStorageService.stored Local "a" Toy.two_entries)))),
        None.
      vm_compute. repeat split.
Defined.

Lemma saveSalt_loadSalt_witness :
  exists st',
    SecureStorageService.saveSalt [x01; x02] Toy.fresh = (Ok tt, st') /\
    SecureStorageService.loadSalt Toy.platform st' = (Ok (Some [x01; x02]), st').
Proof.
  destruct (saveSalt_loadSalt Toy.platform Toy.fresh [x01; x02]
              (ToyFacts.typed_array_bytes [x01; x02])) as (st' & H1 & H2 & _).
  exists st'. split; [exact H1|exact H2].
Defined.

Lemma same_password_same_key_witness :
  exists st' st2',
    SecureStorageService.initialize Toy.platform (password_mode "pw") Toy.with_password
      = (Ok tt, st') /\
    SecureStorageService.initialize Toy.platform (password_mode "pw") Toy.destroyed
      = (Ok tt, st2') /\
    encryptionKey st2' = encryptionKey st'.
Proof.
  destruct (same_password_same_key Toy.platform Toy.with_password Toy.destroyed "pw"
              (CryptoService.fresh_bytes Toy.platform 16 Toy.fresh))
    as (st' & st2' & H1 & H2 & _ & H3 & _).
  - vm_compute. reflexivity.
  - vm_compute. reflexivity.
  - discriminate.
  - vm_compute. reflexivity.
  - reflexivity.
  - exists st', st2'. split; [exact H1|]. split; [exact H2|exact H3].
Defined.

(** * Entries stored without encryption *)

Section PlainEntries.
Import SecureStorageService StorageFacts ServiceFacts.
Context (P : Platform).

(** X23. An entry that [set] stored without encryption (the caller asked
    for none, or the service could not encrypt) and without ttl is read by
    [get] in any state of the service that holds the same text under the
    key: with another key or none, after [destroy], without the Web Crypto
    API, at any moment. The read leaves the entry in place. *)
Theorem plain_entry_needs_no_key (st st' : State) (key : string) (value : json)
    (options : SecureStorageOptions) :
  let type := default Local (storage options) in
  default true (encrypt options) && mayEncrypt st = false ->
  ttl options = None ->
  stored type key st' = stored type key (set P key value options st).2 ->
  get P key options st' = (Ok (Some value), probed type st') /\
  stored type key (probed type st') = stored type key st'.
Proof.
  intros type Hplain Httl Hsame.
  rewrite set_spec in Hsame. cbn [snd] in Hsame. fold type in Hsame.
  rewrite stored_written in Hsame.
  destruct (item_of_fields P value options st) as (He & Hv & Hen & Hval & _).
  rewrite Hplain in Hen, Hval.
  assert (expiresAt_of P options st = None) as Hexp
    by (unfold expiresAt_of; by rewrite Httl).
  rewrite Hexp in He.
  split; [|apply stored_probed].
  eapply get_returned; fold type; rewrite Hsame; [apply stringify_not_empty|].
  cbn [default from_option id]. erewrite retrieve_spec; [|apply JSONFacts.parse_stringify|exact He].
  cbn [fmap option_fmap option_map JS.truthy andb]. cbv zeta. rewrite Hv, Hen, Hval.
  assert (match version options with
          | Some v => JS.strict_neq (JNum <$> version options) v
          | None => false
          end = false) as ->.
  { destruct (version options); [apply strict_neq_same|done]. }
  reflexivity.
Qed.

End PlainEntries.

(** X23 on the executable platform: stored by a service without a key,
    read by one with a password-derived key. *)
Lemma plain_entry_needs_no_key_witness :
  (SecureStorageService.get Toy.platform "k" version_1
     (SecureStorageService.initialize Toy.platform (password_mode "pw")
        (SecureStorageService.set Toy.platform "k" (JStr "v") version_1 Toy.fresh).2).2).1
  = Ok (Some (JStr "v")).
Proof.
  destruct (plain_entry_needs_no_key Toy.platform Toy.fresh
              (SecureStorageService.initialize Toy.platform (password_mode "pw")
                 (SecureStorageService.set Toy.platform "k" (JStr "v") version_1 Toy.fresh).2).2
              "k" (JStr "v") version_1) as [H _].
  - reflexivity.
  - reflexivity.
  - vm_compute. reflexivity.
  - rewrite H. reflexivity.
Defined.

(** X20 on the executable platform: an encrypted entry with a ttl. *)
Lemma set_writes_one_entry_witness :
  let st1 := (SecureStorageService.set Toy.platform "k2" (JStr "v") one_minute Toy.stored_123).2 in
  is_Some (SecureStorageService.stored Session "k2" st1) /\
  SecureStorageService.stored Local "k" st1 = SecureStorageService.stored Local "k" Toy.stored_123 /\
  drawn st1 = (drawn Toy.stored_123 + 12)%nat /\
  clock_reads st1 = (2 + clock_reads Toy.stored_123)%nat.
Proof.
  intros st1.
  destruct (set_writes_one_entry Toy.platform Toy.stored_123 st1 "k2" (JStr "v") one_minute)
    as (H1 & H2 & _ & _ & _ & _ & H3 & H4).
  - vm_compute. reflexivity.
  - split; [exact H1|]. split; [|split; [exact H3|exact H4]].
    apply (H2 LocalStorage). left. discriminate.
Defined.
